(** * MAF client-server messaging: the service requester, the in-process
      router, the payload codec and the timer

    A shallow embedding of
    - [ServiceRequester.cpp] (module [ServiceRequester]),
    - [IAMessageRouter.cpp]  (module [IAMessageRouter]),
    - [ipc/local/ParamTrait.h] (module [ParamTrait]),
    - [BasicMessages.h] (module [BasicMessages]),
    - [Timer.cpp] (module [Timer]),
    followed by the properties of the design document that concern them
    and by further properties of the code. *)

From Stdlib.Strings Require Import Byte.
From stdpp Require Import gmap strings list fin_maps.

(** ** Shared vocabulary of the client-server layer *)

(** Modelled from the spec: the identifier types are declared in headers
    that are not part of these sources.  The design document gives
    [ServiceID] and [OpID] as opaque strings, [RequestID] as an unsigned
    64-bit number with [0] reserved as the invalid one, and [RegID] as the
    pair of an [OpID] and a [RequestID]. *)
Abbreviation ServiceID := string (only parsing).
Abbreviation OpID := string (only parsing).
Abbreviation RequestID := N (only parsing).
Definition RequestIDInvalid : RequestID := 0%N.

Record Address := { addrName : string; addrPort : N }.
Definition AddressInvalid : Address := {| addrName := EmptyString; addrPort := 0 |}.

(** Operation codes, in the order of the wire values of the design document. *)
Inductive OpCode :=
| OpInvalid | OpRequest | OpAbort | OpRegister | OpUnregister | OpStatusGet
| OpStatusRegister | OpSignalRegister | OpResponse | OpServiceStatusUpdate.

Inductive Availability := Unknown | Available | Unavailable.

Inductive ActionCallStatus :=
| Success | ServiceUnavailable | ReceiverUnavailable | InvalidParam
| Timeout | FailedUnknown.

#[global] Instance OpCode_eq_dec : EqDecision OpCode.
Proof. solve_decision. Defined.
#[global] Instance Availability_eq_dec : EqDecision Availability.
Proof. solve_decision. Defined.
#[global] Instance ActionCallStatus_eq_dec : EqDecision ActionCallStatus.
Proof. solve_decision. Defined.

(** A payload is an opaque byte blob; [CSPayloadIFPtr] is a shared pointer to
    one, [None] being the null pointer.  [clone] copies the blob. *)
Abbreviation Payload := (list byte) (only parsing).
Abbreviation CSPayloadIFPtr := (option (list byte)) (only parsing).
Definition clone (p : Payload) : Payload := p.

Module CSMessage.

Record t := {
  serviceID : ServiceID;
  operationID : OpID;
  operationCode : OpCode;
  requestID : RequestID;
  sourceAddress : Address;
  payload : CSPayloadIFPtr
}.

Definition setRequestID (id : RequestID) (m : t) : t :=
  {| serviceID := serviceID m; operationID := operationID m;
     operationCode := operationCode m; requestID := id;
     sourceAddress := sourceAddress m; payload := payload m |}.

End CSMessage.

(** [assign_ptr p v]: store [v] through [p] unless [p] is null.  An
    out-parameter is an [option]: [None] for a null pointer, [Some x] for a
    pointer to a cell holding [x]. *)
Definition assign_ptr {A} (p : option A) (v : A) : option A :=
  match p with
  | Some _ => Some v
  | None => None
  end.

(** ** IDManager and RegID *)

(** Modelled from the spec: [IDManager] is not part of these sources.  It
    "allocates the smallest unused positive integer and reclaims released
    IDs"; the manager is modelled by the list of the identifiers in use. *)
Module IDManager.

Definition t := list RequestID.

Definition unused (m : t) (id : RequestID) : bool := bool_decide (id ∉ m).

Definition candidates (m : t) : list RequestID :=
  N.of_nat <$> seq 1 (S (length m)).

Definition allocateNewID (m : t) : RequestID * t :=
  let id := default (N.of_nat (S (length m)))
                    (head (filter (λ id, unused m id = true) (candidates m))) in
  (id, id :: m).

Definition reclaimUsedID (id : RequestID) (m : t) : t :=
  filter (λ x, x ≠ id) m.

End IDManager.

(** Modelled from the spec: [RegID] is declared in a header that is not part
    of these sources.  A default-constructed [RegID] carries the invalid
    request identifier; a [RegID] is valid when its request identifier is
    not the invalid one; [clear] resets it to the default one. *)
Module RegID.

Record t := { opID : OpID; requestID : RequestID }.

Definition empty : t := {| opID := EmptyString; requestID := RequestIDInvalid |}.

Definition valid (r : t) : bool := bool_decide (requestID r ≠ RequestIDInvalid).

Definition clear (r : t) : t := empty.

Definition allocateUniqueID (r : t) (m : IDManager.t) : t * IDManager.t :=
  let '(id, m') := IDManager.allocateNewID m in
  ({| opID := opID r; requestID := id |}, m').

Definition reclaimID (r : t) (m : IDManager.t) : IDManager.t :=
  IDManager.reclaimUsedID (requestID r) m.

End RegID.

(** ** ServiceRequester.cpp *)

Module ServiceRequester.

(** *** Objects the requester holds or calls *)

(** What leaves a C++ call other than a value. *)
Inductive Exn :=
| UnavailableException
| StdException (what : string)
| UnknownException.

(** A promise of [sendMessageSync] is a heap object; it is named by the
    order of its allocation. *)
Abbreviation PromiseRef := nat (only parsing).

(** The three shapes a [CSPayloadProcessCallback] takes: the empty
    [std::function], a callback of the user (named by a number), and the
    lambda of [sendMessageSync] that captures its promise. *)
Inductive Callback :=
| CbNull
| CbUser (id : nat)
| CbSync (promise : PromiseRef).

Module RegEntry.
Record t := { requestID : RequestID; callback : Callback }.
End RegEntry.

(** Which of the two [RegEntriesMap] members a helper is handed by
    reference. *)
Inductive WhichMap := RequestEntries | RegisterEntries.

Inductive LogLevel := LogInfo | LogWarn | LogError.

(** One call of [ServiceStatusObserver::onServiceStatusChanged], with
    whether the caller held the lock of [serviceStatusObservers_]. *)
Record ObserverCall := {
  calledObserver : nat;
  calledSid : ServiceID;
  calledOld : Availability;
  calledNew : Availability;
  underObserversLock : bool
}.

Inductive ObserverOutcome := ObsReturns | ObsThrows (e : Exn).

(** An observer is user code: its identity (the pointer) and how a
    notification ends, given the notifications made so far.  It is taken
    not to call back into the requester during the notification. *)
Record ServiceStatusObserver := {
  observerAddr : nat;
  reaction : list ObserverCall → ServiceID → Availability → Availability →
             ObserverOutcome
}.

(** [ServiceStatusObserverPtr]: [None] is the null pointer. *)
Abbreviation ServiceStatusObserverPtr := (option ServiceStatusObserver) (only parsing).

(** [ClientIF] is the router or transport the requester hands envelopes to.
    It answers with a status, given what it was handed before; it is taken
    to return before any answer of the server reaches the requester. *)
Record ClientIF := {
  clientSend : list (CSMessage.t * ActionCallStatus) → CSMessage.t → ActionCallStatus
}.

(** *** The requester *)

(** The members of the class ([client_] is [None] once the weak pointer has
    expired), followed by what the embedding keeps track of besides:
    - [observersLocked]: whether the lock of [serviceStatusObservers_] is held;
    - [promiseValues], [promisesMade]: the value of each satisfied promise and
      the number of promises allocated so far;
    - [sentToServer]: the envelopes handed to [sendMessageToServer], each with
      the status that came back;
    - [callbackCalls], [observerCalls]: the calls made to callbacks of the
      user and to observers, with their arguments;
    - [logged]: the records written by the [MAF_LOGGER] macros. *)
Record State := {
  client_ : option ClientIF;
  sid_ : ServiceID;
  serviceStatus_ : Availability;
  requestEntriesMap_ : gmap string (list RegEntry.t);
  registerEntriesMap_ : gmap string (list RegEntry.t);
  propertiesCache_ : gmap string CSPayloadIFPtr;
  syncRequestPromises_ : list PromiseRef;
  serviceStatusObservers_ : list ServiceStatusObserver;
  idMgr_ : IDManager.t;
  observersLocked : bool;
  promiseValues : gmap nat CSPayloadIFPtr;
  promisesMade : nat;
  sentToServer : list (CSMessage.t * ActionCallStatus);
  callbackCalls : list (nat * CSPayloadIFPtr);
  observerCalls : list ObserverCall;
  logged : list (LogLevel * string)
}.

Definition set_serviceStatus_ (v : Availability) (s : State) : State :=
  {| client_ := client_ s; sid_ := sid_ s; serviceStatus_ := v;
     requestEntriesMap_ := requestEntriesMap_ s;
     registerEntriesMap_ := registerEntriesMap_ s;
     propertiesCache_ := propertiesCache_ s;
     syncRequestPromises_ := syncRequestPromises_ s;
     serviceStatusObservers_ := serviceStatusObservers_ s;
     idMgr_ := idMgr_ s; observersLocked := observersLocked s;
     promiseValues := promiseValues s; promisesMade := promisesMade s;
     sentToServer := sentToServer s; callbackCalls := callbackCalls s;
     observerCalls := observerCalls s; logged := logged s |}.

Definition set_requestEntriesMap_ (v : gmap string (list RegEntry.t)) (s : State) : State :=
  {| client_ := client_ s; sid_ := sid_ s; serviceStatus_ := serviceStatus_ s;
     requestEntriesMap_ := v;
     registerEntriesMap_ := registerEntriesMap_ s;
     propertiesCache_ := propertiesCache_ s;
     syncRequestPromises_ := syncRequestPromises_ s;
     serviceStatusObservers_ := serviceStatusObservers_ s;
     idMgr_ := idMgr_ s; observersLocked := observersLocked s;
     promiseValues := promiseValues s; promisesMade := promisesMade s;
     sentToServer := sentToServer s; callbackCalls := callbackCalls s;
     observerCalls := observerCalls s; logged := logged s |}.

Definition set_registerEntriesMap_ (v : gmap string (list RegEntry.t)) (s : State) : State :=
  {| client_ := client_ s; sid_ := sid_ s; serviceStatus_ := serviceStatus_ s;
     requestEntriesMap_ := requestEntriesMap_ s;
     registerEntriesMap_ := v;
     propertiesCache_ := propertiesCache_ s;
     syncRequestPromises_ := syncRequestPromises_ s;
     serviceStatusObservers_ := serviceStatusObservers_ s;
     idMgr_ := idMgr_ s; observersLocked := observersLocked s;
     promiseValues := promiseValues s; promisesMade := promisesMade s;
     sentToServer := sentToServer s; callbackCalls := callbackCalls s;
     observerCalls := observerCalls s; logged := logged s |}.

Definition set_propertiesCache_ (v : gmap string CSPayloadIFPtr) (s : State) : State :=
  {| client_ := client_ s; sid_ := sid_ s; serviceStatus_ := serviceStatus_ s;
     requestEntriesMap_ := requestEntriesMap_ s;
     registerEntriesMap_ := registerEntriesMap_ s;
     propertiesCache_ := v;
     syncRequestPromises_ := syncRequestPromises_ s;
     serviceStatusObservers_ := serviceStatusObservers_ s;
     idMgr_ := idMgr_ s; observersLocked := observersLocked s;
     promiseValues := promiseValues s; promisesMade := promisesMade s;
     sentToServer := sentToServer s; callbackCalls := callbackCalls s;
     observerCalls := observerCalls s; logged := logged s |}.

Definition set_syncRequestPromises_ (v : list PromiseRef) (s : State) : State :=
  {| client_ := client_ s; sid_ := sid_ s; serviceStatus_ := serviceStatus_ s;
     requestEntriesMap_ := requestEntriesMap_ s;
     registerEntriesMap_ := registerEntriesMap_ s;
     propertiesCache_ := propertiesCache_ s;
     syncRequestPromises_ := v;
     serviceStatusObservers_ := serviceStatusObservers_ s;
     idMgr_ := idMgr_ s; observersLocked := observersLocked s;
     promiseValues := promiseValues s; promisesMade := promisesMade s;
     sentToServer := sentToServer s; callbackCalls := callbackCalls s;
     observerCalls := observerCalls s; logged := logged s |}.

Definition set_serviceStatusObservers_ (v : list ServiceStatusObserver) (s : State) : State :=
  {| client_ := client_ s; sid_ := sid_ s; serviceStatus_ := serviceStatus_ s;
     requestEntriesMap_ := requestEntriesMap_ s;
     registerEntriesMap_ := registerEntriesMap_ s;
     propertiesCache_ := propertiesCache_ s;
     syncRequestPromises_ := syncRequestPromises_ s;
     serviceStatusObservers_ := v;
     idMgr_ := idMgr_ s; observersLocked := observersLocked s;
     promiseValues := promiseValues s; promisesMade := promisesMade s;
     sentToServer := sentToServer s; callbackCalls := callbackCalls s;
     observerCalls := observerCalls s; logged := logged s |}.

Definition set_idMgr_ (v : IDManager.t) (s : State) : State :=
  {| client_ := client_ s; sid_ := sid_ s; serviceStatus_ := serviceStatus_ s;
     requestEntriesMap_ := requestEntriesMap_ s;
     registerEntriesMap_ := registerEntriesMap_ s;
     propertiesCache_ := propertiesCache_ s;
     syncRequestPromises_ := syncRequestPromises_ s;
     serviceStatusObservers_ := serviceStatusObservers_ s;
     idMgr_ := v; observersLocked := observersLocked s;
     promiseValues := promiseValues s; promisesMade := promisesMade s;
     sentToServer := sentToServer s; callbackCalls := callbackCalls s;
     observerCalls := observerCalls s; logged := logged s |}.

Definition set_observersLocked (v : bool) (s : State) : State :=
  {| client_ := client_ s; sid_ := sid_ s; serviceStatus_ := serviceStatus_ s;
     requestEntriesMap_ := requestEntriesMap_ s;
     registerEntriesMap_ := registerEntriesMap_ s;
     propertiesCache_ := propertiesCache_ s;
     syncRequestPromises_ := syncRequestPromises_ s;
     serviceStatusObservers_ := serviceStatusObservers_ s;
     idMgr_ := idMgr_ s; observersLocked := v;
     promiseValues := promiseValues s; promisesMade := promisesMade s;
     sentToServer := sentToServer s; callbackCalls := callbackCalls s;
     observerCalls := observerCalls s; logged := logged s |}.

Definition set_promiseValues (v : gmap nat CSPayloadIFPtr) (s : State) : State :=
  {| client_ := client_ s; sid_ := sid_ s; serviceStatus_ := serviceStatus_ s;
     requestEntriesMap_ := requestEntriesMap_ s;
     registerEntriesMap_ := registerEntriesMap_ s;
     propertiesCache_ := propertiesCache_ s;
     syncRequestPromises_ := syncRequestPromises_ s;
     serviceStatusObservers_ := serviceStatusObservers_ s;
     idMgr_ := idMgr_ s; observersLocked := observersLocked s;
     promiseValues := v; promisesMade := promisesMade s;
     sentToServer := sentToServer s; callbackCalls := callbackCalls s;
     observerCalls := observerCalls s; logged := logged s |}.

Definition set_promisesMade (v : nat) (s : State) : State :=
  {| client_ := client_ s; sid_ := sid_ s; serviceStatus_ := serviceStatus_ s;
     requestEntriesMap_ := requestEntriesMap_ s;
     registerEntriesMap_ := registerEntriesMap_ s;
     propertiesCache_ := propertiesCache_ s;
     syncRequestPromises_ := syncRequestPromises_ s;
     serviceStatusObservers_ := serviceStatusObservers_ s;
     idMgr_ := idMgr_ s; observersLocked := observersLocked s;
     promiseValues := promiseValues s; promisesMade := v;
     sentToServer := sentToServer s; callbackCalls := callbackCalls s;
     observerCalls := observerCalls s; logged := logged s |}.

Definition set_sentToServer (v : list (CSMessage.t * ActionCallStatus)) (s : State) : State :=
  {| client_ := client_ s; sid_ := sid_ s; serviceStatus_ := serviceStatus_ s;
     requestEntriesMap_ := requestEntriesMap_ s;
     registerEntriesMap_ := registerEntriesMap_ s;
     propertiesCache_ := propertiesCache_ s;
     syncRequestPromises_ := syncRequestPromises_ s;
     serviceStatusObservers_ := serviceStatusObservers_ s;
     idMgr_ := idMgr_ s; observersLocked := observersLocked s;
     promiseValues := promiseValues s; promisesMade := promisesMade s;
     sentToServer := v; callbackCalls := callbackCalls s;
     observerCalls := observerCalls s; logged := logged s |}.

Definition set_callbackCalls (v : list (nat * CSPayloadIFPtr)) (s : State) : State :=
  {| client_ := client_ s; sid_ := sid_ s; serviceStatus_ := serviceStatus_ s;
     requestEntriesMap_ := requestEntriesMap_ s;
     registerEntriesMap_ := registerEntriesMap_ s;
     propertiesCache_ := propertiesCache_ s;
     syncRequestPromises_ := syncRequestPromises_ s;
     serviceStatusObservers_ := serviceStatusObservers_ s;
     idMgr_ := idMgr_ s; observersLocked := observersLocked s;
     promiseValues := promiseValues s; promisesMade := promisesMade s;
     sentToServer := sentToServer s; callbackCalls := v;
     observerCalls := observerCalls s; logged := logged s |}.

Definition set_observerCalls (v : list ObserverCall) (s : State) : State :=
  {| client_ := client_ s; sid_ := sid_ s; serviceStatus_ := serviceStatus_ s;
     requestEntriesMap_ := requestEntriesMap_ s;
     registerEntriesMap_ := registerEntriesMap_ s;
     propertiesCache_ := propertiesCache_ s;
     syncRequestPromises_ := syncRequestPromises_ s;
     serviceStatusObservers_ := serviceStatusObservers_ s;
     idMgr_ := idMgr_ s; observersLocked := observersLocked s;
     promiseValues := promiseValues s; promisesMade := promisesMade s;
     sentToServer := sentToServer s; callbackCalls := callbackCalls s;
     observerCalls := v; logged := logged s |}.

Definition set_logged (v : list (LogLevel * string)) (s : State) : State :=
  {| client_ := client_ s; sid_ := sid_ s; serviceStatus_ := serviceStatus_ s;
     requestEntriesMap_ := requestEntriesMap_ s;
     registerEntriesMap_ := registerEntriesMap_ s;
     propertiesCache_ := propertiesCache_ s;
     syncRequestPromises_ := syncRequestPromises_ s;
     serviceStatusObservers_ := serviceStatusObservers_ s;
     idMgr_ := idMgr_ s; observersLocked := observersLocked s;
     promiseValues := promiseValues s; promisesMade := promisesMade s;
     sentToServer := sentToServer s; callbackCalls := callbackCalls s;
     observerCalls := observerCalls s; logged := v |}.

(** The constructor: every table empty, the status [Unknown]. *)
Definition make (sid : ServiceID) (client : option ClientIF) : State :=
  {| client_ := client; sid_ := sid; serviceStatus_ := Unknown;
     requestEntriesMap_ := ∅; registerEntriesMap_ := ∅; propertiesCache_ := ∅;
     syncRequestPromises_ := []; serviceStatusObservers_ := [];
     idMgr_ := []; observersLocked := false;
     promiseValues := ∅; promisesMade := 0;
     sentToServer := []; callbackCalls := []; observerCalls := [];
     logged := [] |}.

(** *** Results of calls *)

(** A call returns a value, leaves by an exception, dereferences a null
    pointer ([Undefined]), or never returns ([Blocked]: a wait on a future
    that nothing completes). *)
Inductive Res (A : Type) :=
| Ret (a : A) (s : State)
| Throw (e : Exn) (s : State)
| Undefined
| Blocked (s : State).
Arguments Ret {A} a s.
Arguments Throw {A} e s.
Arguments Undefined {A}.
Arguments Blocked {A} s.

Definition M (A : Type) := State → Res A.

Definition ret {A} (a : A) : M A := λ s, Ret a s.

Definition bind {A B} (m : M A) (k : A → M B) : M B :=
  λ s, match m s with
       | Ret a s' => k a s'
       | Throw e s' => Throw e s'
       | Undefined => Undefined
       | Blocked s' => Blocked s'
       end.

Definition throw {A} (e : Exn) : M A := λ s, Throw e s.

(** A step that only changes the state. *)
Definition modify (f : State → State) : M unit := λ s, Ret tt (f s).

(** A call that always returns. *)
Definition lift {A} (f : State → A * State) : M A :=
  λ s, let '(a, s') := f s in Ret a s'.

Declare Scope requester_scope.
Delimit Scope requester_scope with req.
Notation "x ← y ; z" := (bind y (λ x : _, z))
  (at level 20, y at level 100, z at level 200, only parsing) : requester_scope.
Notation "' x ← y ; z" := (bind y (λ x : _, z))
  (at level 20, x pattern, y at level 100, z at level 200, only parsing) : requester_scope.
Notation "x ;; z" := (bind x (λ _, z))
  (at level 100, z at level 200, only parsing, right associativity) : requester_scope.
Local Open Scope requester_scope.

Definition MAF_LOGGER (lvl : LogLevel) (text : string) (s : State) : State :=
  set_logged (logged s ++ [(lvl, text)]) s.


(** *** Accessors and small helpers *)

Definition serviceID (s : State) : ServiceID := sid_ s.

Definition serviceStatus (s : State) : Availability := serviceStatus_ s.

Definition serviceUnavailable (s : State) : bool :=
  bool_decide (serviceStatus_ s ≠ Available).

Definition createCSMessage (opID : OpID) (opCode : OpCode)
    (msgContent : CSPayloadIFPtr) (s : State) : CSMessage.t :=
  {| CSMessage.serviceID := serviceID s;
     CSMessage.operationID := opID;
     CSMessage.operationCode := opCode;
     CSMessage.requestID := RequestIDInvalid;
     CSMessage.sourceAddress := AddressInvalid;
     CSMessage.payload := msgContent |}.

(** [sentToServer] keeps every envelope handed to [sendMessageToServer],
    with the status that came back for it: that of the client, or
    [ReceiverUnavailable] when the client is gone. *)
Definition sendMessageToServer (outgoingMsg : CSMessage.t) (s : State)
    : ActionCallStatus * State :=
  let status :=
    match client_ s with
    | Some client => clientSend client (sentToServer s) outgoingMsg
    | None => ReceiverUnavailable
    end in
  (status, set_sentToServer (sentToServer s ++ [(outgoingMsg, status)]) s).

Definition entriesMap (w : WhichMap) (s : State) : gmap string (list RegEntry.t) :=
  match w with
  | RequestEntries => requestEntriesMap_ s
  | RegisterEntries => registerEntriesMap_ s
  end.

Definition set_entriesMap (w : WhichMap) (v : gmap string (list RegEntry.t))
    (s : State) : State :=
  match w with
  | RequestEntries => set_requestEntriesMap_ v s
  | RegisterEntries => set_registerEntriesMap_ v s
  end.

(** [l.erase(it)] for the first [it] that satisfies [p], and the search
    that goes with it. *)
Fixpoint eraseFirst {A} (p : A → bool) (l : list A) : list A :=
  match l with
  | [] => []
  | x :: rest => if p x then rest else x :: eraseFirst p rest
  end.

Fixpoint findFirst {A} (p : A → bool) (l : list A) : option A :=
  match l with
  | [] => None
  | x :: rest => if p x then Some x else findFirst p rest
  end.

Definition hasRequestID (id : RequestID) (e : RegEntry.t) : bool :=
  bool_decide (RegEntry.requestID e = id).

(** *** Register entries, promises and the property cache *)

Definition storeRegEntry (w : WhichMap) (propertyID : OpID) (callback : Callback)
    (regID : RegID.t) (s : State) : (nat * RegID.t) * State :=
  let '(regID1, mgr) := RegID.allocateUniqueID regID (idMgr_ s) in
  let regID2 := {| RegID.opID := propertyID;
                   RegID.requestID := RegID.requestID regID1 |} in
  let s1 := set_idMgr_ mgr s in
  let regEntries :=
    default [] (entriesMap w s1 !! propertyID)
    ++ [{| RegEntry.requestID := RegID.requestID regID2;
           RegEntry.callback := callback |}] in
  ((length regEntries, regID2),
   set_entriesMap w (<[propertyID := regEntries]> (entriesMap w s1)) s1).

Definition removeRegEntry (w : WhichMap) (regID : RegID.t) (s : State)
    : nat * State :=
  match entriesMap w s !! RegID.opID regID with
  | Some entries =>
      let entries' := eraseFirst (hasRequestID (RegID.requestID regID)) entries in
      let s1 := set_idMgr_ (RegID.reclaimID regID (idMgr_ s)) s in
      match entries' with
      | [] => (0, set_entriesMap w (delete (RegID.opID regID) (entriesMap w s1)) s1)
      | _ :: _ =>
          (length entries',
           set_entriesMap w (<[RegID.opID regID := entries']> (entriesMap w s1)) s1)
      end
  | None => (0, s)
  end.

Definition removeRequestPromies (promise : PromiseRef) (s : State) : State :=
  set_syncRequestPromises_
    (eraseFirst (λ p, bool_decide (p = promise)) (syncRequestPromises_ s)) s.

(** [std::promise::set_value]: a promise is satisfied at most once. *)
Definition set_value (promise : PromiseRef) (v : CSPayloadIFPtr) : M unit :=
  λ s, match promiseValues s !! promise with
       | Some _ => Throw (StdException "Promise already satisfied") s
       | None => Ret tt (set_promiseValues (<[promise := v]> (promiseValues s)) s)
       end.

Definition getCachedProperty (propertyID : OpID) : M CSPayloadIFPtr :=
  λ s, match propertiesCache_ s !! propertyID with
       | Some (Some p) => Ret (Some (clone p)) s
       | Some None => Undefined
       | None => Ret None s
       end.

Definition cachePropertyStatus (propertyID : OpID) (property : CSPayloadIFPtr)
    (s : State) : State :=
  set_propertiesCache_ (<[propertyID := property]> (propertiesCache_ s)) s.

Definition removeCachedProperty (propertyID : OpID) (s : State) : State :=
  set_propertiesCache_ (delete propertyID (propertiesCache_ s)) s.

Definition cachedPropertyUpToDate (propertyID : OpID) (s : State) : bool :=
  bool_decide (is_Some (registerEntriesMap_ s !! propertyID)).

(** Calling a [CSPayloadProcessCallback].  A callback of the user is taken
    to return without calling back into the requester; the call is recorded
    in [callbackCalls].  Calling an empty [std::function] raises
    [std::bad_function_call]. *)
Definition invoke (callback : Callback) (arg : CSPayloadIFPtr) : M unit :=
  match callback with
  | CbNull => throw (StdException "bad_function_call")
  | CbUser id => modify (λ s, set_callbackCalls (callbackCalls s ++ [(id, arg)]) s)
  | CbSync promise =>
      modify (removeRequestPromies promise) ;; set_value promise arg
  end.

Fixpoint setEach (promises : list PromiseRef) (v : CSPayloadIFPtr) : M unit :=
  match promises with
  | [] => ret tt
  | promise :: rest => set_value promise v ;; setEach rest v
  end.

Definition abortAllSyncRequest : M unit :=
  λ s, (setEach (syncRequestPromises_ s) None ;;
        modify (set_syncRequestPromises_ [])) s.

Definition clearAllAsyncRequests (s : State) : State :=
  set_requestEntriesMap_ ∅ s.

Definition clearAllRegisterEntries (s : State) : State :=
  set_registerEntriesMap_ ∅ s.

(** *** Asynchronous requests *)

Definition storeAndSendRequestToServer (w : WhichMap) (outgoingMsg : CSMessage.t)
    (callback : Callback) (callStatus : option ActionCallStatus) (s : State)
    : (RegID.t * option ActionCallStatus) * State :=
  let '((_, regID), s1) :=
    storeRegEntry w (CSMessage.operationID outgoingMsg) callback RegID.empty s in
  let outgoingMsg1 := CSMessage.setRequestID (RegID.requestID regID) outgoingMsg in
  let '(status, s2) := sendMessageToServer outgoingMsg1 s1 in
  if decide (status ≠ Success)
  then ((RegID.clear regID, assign_ptr callStatus status),
        snd (removeRegEntry w regID s2))
  else ((regID, assign_ptr callStatus status), s2).

Definition sendMessageAsync (operationID : OpID) (operationCode : OpCode)
    (msgContent : CSPayloadIFPtr) (callback : Callback)
    (callStatus : option ActionCallStatus) (s : State)
    : (RegID.t * option ActionCallStatus) * State :=
  let csMsg := createCSMessage operationID operationCode msgContent s in
  storeAndSendRequestToServer RequestEntries csMsg callback callStatus s.

Definition sendRequestAsync (opID : OpID) (msgContent : CSPayloadIFPtr)
    (callback : Callback) (callStatus : option ActionCallStatus) (s : State)
    : (RegID.t * option ActionCallStatus) * State :=
  if serviceUnavailable s
  then ((RegID.empty, assign_ptr callStatus ServiceUnavailable), s)
  else sendMessageAsync opID OpRequest msgContent callback callStatus s.

Definition abortRequest (regID : RegID.t) (callStatus : option ActionCallStatus)
    (s : State) : option ActionCallStatus * State :=
  if negb (RegID.valid regID) then (assign_ptr callStatus InvalidParam, s)
  else
    let '(found, s1) :=
      match requestEntriesMap_ s !! RegID.opID regID with
      | Some listOfRequests =>
          match findFirst (hasRequestID (RegID.requestID regID)) listOfRequests with
          | Some _ =>
              (true,
               set_requestEntriesMap_
                 (<[RegID.opID regID :=
                      eraseFirst (hasRequestID (RegID.requestID regID)) listOfRequests]>
                    (requestEntriesMap_ s)) s)
          | None => (false, s)
          end
      | None => (false, s)
      end in
    if found : bool then
      let msg := CSMessage.setRequestID (RegID.requestID regID)
                   (createCSMessage (RegID.opID regID) OpAbort None s1) in
      let '(status, s2) := sendMessageToServer msg s1 in
      let s3 := if decide (status = Success)
                then set_idMgr_ (RegID.reclaimID regID (idMgr_ s2)) s2
                else s2 in
      (assign_ptr callStatus status, s3)
    else (callStatus, s1).


(** *** Service status observers *)

(** A [std::lock_guard] on [serviceStatusObservers_] around [m]: the lock
    is released when [m] returns and when an exception leaves it. *)
Definition withObserversLock {A} (m : M A) : M A :=
  λ s, match m (set_observersLocked true s) with
       | Ret a s' => Ret a (set_observersLocked false s')
       | Throw e s' => Throw e (set_observersLocked false s')
       | Undefined => Undefined
       | Blocked s' => Blocked s'
       end.

(** [observer->onServiceStatusChanged(sid, oldStatus, newStatus)]. *)
Definition callObserver (observer : ServiceStatusObserver) (sid : ServiceID)
    (oldStatus newStatus : Availability) : M unit :=
  λ s,
    let s1 :=
      set_observerCalls
        (observerCalls s ++
           [{| calledObserver := observerAddr observer; calledSid := sid;
               calledOld := oldStatus; calledNew := newStatus;
               underObserversLock := observersLocked s |}]) s in
    match reaction observer (observerCalls s) sid oldStatus newStatus with
    | ObsReturns => Ret tt s1
    | ObsThrows e => Throw e s1
    end.

Definition registerServiceStatusObserver (observer : ServiceStatusObserverPtr)
    : M unit :=
  match observer with
  | Some o =>
      currentServiceStatus ←
        withObserversLock
          (λ s, Ret (serviceStatus s)
                    (set_serviceStatusObservers_ (serviceStatusObservers_ s ++ [o]) s));
      if decide (currentServiceStatus = Available)
      then λ s, callObserver o (serviceID s) Unknown Available s
      else ret tt
  | None => ret tt
  end.

Definition samePointer (obsv : ServiceStatusObserver)
    (observer : ServiceStatusObserverPtr) : bool :=
  match observer with
  | Some o => bool_decide (observerAddr obsv = observerAddr o)
  | None => false
  end.

Definition unregisterServiceStatusObserver (observer : ServiceStatusObserverPtr)
    (s : State) : State :=
  set_serviceStatusObservers_
    (filter (λ obsv, samePointer obsv observer = false) (serviceStatusObservers_ s)) s.

(** The loop of [forwardServiceStatusToObservers]: [visited] are the
    observers before the iterator, [todo] those from the iterator on; the
    member list is [visited ++ todo] at each turn. *)
Fixpoint forwardLoop (sid : ServiceID) (oldStatus newStatus : Availability)
    (visited todo : list ServiceStatusObserver) : M unit :=
  match todo with
  | [] => ret tt
  | o :: rest =>
      λ s, match callObserver o sid oldStatus newStatus s with
           | Ret _ s1 => forwardLoop sid oldStatus newStatus (visited ++ [o]) rest s1
           | Throw UnavailableException s1 =>
               forwardLoop sid oldStatus newStatus visited rest
                 (set_serviceStatusObservers_ (visited ++ rest)
                    (MAF_LOGGER LogWarn "An observer is no longer available" s1))
           | Throw (StdException what) s1 =>
               Throw (StdException what)
                     (MAF_LOGGER LogWarn "EXCEPTION when notify service status change" s1)
           | Throw UnknownException s1 =>
               Throw UnknownException
                     (MAF_LOGGER LogWarn "UNKNOWN EXCEPTION occurred when notify service status change" s1)
           | Undefined => Undefined
           | Blocked s1 => Blocked s1
           end
  end.

Definition forwardServiceStatusToObservers (sid : ServiceID)
    (oldStatus newStatus : Availability) : M unit :=
  withObserversLock
    (λ s, forwardLoop sid oldStatus newStatus [] (serviceStatusObservers_ s) s).

Definition onServiceStatusChanged (sid : ServiceID)
    (oldStatus newStatus : Availability) : M unit :=
  modify (MAF_LOGGER LogInfo "Server status change") ;;
  λ s,
    if bool_decide (sid = serviceID s ∧ newStatus ≠ serviceStatus_ s) then
      (modify (set_serviceStatus_ newStatus) ;;
       (if decide (newStatus = Unavailable) then
          modify (set_serviceStatus_ Unavailable) ;;
          abortAllSyncRequest ;;
          modify clearAllAsyncRequests ;;
          modify clearAllRegisterEntries
        else ret tt) ;;
       forwardServiceStatusToObservers sid oldStatus newStatus) s
    else Ret tt s.

(** *** Registrations *)

Definition registerNotification (opID : OpID) (opCode : OpCode)
    (callback : Callback) (callStatus : option ActionCallStatus)
    : M (RegID.t * option ActionCallStatus) :=
  match callback with
  | CbNull => ret (RegID.empty, assign_ptr callStatus InvalidParam)
  | _ =>
      '(sameRegisterCount, regID) ←
        lift (storeRegEntry RegisterEntries opID callback RegID.empty);
      if decide (sameRegisterCount = 1) then
        registerMessage ←
          (λ s, Ret (CSMessage.setRequestID (RegID.requestID regID)
                       (createCSMessage opID opCode None s)) s);
        status ← lift (sendMessageToServer registerMessage);
        if decide (status ≠ Success) then
          lift (removeRegEntry RegisterEntries regID) ;;
          ret (RegID.clear regID, assign_ptr callStatus status)
        else ret (regID, assign_ptr callStatus status)
      else if decide (opCode = OpStatusRegister) then
        cachedProperty ← getCachedProperty opID;
        match cachedProperty with
        | Some _ => invoke callback cachedProperty
        | None => ret tt
        end ;;
        ret (regID, assign_ptr callStatus Success)
      else ret (regID, callStatus)
  end.

Definition registerStatus (propertyID : OpID) (callback : Callback)
    (callStatus : option ActionCallStatus)
    : M (RegID.t * option ActionCallStatus) :=
  λ s, if serviceUnavailable s
       then Ret (RegID.empty, assign_ptr callStatus ServiceUnavailable) s
       else registerNotification propertyID OpStatusRegister callback callStatus s.

Definition registerSignal (eventID : OpID) (callback : Callback)
    (callStatus : option ActionCallStatus)
    : M (RegID.t * option ActionCallStatus) :=
  λ s, if serviceUnavailable s
       then Ret (RegID.empty, assign_ptr callStatus ServiceUnavailable) s
       else registerNotification eventID OpSignalRegister callback callStatus s.

Definition unregister (regID : RegID.t) (s : State) : ActionCallStatus * State :=
  if serviceUnavailable s then (ServiceUnavailable, s)
  else if RegID.valid regID then
    let propertyID := RegID.opID regID in
    let '(totalRemainer, s1) := removeRegEntry RegisterEntries regID s in
    if decide (totalRemainer = 0) then
      let s2 := removeCachedProperty propertyID s1 in
      (Success,
       snd (sendMessageToServer (createCSMessage propertyID OpUnregister None s2) s2))
    else (Success, s1)
  else (InvalidParam, MAF_LOGGER LogWarn "Try to Unregister invalid RegID" s).

Definition unregisterAll (propertyID : OpID) (s : State) : ActionCallStatus * State :=
  if serviceUnavailable s then (ServiceUnavailable, s)
  else
    let s1 := set_registerEntriesMap_ (delete propertyID (registerEntriesMap_ s)) s in
    let s2 := snd (sendMessageToServer (createCSMessage propertyID OpUnregister None s1) s1) in
    (Success, removeCachedProperty propertyID s2).

(** *** Incoming envelopes *)

(** [callback(CSPayloadIFPtr(payload->clone()))] for each callback copied
    from the register entries. *)
Fixpoint callEach (callbacks : list Callback) (payload : CSPayloadIFPtr) : M unit :=
  match callbacks with
  | [] => ret tt
  | callback :: rest =>
      match payload with
      | Some p => invoke callback (Some (clone p)) ;; callEach rest payload
      | None => λ _, Undefined
      end
  end.

Definition onRegistersUpdated (msg : CSMessage.t) : M bool :=
  λ s,
    let callbacks :=
      RegEntry.callback <$>
        default [] (registerEntriesMap_ s !! CSMessage.operationID msg) in
    (callEach callbacks (CSMessage.payload msg) ;;
     ret (negb (bool_decide (callbacks = [])))) s.

Definition onRequestResult (msg : CSMessage.t) : M unit :=
  λ s,
    let '(callback, s1) :=
      match requestEntriesMap_ s !! CSMessage.operationID msg with
      | Some regEntries =>
          match findFirst (hasRequestID (CSMessage.requestID msg)) regEntries with
          | Some entry =>
              (RegEntry.callback entry,
               set_requestEntriesMap_
                 (<[CSMessage.operationID msg :=
                      eraseFirst (hasRequestID (CSMessage.requestID msg)) regEntries]>
                    (requestEntriesMap_ s)) s)
          | None =>
              (CbNull, MAF_LOGGER LogWarn "The request entry could not be found" s)
          end
      | None => (CbNull, MAF_LOGGER LogWarn "The request entry could not be found" s)
      end in
    match callback with
    | CbNull => Ret tt s1
    | _ => invoke callback (CSMessage.payload msg) s1
    end.

Definition onIncomingMessage (csMsg : CSMessage.t) : M bool :=
  modify (MAF_LOGGER LogInfo "New Incoming message from server") ;;
  λ s,
    if decide (CSMessage.serviceID csMsg = serviceID s) then
      match CSMessage.operationCode csMsg with
      | OpSignalRegister => (onRegistersUpdated csMsg ;; ret true) s
      | OpStatusRegister =>
          (updated ← onRegistersUpdated csMsg;
           (if updated : bool
            then modify (cachePropertyStatus (CSMessage.operationID csMsg)
                                             (CSMessage.payload csMsg))
            else ret tt) ;;
           ret true) s
      | OpRequest | OpStatusGet => (onRequestResult csMsg ;; ret true) s
      | _ => Ret false (MAF_LOGGER LogError "Invalid RESPONSE operation code" s)
      end
    else Ret true s.


(** *** Synchronous requests *)

(** What other threads hand to the requester while a caller waits on its
    future: envelopes from the server and changes of the service status. *)
Inductive Incoming :=
| IncomingMessage (csMsg : CSMessage.t)
| StatusChanged (sid : ServiceID) (oldStatus newStatus : Availability).

(** An exception of such a call leaves through the thread that made it,
    not through the waiting caller. *)
Definition deliver (ev : Incoming) : M unit :=
  λ s,
    let r := match ev with
             | IncomingMessage csMsg => (onIncomingMessage csMsg ;; ret tt) s
             | StatusChanged sid oldStatus newStatus =>
                 onServiceStatusChanged sid oldStatus newStatus s
             end in
    match r with
    | Throw _ s' => Ret tt s'
    | _ => r
    end.

Fixpoint deliverAll (evs : list Incoming) : M unit :=
  match evs with
  | [] => ret tt
  | ev :: rest => deliver ev ;; deliverAll rest
  end.

(** Modelled from the spec: [RequestTimeoutMs] is declared in a header that
    is not part of these sources; it is a count of milliseconds, and
    [RequestTimeoutMs_max] stands for [RequestTimeoutMs::max()]. *)
Abbreviation RequestTimeoutMs := Z (only parsing).
Definition RequestTimeoutMs_max : RequestTimeoutMs := 9223372036854775807%Z.

(** [meanwhile] is what the requester receives between the send and the
    end of the wait: the future is ready at the end of the wait exactly when
    the promise has a value by then.  Nothing inside the [try] block throws
    in this embedding, so its two handlers have no counterpart. *)
Definition sendMessageSync (operationID : OpID) (opCode : OpCode)
    (msgContent : CSPayloadIFPtr) (callStatus : option ActionCallStatus)
    (timeout : RequestTimeoutMs) (meanwhile : list Incoming)
    : M (CSPayloadIFPtr * option ActionCallStatus) :=
  λ s,
    let promise := promisesMade s in
    let s1 := set_promisesMade (S promise) s in
    let s2 := set_syncRequestPromises_ (syncRequestPromises_ s1 ++ [promise]) s1 in
    let '((regID, callStatus1), s3) :=
      sendMessageAsync operationID opCode msgContent (CbSync promise) callStatus s2 in
    if RegID.valid regID then
      (deliverAll meanwhile ;;
       λ s4,
         match promiseValues s4 !! promise with
         | Some msg =>
             if decide (timeout = RequestTimeoutMs_max) then Ret (msg, callStatus1) s4
             else match msg with
                  | Some _ => Ret (msg, callStatus1) s4
                  | None => Ret (None, callStatus1) s4
                  end
         | None =>
             if decide (timeout = RequestTimeoutMs_max) then Blocked s4
             else
               let s5 := MAF_LOGGER LogWarn "Request has expired" s4 in
               let '(_, s6) := abortRequest regID None s5 in
               Ret (None, assign_ptr callStatus1 Timeout) s6
         end) s3
    else Ret (None, callStatus1) (removeRequestPromies promise s3).

Definition sendRequest (opID : OpID) (msgContent : CSPayloadIFPtr)
    (callStatus : option ActionCallStatus) (timeout : RequestTimeoutMs)
    (meanwhile : list Incoming) : M (CSPayloadIFPtr * option ActionCallStatus) :=
  λ s, if serviceUnavailable s
       then Ret (None, assign_ptr callStatus ServiceUnavailable) s
       else sendMessageSync opID OpRequest msgContent callStatus timeout meanwhile s.

(** [getStatus(propertyID, callStatus, timeout)] *)
Definition getStatus (propertyID : OpID) (callStatus : option ActionCallStatus)
    (timeout : RequestTimeoutMs) (meanwhile : list Incoming)
    : M (CSPayloadIFPtr * option ActionCallStatus) :=
  λ s, if cachedPropertyUpToDate propertyID s then
         (v ← getCachedProperty propertyID; ret (v, callStatus)) s
       else if serviceUnavailable s then
         Ret (None, assign_ptr callStatus ServiceUnavailable) s
       else
         sendMessageSync propertyID OpStatusGet None callStatus timeout meanwhile s.

(** [getStatus(propertyID, callback)] *)
Definition getStatusAsync (propertyID : OpID) (callback : Callback)
    : M ActionCallStatus :=
  λ s, if cachedPropertyUpToDate propertyID s then
         (propStatus ← getCachedProperty propertyID;
          invoke callback propStatus ;;
          ret Success) s
       else
         let '((_, callstatus), s1) :=
           sendMessageAsync propertyID OpStatusGet None callback (Some FailedUnknown) s in
         Ret (default FailedUnknown callstatus) s1.

(** The destructor. *)
Definition destroy : M unit :=
  modify (MAF_LOGGER LogInfo "Clean up service requester") ;;
  abortAllSyncRequest.


(** *** What a call leaves behind, and the public operations *)

(** The state of the requester after a call, when there is one ([Blocked]:
    the state in which the caller waits for ever). *)
Definition stateAfter {A} (r : Res A) : option State :=
  match r with
  | Ret _ s => Some s
  | Throw _ s => Some s
  | Blocked s => Some s
  | Undefined => None
  end.

(** A callback as user code hands it over: null or one of its own. *)
Definition userCallback (c : option nat) : Callback :=
  match c with
  | Some id => CbUser id
  | None => CbNull
  end.

(** The public operations of the class, with their arguments. *)
Inductive Operation :=
| DoSendRequestAsync (opID : OpID) (msgContent : CSPayloadIFPtr)
    (callback : option nat) (callStatus : option ActionCallStatus)
| DoSendRequest (opID : OpID) (msgContent : CSPayloadIFPtr)
    (callStatus : option ActionCallStatus) (timeout : RequestTimeoutMs)
    (meanwhile : list Incoming)
| DoAbortRequest (regID : RegID.t) (callStatus : option ActionCallStatus)
| DoRegisterStatus (propertyID : OpID) (callback : option nat)
    (callStatus : option ActionCallStatus)
| DoRegisterSignal (eventID : OpID) (callback : option nat)
    (callStatus : option ActionCallStatus)
| DoUnregister (regID : RegID.t)
| DoUnregisterAll (propertyID : OpID)
| DoGetStatus (propertyID : OpID) (callStatus : option ActionCallStatus)
    (timeout : RequestTimeoutMs) (meanwhile : list Incoming)
| DoGetStatusAsync (propertyID : OpID) (callback : option nat)
| DoIncomingMessage (csMsg : CSMessage.t)
| DoServiceStatusChanged (sid : ServiceID) (oldStatus newStatus : Availability)
| DoRegisterObserver (observer : ServiceStatusObserverPtr)
| DoUnregisterObserver (observer : ServiceStatusObserverPtr).

Definition perform (op : Operation) (s : State) : option State :=
  match op with
  | DoSendRequestAsync opID msgContent callback callStatus =>
      Some (snd (sendRequestAsync opID msgContent (userCallback callback) callStatus s))
  | DoSendRequest opID msgContent callStatus timeout meanwhile =>
      stateAfter (sendRequest opID msgContent callStatus timeout meanwhile s)
  | DoAbortRequest regID callStatus => Some (snd (abortRequest regID callStatus s))
  | DoRegisterStatus propertyID callback callStatus =>
      stateAfter (registerStatus propertyID (userCallback callback) callStatus s)
  | DoRegisterSignal eventID callback callStatus =>
      stateAfter (registerSignal eventID (userCallback callback) callStatus s)
  | DoUnregister regID => Some (snd (unregister regID s))
  | DoUnregisterAll propertyID => Some (snd (unregisterAll propertyID s))
  | DoGetStatus propertyID callStatus timeout meanwhile =>
      stateAfter (getStatus propertyID callStatus timeout meanwhile s)
  | DoGetStatusAsync propertyID callback =>
      stateAfter (getStatusAsync propertyID (userCallback callback) s)
  | DoIncomingMessage csMsg => stateAfter (onIncomingMessage csMsg s)
  | DoServiceStatusChanged sid oldStatus newStatus =>
      stateAfter (onServiceStatusChanged sid oldStatus newStatus s)
  | DoRegisterObserver observer => stateAfter (registerServiceStatusObserver observer s)
  | DoUnregisterObserver observer => Some (unregisterServiceStatusObserver observer s)
  end.

(** Whether an operation takes the requester through a change of the
    service status to [Unavailable]. *)
Definition losing (ev : Incoming) : bool :=
  match ev with
  | StatusChanged _ _ Unavailable => true
  | _ => false
  end.

Definition losesService (op : Operation) : bool :=
  match op with
  | DoServiceStatusChanged _ _ Unavailable => true
  | DoSendRequest _ _ _ _ meanwhile => existsb losing meanwhile
  | DoGetStatus _ _ _ meanwhile => existsb losing meanwhile
  | _ => false
  end.

(** The states a requester goes through from its construction, by the
    operations that [allowed] admits. *)
Inductive reachable (allowed : Operation → Prop) : State → Prop :=
| reachable_make sid client : reachable allowed (make sid client)
| reachable_step op s s' :
    reachable allowed s → allowed op → perform op s = Some s' →
    reachable allowed s'.

Definition anyOperation (op : Operation) : Prop := True.
Definition keepsService (op : Operation) : Prop := losesService op = false.

(** The four tables of the requester. *)
Definition sameTables (s s' : State) : Prop :=
  requestEntriesMap_ s' = requestEntriesMap_ s ∧
  registerEntriesMap_ s' = registerEntriesMap_ s ∧
  propertiesCache_ s' = propertiesCache_ s ∧
  syncRequestPromises_ s' = syncRequestPromises_ s.

(** *** Sample requesters *)

(** A client that accepts every envelope. *)
Definition acceptingClient : ClientIF := {| clientSend := λ _ _, Success |}.

(** The sample states are reached from the constructor by the public
    operations: [after op s] is the state that [op] leaves behind. *)
Definition after (op : Operation) (s : State) : State :=
  default s (perform op s).

(** A requester of service [svc] just constructed, and the same once the
    service has been reported available. *)
Definition fresh : State := make "svc" (Some acceptingClient).

Definition connected : State :=
  after (DoServiceStatusChanged "svc" Unknown Available) fresh.

(** The record a notification of [o] leaves in [observerCalls]. *)
Definition notification (o : ServiceStatusObserver) (sid : ServiceID)
    (oldStatus newStatus : Availability) (locked : bool) : ObserverCall :=
  {| calledObserver := observerAddr o; calledSid := sid;
     calledOld := oldStatus; calledNew := newStatus;
     underObserversLock := locked |}.


(** Two observers: one that returns from every notification, one that is
    gone and answers every notification with [UnavailableException]. *)
Definition listeningObserver : ServiceStatusObserver :=
  {| observerAddr := 1; reaction := λ _ _ _ _, ObsReturns |}.

Definition goneObserver : ServiceStatusObserver :=
  {| observerAddr := 2; reaction := λ _ _ _ _, ObsThrows UnavailableException |}.

(** The connected requester with both observers registered. *)
Definition watched : State :=
  after (DoRegisterObserver (Some listeningObserver))
    (after (DoRegisterObserver (Some goneObserver)) connected).

(** The envelope of the sample request [echo] and the one that aborts it. *)
Definition echoRequest : CSMessage.t :=
  {| CSMessage.serviceID := "svc"; CSMessage.operationID := "echo";
     CSMessage.operationCode := OpRequest; CSMessage.requestID := 1%N;
     CSMessage.sourceAddress := AddressInvalid;
     CSMessage.payload := Some [x01; x02] |}.

Definition echoAbort : CSMessage.t :=
  {| CSMessage.serviceID := "svc"; CSMessage.operationID := "echo";
     CSMessage.operationCode := OpAbort; CSMessage.requestID := 1%N;
     CSMessage.sourceAddress := AddressInvalid;
     CSMessage.payload := None |}.


(** The envelope [createCSMessage(opID, opCode)] of service [sid] once
    [setRequestID(id)] has been applied to it. *)
Definition envelope (sid : ServiceID) (opID : OpID) (opCode : OpCode)
    (id : RequestID) (content : CSPayloadIFPtr) : CSMessage.t :=
  {| CSMessage.serviceID := sid; CSMessage.operationID := opID;
     CSMessage.operationCode := opCode; CSMessage.requestID := id;
     CSMessage.sourceAddress := AddressInvalid; CSMessage.payload := content |}.

(** The status the client gives for the next envelope. *)
Definition clientStatus (s : State) (msg : CSMessage.t) : ActionCallStatus :=
  match client_ s with
  | Some client => clientSend client (sentToServer s) msg
  | None => ReceiverUnavailable
  end.

(** The connected requester after [registerStatus] for property [x] by
    callback 1, after a second one by callback 2, and after the server
    has pushed the value [[0x01; 0x02]] for [x]. *)
Definition subscribed : State :=
  after (DoRegisterStatus "x" (Some 1) (Some Success)) connected.

Definition subscribedTwice : State :=
  after (DoRegisterStatus "x" (Some 2) (Some Success)) subscribed.

Definition statusUpdate : CSMessage.t :=
  envelope "svc" "x" OpStatusRegister 1%N (Some [x01; x02]).

Definition informed : State := after (DoIncomingMessage statusUpdate) subscribed.

(** The same requester once the service has been lost. *)
Definition disconnected : State :=
  after (DoServiceStatusChanged "svc" Available Unavailable) informed.


(** The informed requester after a synchronous request [echo] that got no
    answer within its 50 ms. *)
Definition timedOut : State :=
  after (DoSendRequest "echo" (Some [x01; x02]) (Some Success) 50%Z []) informed.

(** *** Cache coherency and the invariants behind it *)

Definition hasRegistration (s : State) (opID : OpID) : Prop :=
  ∃ entries, registerEntriesMap_ s !! opID = Some entries ∧ entries ≠ [].

(** Cache coherency as the design document states it, and the half of it
    that the code maintains. *)
Definition cacheCoherent (s : State) : Prop :=
  ∀ opID, is_Some (propertiesCache_ s !! opID) ↔ hasRegistration s opID.

Definition cachedAreRegistered (s : State) : Prop :=
  ∀ opID, is_Some (propertiesCache_ s !! opID) → hasRegistration s opID.

(** No [OpID] is kept with an empty list of registrations, and every cached
    property has its [OpID] among the registrations. *)
Definition registrationsKept (s : State) : Prop :=
  (∀ opID entries, registerEntriesMap_ s !! opID = Some entries → entries ≠ []) ∧
  (∀ opID, is_Some (propertiesCache_ s !! opID) →
           is_Some (registerEntriesMap_ s !! opID)).

(** Whether a callback may be called in [s]: the promise of a synchronous
    request has been made before. *)
Definition callable (s : State) (callback : Callback) : Prop :=
  ∀ p, callback = CbSync p → p < promisesMade s.

(** The promises on [syncRequestPromises_] are distinct and not yet
    satisfied; only promises made so far are on the list, have a value or
    are held by a stored callback. *)
Definition promisesPending (s : State) : Prop :=
  NoDup (syncRequestPromises_ s) ∧
  (∀ p, p ∈ syncRequestPromises_ s →
        p < promisesMade s ∧ promiseValues s !! p = None) ∧
  (∀ p, is_Some (promiseValues s !! p) → p < promisesMade s) ∧
  (∀ w opID entries entry,
     entriesMap w s !! opID = Some entries → entry ∈ entries →
     callable s (RegEntry.callback entry)).

(** The stored entries of [s'] are among those of [s]. *)
Definition entriesAmong (s s' : State) : Prop :=
  ∀ w opID entries' entry,
    entriesMap w s' !! opID = Some entries' → entry ∈ entries' →
    ∃ entries, entriesMap w s !! opID = Some entries ∧ entry ∈ entries.

(** What the change of the service status to [Unavailable] leaves behind,
    [before] being the promises that were pending. *)
Definition clearedByLoss (before : list PromiseRef) (s' : State) : Prop :=
  serviceStatus_ s' = Unavailable ∧
  registerEntriesMap_ s' = ∅ ∧
  requestEntriesMap_ s' = ∅ ∧
  syncRequestPromises_ s' = [] ∧
  ∀ p, p ∈ before → promiseValues s' !! p = Some None.

(** *** Reasoning about calls *)

(** [wp r Q E]: if the call returned, [Q] holds of its value and of the
    state; if it left by an exception or blocks, [E] holds of the state. *)
Definition wp {A} (r : Res A) (Q : A → State → Prop) (E : State → Prop) : Prop :=
  match r with
  | Ret a s => Q a s
  | Throw _ s => E s
  | Blocked s => E s
  | Undefined => True
  end.

(** [keeps R m]: every state that [m] leaves behind is related by [R] to
    the state it started from. *)
Definition keeps {A} (R : State → State → Prop) (m : M A) : Prop :=
  ∀ s, wp (m s) (λ _ s', R s s') (R s).

(** The parts of the requester that the properties speak of, and the
    relation of two states that differ at most in the parts listed. *)
Inductive Field :=
| FStatus | FRequests | FRegistrations | FCache | FPromises | FValues | FMade
| FSent | FCalls.

#[global] Instance Field_eq_dec : EqDecision Field.
Proof. solve_decision. Defined.

Definition touched (fp : list Field) (f : Field) : bool :=
  existsb (λ g, bool_decide (g = f)) fp.

Definition within (fp : list Field) (s s' : State) : Prop :=
  (touched fp FStatus = false → serviceStatus_ s' = serviceStatus_ s) ∧
  (touched fp FRequests = false → requestEntriesMap_ s' = requestEntriesMap_ s) ∧
  (touched fp FRegistrations = false →
     registerEntriesMap_ s' = registerEntriesMap_ s) ∧
  (touched fp FCache = false → propertiesCache_ s' = propertiesCache_ s) ∧
  (touched fp FPromises = false →
     syncRequestPromises_ s' = syncRequestPromises_ s) ∧
  (touched fp FValues = false → promiseValues s' = promiseValues s) ∧
  (touched fp FMade = false → promisesMade s' = promisesMade s) ∧
  (touched fp FSent = false → sentToServer s' = sentToServer s) ∧
  (touched fp FCalls = false → callbackCalls s' = callbackCalls s).

(** *** More sample requesters *)

(** A requester whose client has expired, told that the service is
    available. *)
Definition orphaned : State :=
  after (DoServiceStatusChanged "svc" Unknown Available) (make "svc" None).

(** The service the requester is for, its observers and what they have
    been told. *)
Definition sameObservers (s s' : State) : Prop :=
  sid_ s' = sid_ s ∧
  serviceStatusObservers_ s' = serviceStatusObservers_ s ∧
  observerCalls s' = observerCalls s ∧
  observersLocked s' = observersLocked s.


(** *** Callbacks that call back into the requester *)

(** The embedding above takes a callback of the user to return without
    calling the requester.  Here the way a callback is called is a
    parameter of the handling of an update: [invokeUnregistering] calls a
    callback of the user that, before it returns, calls [unregister] for
    the [RegID]s that [unregisters] lists for it. *)
Fixpoint callEachBy (call : Callback → CSPayloadIFPtr → M unit)
    (callbacks : list Callback) (payload : CSPayloadIFPtr) : M unit :=
  match callbacks with
  | [] => ret tt
  | callback :: rest =>
      match payload with
      | Some p => call callback (Some (clone p)) ;; callEachBy call rest payload
      | None => λ _, Undefined
      end
  end.

Definition onRegistersUpdatedBy (call : Callback → CSPayloadIFPtr → M unit)
    (msg : CSMessage.t) : M bool :=
  λ s,
    let callbacks :=
      RegEntry.callback <$>
        default [] (registerEntriesMap_ s !! CSMessage.operationID msg) in
    (callEachBy call callbacks (CSMessage.payload msg) ;;
     ret (negb (bool_decide (callbacks = [])))) s.

Definition onIncomingMessageBy (call : Callback → CSPayloadIFPtr → M unit)
    (csMsg : CSMessage.t) : M bool :=
  modify (MAF_LOGGER LogInfo "New Incoming message from server") ;;
  λ s,
    if decide (CSMessage.serviceID csMsg = serviceID s) then
      match CSMessage.operationCode csMsg with
      | OpSignalRegister => (onRegistersUpdatedBy call csMsg ;; ret true) s
      | OpStatusRegister =>
          (updated ← onRegistersUpdatedBy call csMsg;
           (if updated : bool
            then modify (cachePropertyStatus (CSMessage.operationID csMsg)
                                             (CSMessage.payload csMsg))
            else ret tt) ;;
           ret true) s
      | OpRequest | OpStatusGet => (onRequestResult csMsg ;; ret true) s
      | _ => Ret false (MAF_LOGGER LogError "Invalid RESPONSE operation code" s)
      end
    else Ret true s.

Definition invokeUnregistering (unregisters : nat → list RegID.t)
    (callback : Callback) (arg : CSPayloadIFPtr) : M unit :=
  invoke callback arg ;;
  match callback with
  | CbUser id =>
      modify (λ s, foldl (λ s1 regID, snd (unregister regID s1)) s (unregisters id))
  | _ => ret tt
  end.


End ServiceRequester.

(** ** IAMessageRouter.cpp *)

Module IAMessageRouter.

(** The calls the router makes on its two bases. *)
Inductive BaseCall :=
| ClientBaseInit | ServerBaseInit | ClientBaseDeinit | ServerBaseDeinit.

#[global] Instance BaseCall_eq_dec : EqDecision BaseCall.
Proof. solve_decision. Defined.

Section Router.

(** [ClientBase] and [ServerBase] are not part of these sources: their
    states and their [init] and [deinit] are taken as given. *)
Context {ClientBase ServerBase : Type}.
Variable ClientBase_init : ClientBase → bool * ClientBase.
Variable ServerBase_init : ServerBase → bool * ServerBase.
Variable ClientBase_deinit : ClientBase → bool * ClientBase.
Variable ServerBase_deinit : ServerBase → bool * ServerBase.

(** The router is both bases; [baseCalls] keeps the calls made on them. *)
Record State := {
  clientBase : ClientBase;
  serverBase : ServerBase;
  baseCalls : list BaseCall
}.

Definition callClientInit (r : State) : bool * State :=
  let '(ok, c) := ClientBase_init (clientBase r) in
  (ok, {| clientBase := c; serverBase := serverBase r;
          baseCalls := baseCalls r ++ [ClientBaseInit] |}).

Definition callServerInit (r : State) : bool * State :=
  let '(ok, v) := ServerBase_init (serverBase r) in
  (ok, {| clientBase := clientBase r; serverBase := v;
          baseCalls := baseCalls r ++ [ServerBaseInit] |}).

Definition callClientDeinit (r : State) : bool * State :=
  let '(ok, c) := ClientBase_deinit (clientBase r) in
  (ok, {| clientBase := c; serverBase := serverBase r;
          baseCalls := baseCalls r ++ [ClientBaseDeinit] |}).

Definition callServerDeinit (r : State) : bool * State :=
  let '(ok, v) := ServerBase_deinit (serverBase r) in
  (ok, {| clientBase := clientBase r; serverBase := v;
          baseCalls := baseCalls r ++ [ServerBaseDeinit] |}).

(** [a && b]: [b] is evaluated only when [a] gives [true]. *)
Definition andThen (a b : State → bool * State) (r : State) : bool * State :=
  let '(ok, r1) := a r in
  if ok then b r1 else (false, r1).

Definition init (r : State) : bool * State :=
  andThen callClientInit callServerInit r.

Definition deinit (r : State) : bool * State :=
  andThen callClientDeinit callClientDeinit r.

(** What the design document asks of [deinit]: each base is deinitialized
    exactly once. *)
Definition deinitsEachBaseOnce (r : State) : Prop :=
  ∃ calls, baseCalls (snd (deinit r)) = baseCalls r ++ calls ∧
    length (filter (λ c, c = ClientBaseDeinit) calls) = 1 ∧
    length (filter (λ c, c = ServerBaseDeinit) calls) = 1.

End Router.

Section Registration.

(** [ClientBase::registerServiceRequester] and
    [ServerBase::hasServiceProvider] are not part of these sources either:
    they are taken as given, the first one leaving the requester it is
    handed as it is.  The requester is the [ServiceRequester] above, and
    the pointer to it is taken not to be null. *)
Context {ClientBase ServerBase : Type}.
Variable ClientBase_registerServiceRequester :
  ClientBase → ServiceRequester.State → bool * ClientBase.
Variable ServerBase_hasServiceProvider : ServerBase → ServiceID → bool.

(** The requester is handed over by pointer: what becomes of it is the
    state of the result. *)
Definition registerServiceRequester (r : @State ClientBase ServerBase)
    : ServiceRequester.M (bool * @State ClientBase ServerBase) :=
  λ requester,
    let '(registered, c) :=
      ClientBase_registerServiceRequester (clientBase r) requester in
    let r1 := {| clientBase := c; serverBase := serverBase r;
                 baseCalls := baseCalls r |} in
    if registered then
      if ServerBase_hasServiceProvider (serverBase r1)
           (ServiceRequester.serviceID requester)
      then
        ServiceRequester.bind
          (ServiceRequester.onServiceStatusChanged
             (ServiceRequester.serviceID requester) Unavailable Available)
          (λ _, ServiceRequester.ret (true, r1)) requester
      else ServiceRequester.Ret (true, r1) requester
    else ServiceRequester.Ret (false, r1) requester.

End Registration.


End IAMessageRouter.

(** ** ipc/local/ParamTrait.h *)

Module ParamTrait.

(** Modelled from the spec: [ParamTranslatingStatus.h] is not part of these
    sources; the design document lists the four values. *)
Inductive TranslationStatus := Success | NoSource | SourceCorrupted | DestSrcMismatch.

Section Translate.

(** [Message] is the template parameter.  The byte stream and the
    deserializer [srz::DSR] are not part of these sources: [deserialize]
    stands for the extraction inside the [try] block, that is
    [new PureContentType] and [ds >> *content].  It gives the content read
    with the stream's [fail()] flag afterwards, or tells how the extraction
    was left: by a [std::exception], the one kind that the handler of
    [translate] catches, or by an exception of any other type. *)
Context {Message ByteStream : Type}.

Inductive Extraction :=
| Extracted (content : Message) (fail : bool)
| Raised (what : string)
| RaisedOther.

Variable deserialize : ByteStream → Extraction.

(** [IncomingPayload]: its [stream()] may be null. *)
Record IncomingPayload := { stream : option ByteStream }.

(** How a call of [translate] ends: it returns a message pointer, or the
    exception of the extraction that its handler does not catch leaves
    it. *)
Inductive Outcome :=
| Returned (message : option Message)
| Propagated.

(** [translate<Message>(payload, status)]: how the call ends and the status
    cell afterwards.  An exception that is not a [std::exception] leaves
    [translate] before any status has been stored. *)
Definition translate (payload : option IncomingPayload)
    (status : option TranslationStatus)
    : Outcome * option TranslationStatus :=
  match payload with
  | None => (Returned None, assign_ptr status NoSource)
  | Some incomingPayload =>
      match stream incomingPayload with
      | Some ibytestream =>
          match deserialize ibytestream with
          | Extracted content fail =>
              if negb fail
              then (Returned (Some content), assign_ptr status Success)
              else (Returned (Some content), assign_ptr status SourceCorrupted)
          | Raised _ => (Returned None, assign_ptr status DestSrcMismatch)
          | RaisedOther => (Propagated, status)
          end
      | None => (Returned None, assign_ptr status NoSource)
      end
  end.

End Translate.

End ParamTrait.

(** ** BasicMessages.h *)

Module BasicMessages.

(** A [std::function<void()>] is null or a function of the user, named by
    a number. *)
Abbreviation VoidCallback := (option nat) (only parsing).

(** [CallbackExcMsg]; [execute] gives the callback it calls, if any. *)
Record CallbackExcMsg := { callback : VoidCallback }.

Definition execute (m : CallbackExcMsg) : list nat :=
  match callback m with
  | Some f => [f]
  | None => []
  end.

(** [TimeoutMessage]: a [CallbackExcMsg] with the identifier of the timer;
    its constructor sets the priority of the message to 1000. *)
Record TimeoutMessage := {
  base : CallbackExcMsg;
  timerID : N;
  priority : Z
}.

Definition makeTimeoutMessage (timerID_ : N) (timeoutCallback : VoidCallback)
    : TimeoutMessage :=
  {| base := {| callback := timeoutCallback |};
     timerID := timerID_;
     priority := 1000 |}.

End BasicMessages.

(** ** Timer.cpp *)

Module Timer.

Abbreviation JobID := N (only parsing).
Abbreviation Duration := Z (only parsing).

(** A [std::shared_ptr<TimerManager>] that is not null, by the manager it
    points to. *)
Abbreviation ManagerPtr := nat (only parsing).

(** The calls a timer makes on a timer manager. *)
Inductive ManagerCall :=
| MgrStart (milliseconds : Duration) (cyclic : bool)
| MgrRestart (id : JobID)
| MgrStop (id : JobID)
| MgrSetCyclic (id : JobID) (cyclic : bool).

#[global] Instance ManagerCall_eq_dec : EqDecision ManagerCall.
Proof. solve_decision. Defined.

(** [Logger::info] and [Logger::error]. *)
Inductive Severity := LoggerInfo | LoggerError.

Section Timer.

(** [TimerManager] and [Component] are not part of these sources.  Of the
    manager the model keeps the calls made on it; the identifier that its
    [start] returns and the answer of its [isRunning] are taken as given,
    as functions of the calls made so far. *)
Variable invalidJobID : JobID.
Variable TimerManager_start :
  list (ManagerPtr * ManagerCall) → ManagerPtr → Duration → bool → JobID.
Variable TimerManager_isRunning :
  list (ManagerPtr * ManagerCall) → ManagerPtr → JobID → bool.

(** The timer ([_id], [_cyclic], [_myMgr]) and what surrounds it: the
    manager that [Component::getTimerManager()] gives, null when there is
    none; the calls made on managers; the messages posted to the component;
    the log. *)
Record State := {
  _id : JobID;
  _cyclic : bool;
  _myMgr : option ManagerPtr;
  timerManager : option ManagerPtr;
  managerCalls : list (ManagerPtr * ManagerCall);
  posted : list BasicMessages.TimeoutMessage;
  logged : list (Severity * string)
}.

Definition set_id (v : JobID) (t : State) : State :=
  {| _id := v; _cyclic := _cyclic t; _myMgr := _myMgr t;
     timerManager := timerManager t; managerCalls := managerCalls t;
     posted := posted t; logged := logged t |}.

Definition set_cyclic (v : bool) (t : State) : State :=
  {| _id := _id t; _cyclic := v; _myMgr := _myMgr t;
     timerManager := timerManager t; managerCalls := managerCalls t;
     posted := posted t; logged := logged t |}.

Definition set_myMgr (v : option ManagerPtr) (t : State) : State :=
  {| _id := _id t; _cyclic := _cyclic t; _myMgr := v;
     timerManager := timerManager t; managerCalls := managerCalls t;
     posted := posted t; logged := logged t |}.

Definition call (mgr : ManagerPtr) (c : ManagerCall) (t : State) : State :=
  {| _id := _id t; _cyclic := _cyclic t; _myMgr := _myMgr t;
     timerManager := timerManager t;
     managerCalls := managerCalls t ++ [(mgr, c)];
     posted := posted t; logged := logged t |}.

Definition postMessage (m : BasicMessages.TimeoutMessage) (t : State) : State :=
  {| _id := _id t; _cyclic := _cyclic t; _myMgr := _myMgr t;
     timerManager := timerManager t; managerCalls := managerCalls t;
     posted := posted t ++ [m]; logged := logged t |}.

Definition log (lvl : Severity) (text : string) (t : State) : State :=
  {| _id := _id t; _cyclic := _cyclic t; _myMgr := _myMgr t;
     timerManager := timerManager t; managerCalls := managerCalls t;
     posted := posted t; logged := logged t ++ [(lvl, text)] |}.

(** The constructor, in surroundings given by [timerManager]. *)
Definition newTimer (cyclic : bool) (mgr : option ManagerPtr) : State :=
  {| _id := invalidJobID; _cyclic := cyclic; _myMgr := None;
     timerManager := mgr; managerCalls := []; posted := []; logged := [] |}.

Definition restart (t : State) : State :=
  match _myMgr t with
  | Some mgr => call mgr (MgrRestart (_id t)) t
  | None => t
  end.

Definition stop (t : State) : State :=
  match _myMgr t with
  | Some mgr => call mgr (MgrStop (_id t)) t
  | None => t
  end.

Definition running (t : State) : bool :=
  match _myMgr t with
  | Some mgr => TimerManager_isRunning (managerCalls t) mgr (_id t)
  | None => false
  end.

Definition setCyclic (cyclic : bool) (t : State) : State :=
  if bool_decide (cyclic ≠ _cyclic t) then
    let t1 := set_cyclic cyclic t in
    match _myMgr t1 with
    | Some mgr => call mgr (MgrSetCyclic (_id t1) cyclic) t1
    | None => t1
    end
  else t.

(** The closure [onTimeout] that [start] hands to the manager, called by
    the manager when the time is up; [componentAlive] tells whether
    [componentRef.lock()] gives a component then. *)
Definition onTimeout (callback : nat) (componentAlive : bool) (t : State) : State :=
  let t1 :=
    if componentAlive
    then postMessage (BasicMessages.makeTimeoutMessage (_id t) (Some callback)) t
    else
      let t0 := if _cyclic t
                then match _myMgr t with
                     | Some mgr => call mgr (MgrStop (_id t)) t
                     | None => t
                     end
                else t in
      set_id invalidJobID t0 in
  if negb (_cyclic t1) then set_id invalidJobID t1 else t1.

Definition start (milliseconds : Duration) (callback : BasicMessages.VoidCallback)
    (t : State) : State :=
  match callback with
  | None => log LoggerError "[Timer]: Please specify not null callback" t
  | Some _ =>
      let t1 := set_myMgr (timerManager t) t in
      match _myMgr t1 with
      | Some mgr =>
          let t2 :=
            if running t1
            then stop (log LoggerInfo "Timer is still running, then stop!" t1)
            else t1 in
          let id := TimerManager_start (managerCalls t2) mgr milliseconds (_cyclic t2) in
          log LoggerInfo "Start new timer with id"
            (set_id id (call mgr (MgrStart milliseconds (_cyclic t2)) t2))
      | None => t1
      end
  end.

(** The destructor. *)
Definition deleteTimer (t : State) : State := stop t.

End Timer.

End Timer.


(** * Properties *)

Import ServiceRequester.
Local Open Scope requester_scope.

(** ** The identifier manager *)

(** The identifier allocated is never the invalid one and is not in use. *)
Lemma allocateNewID_unused (m : IDManager.t) :
  fst (IDManager.allocateNewID m) ≠ RequestIDInvalid ∧
  fst (IDManager.allocateNewID m) ∉ m.
Proof.
  unfold IDManager.allocateNewID, RequestIDInvalid. cbn [fst].
  set (free := filter (λ id, IDManager.unused m id = true) (IDManager.candidates m)).
  assert (Hnd : NoDup (IDManager.candidates m)).
  { unfold IDManager.candidates.
    apply NoDup_fmap_2; [intros x y ?; lia|apply NoDup_seq]. }
  assert (Hcand : ∀ j, j ∈ IDManager.candidates m ↔
                       (0 < j)%N ∧ (j ≤ N.of_nat (S (length m)))%N).
  { intros j. unfold IDManager.candidates. rewrite list_elem_of_fmap. split.
    - intros (n & -> & Hn%elem_of_seq). lia.
    - intros Hj. exists (N.to_nat j). split; [lia|]. apply elem_of_seq. lia. }
  destruct free as [|id rest] eqn:Hfree.
  - exfalso.
    assert (Hsub : IDManager.candidates m ⊆ m).
    { intros j Hj. destruct (decide (j ∈ m)) as [|Hjm]; [done|].
      assert (j ∈ free) as Hin; [|by rewrite Hfree in Hin; apply elem_of_nil in Hin].
      apply list_elem_of_filter. split; [|done].
      unfold IDManager.unused. by apply bool_decide_eq_true. }
    apply NoDup_submseteq in Hsub; [|done].
    apply submseteq_length in Hsub. unfold IDManager.candidates in Hsub.
    rewrite length_fmap, length_seq in Hsub. lia.
  - cbn [head default from_option Datatypes.id].
    assert (Hin : id ∈ free) by (rewrite Hfree; by left).
    apply list_elem_of_filter in Hin as [Hun Hc].
    unfold IDManager.unused in Hun. apply bool_decide_eq_true in Hun.
    apply Hcand in Hc. split; [lia|done].
Qed.

(** ** Requests while the service is not available *)

Lemma serviceUnavailable_true (s : State) :
  serviceStatus_ s ≠ Available → serviceUnavailable s = true.
Proof. intros H. unfold serviceUnavailable. by apply bool_decide_eq_true. Qed.

Lemma serviceUnavailable_false (s : State) :
  serviceStatus_ s = Available → serviceUnavailable s = false.
Proof.
  intros H. unfold serviceUnavailable. apply bool_decide_eq_false. by intros [].
Qed.

(** C3: a call of [sendRequestAsync] or [sendRequest] made while the service
    status is not [Available] fails at once: [ServiceUnavailable] is stored
    through [callStatus], the [RegID] returned is invalid (the payload
    returned is null), and the requester is left exactly as it was, so the
    four tables are unchanged, no callback has been called and no envelope
    has been passed to [sendMessageToServer]. *)
Theorem request_while_unavailable_fails
    (s : State) (opID : OpID) (msgContent : CSPayloadIFPtr) (callback : Callback)
    (callStatus : option ActionCallStatus) (timeout : RequestTimeoutMs)
    (meanwhile : list Incoming) :
  serviceStatus_ s ≠ Available →
  (∃ regID s',
      sendRequestAsync opID msgContent callback callStatus s
        = ((regID, assign_ptr callStatus ServiceUnavailable), s') ∧
      RegID.valid regID = false ∧ sameTables s s' ∧
      callbackCalls s' = callbackCalls s ∧ sentToServer s' = sentToServer s) ∧
  (∃ s',
      sendRequest opID msgContent callStatus timeout meanwhile s
        = Ret (None, assign_ptr callStatus ServiceUnavailable) s' ∧
      sameTables s s' ∧
      callbackCalls s' = callbackCalls s ∧ sentToServer s' = sentToServer s) ∧
  (∀ old : ActionCallStatus,
     assign_ptr (Some old) ServiceUnavailable = Some ServiceUnavailable).
Proof.
  intros Hst. split_and!.
  - exists RegID.empty, s. unfold sendRequestAsync.
    rewrite serviceUnavailable_true by done. by repeat split.
  - exists s. unfold sendRequest.
    rewrite serviceUnavailable_true by done. by repeat split.
  - done.
Qed.

Lemma request_while_unavailable_fails_witness :
  serviceStatus_ fresh ≠ Available ∧
  ∃ regID s',
    sendRequestAsync "echo" (Some [x01; x02]) (CbUser 7) (Some Success) fresh
      = ((regID, Some ServiceUnavailable), s') ∧
    RegID.valid regID = false ∧ sameTables fresh s'.
Proof.
  assert (H : serviceStatus_ fresh ≠ Available) by (vm_compute; discriminate).
  split; [exact H|].
  destruct (request_while_unavailable_fails fresh "echo" (Some [x01; x02])
              (CbUser 7) (Some Success) 50%Z [] H)
    as [(regID & s' & Heq & Hv & Ht & _) _].
  exists regID, s'. repeat split; try apply Ht; done.
Defined.

(** ** The router's [deinit] *)

Section RouterFacts.
Context {ClientBase ServerBase : Type}.
Variable ClientBase_deinit : ClientBase → bool * ClientBase.

(** C6 (the code departs from it): [IAMessageRouter::deinit] never calls
    [ServerBase::deinit] and leaves the server base as it was; it calls
    [ClientBase::deinit] once when that call fails and twice when it
    succeeds.  So it does not deinitialize each base exactly once. *)
Theorem deinit_skips_server_base
    (r : @IAMessageRouter.State ClientBase ServerBase) :
  let r' := snd (IAMessageRouter.deinit ClientBase_deinit r) in
  IAMessageRouter.serverBase r' = IAMessageRouter.serverBase r ∧
  (IAMessageRouter.baseCalls r' =
     IAMessageRouter.baseCalls r ++ [IAMessageRouter.ClientBaseDeinit] ∨
   IAMessageRouter.baseCalls r' =
     IAMessageRouter.baseCalls r
       ++ [IAMessageRouter.ClientBaseDeinit; IAMessageRouter.ClientBaseDeinit]) ∧
  ¬ IAMessageRouter.deinitsEachBaseOnce ClientBase_deinit r.
Proof.
  assert (Hcalls :
    let r' := snd (IAMessageRouter.deinit ClientBase_deinit r) in
    IAMessageRouter.serverBase r' = IAMessageRouter.serverBase r ∧
    (IAMessageRouter.baseCalls r' =
       IAMessageRouter.baseCalls r ++ [IAMessageRouter.ClientBaseDeinit] ∨
     IAMessageRouter.baseCalls r' =
       IAMessageRouter.baseCalls r
         ++ [IAMessageRouter.ClientBaseDeinit; IAMessageRouter.ClientBaseDeinit])).
  { unfold IAMessageRouter.deinit, IAMessageRouter.andThen,
      IAMessageRouter.callClientDeinit. simpl.
    destruct (ClientBase_deinit (IAMessageRouter.clientBase r)) as [[] c1]; simpl.
    - destruct (ClientBase_deinit c1) as [ok c2]; simpl.
      split; [done|]. right. by rewrite <- app_assoc.
    - split; [done|]. by left. }
  simpl in *. destruct Hcalls as [Hsrv Hcalls]. split_and!; [done..|].
  intros (calls & Heq & _ & Hserver).
  destruct Hcalls as [Hc|Hc]; rewrite Hc in Heq;
    apply app_inv_head in Heq; subst calls; vm_compute in Hserver; discriminate.
Qed.

End RouterFacts.

(** On a router whose bases deinitialize without failure, the client base
    is deinitialized twice and the server base not at all. *)
Lemma deinit_on_willing_bases :
  let r := {| IAMessageRouter.clientBase := tt; IAMessageRouter.serverBase := tt;
              IAMessageRouter.baseCalls := [] |} in
  IAMessageRouter.deinit (λ c : unit, (true, c)) r
  = (true,
     {| IAMessageRouter.clientBase := tt; IAMessageRouter.serverBase := tt;
        IAMessageRouter.baseCalls :=
          [IAMessageRouter.ClientBaseDeinit; IAMessageRouter.ClientBaseDeinit] |}).
Proof. reflexivity. Qed.

(** ** The payload codec *)

Section TranslateFacts.
Context {Message ByteStream : Type}.
Variable deserialize : ByteStream → @ParamTrait.Extraction Message.

(** C7 (as the code has it): decoding a payload into a typed message.  A
    null payload and a payload without a stream give [NoSource] and a null
    message; a stream whose [fail()] flag is set after the extraction gives
    [SourceCorrupted], with the message as far as it was read; a
    [std::exception] of the extraction gives [DestSrcMismatch] and a null
    message; otherwise the status is [Success] and the message read is
    returned.  An exception of the extraction that is not a
    [std::exception] leaves [translate]: nothing is returned and the status
    cell keeps what it held.  Whenever [translate] returns, the status it
    stored does not depend on what the cell held before; a null status
    pointer stays null. *)
Theorem translate_status
    (payload : option (@ParamTrait.IncomingPayload ByteStream))
    (old : ParamTrait.TranslationStatus) :
  let result := ParamTrait.translate deserialize payload (Some old) in
  match payload with
  | None => result = (ParamTrait.Returned None, Some ParamTrait.NoSource)
  | Some incomingPayload =>
      match ParamTrait.stream incomingPayload with
      | None => result = (ParamTrait.Returned None, Some ParamTrait.NoSource)
      | Some ibytestream =>
          match deserialize ibytestream with
          | ParamTrait.Extracted content true =>
              result = (ParamTrait.Returned (Some content),
                        Some ParamTrait.SourceCorrupted)
          | ParamTrait.Extracted content false =>
              result = (ParamTrait.Returned (Some content), Some ParamTrait.Success)
          | ParamTrait.Raised _ =>
              result = (ParamTrait.Returned None, Some ParamTrait.DestSrcMismatch)
          | ParamTrait.RaisedOther => result = (ParamTrait.Propagated, Some old)
          end
      end
  end ∧
  (∀ message, fst result = ParamTrait.Returned message →
     ∃ st, ∀ old',
       ParamTrait.translate deserialize payload (Some old')
         = (ParamTrait.Returned message, Some st)) ∧
  (fst result = ParamTrait.Propagated →
     ∀ old', ParamTrait.translate deserialize payload (Some old')
               = (ParamTrait.Propagated, Some old')) ∧
  snd (ParamTrait.translate deserialize payload None) = None.
Proof.
  unfold ParamTrait.translate.
  destruct payload as [[[ibytestream|]]|]; simpl.
  2,3: split_and!; [done| |done|done]; intros message [= <-]; by eexists.
  destruct (deserialize ibytestream) as [content [|]|what|]; simpl;
    (split_and!; [done| | |done]); try done;
    intros message [= <-]; by eexists.
Qed.

End TranslateFacts.

Lemma translate_status_witness :
  let deserialize (bytes : list nat) :=
    match bytes with
    | [] => ParamTrait.Raised "no bytes"
    | [n] => ParamTrait.Extracted n false
    | [n; _] => ParamTrait.Extracted n true
    | _ => ParamTrait.RaisedOther
    end in
  let decode bytes :=
    ParamTrait.translate deserialize (Some {| ParamTrait.stream := Some bytes |})
      (Some ParamTrait.NoSource) in
  decode [7] = (ParamTrait.Returned (Some 7), Some ParamTrait.Success) ∧
  decode [7; 8] = (ParamTrait.Returned (Some 7), Some ParamTrait.SourceCorrupted) ∧
  decode [] = (ParamTrait.Returned None, Some ParamTrait.DestSrcMismatch) ∧
  decode [7; 8; 9] = (ParamTrait.Propagated, Some ParamTrait.NoSource).
Proof.
  intros deserialize decode. split_and!.
  - by destruct (translate_status deserialize
                   (Some {| ParamTrait.stream := Some [7] |}) ParamTrait.NoSource).
  - by destruct (translate_status deserialize
                   (Some {| ParamTrait.stream := Some [7; 8] |}) ParamTrait.NoSource).
  - by destruct (translate_status deserialize
                   (Some {| ParamTrait.stream := Some [] |}) ParamTrait.NoSource).
  - by destruct (translate_status deserialize
                   (Some {| ParamTrait.stream := Some [7; 8; 9] |})
                   ParamTrait.NoSource).
Defined.

(** C7 as the design document has it fails for an extraction that throws
    something that is not a [std::exception]: [translate] does not return,
    and the status cell, which held [Success], still does, not
    [DestSrcMismatch]. *)
Lemma translate_lets_other_exceptions_through :
  let deserialize (_ : unit) : @ParamTrait.Extraction nat := ParamTrait.RaisedOther in
  let result :=
    ParamTrait.translate deserialize (Some {| ParamTrait.stream := Some tt |})
      (Some ParamTrait.Success) in
  fst result = ParamTrait.Propagated ∧
  snd result = Some ParamTrait.Success ∧
  snd result ≠ Some ParamTrait.DestSrcMismatch ∧
  ∀ message, fst result ≠ ParamTrait.Returned message.
Proof. by split_and!. Qed.


(** ** Service status observers *)

(** C9: [registerServiceStatusObserver] with a non-null observer appends it
    to the observer list; when the service status read under the same lock
    is [Available], the observer is then notified once, outside the lock,
    of the change from [Unknown] to [Available], and otherwise it is not
    notified.  Nothing else of the requester changes.  A null observer
    leaves the requester as it was. *)
Theorem registerServiceStatusObserver_spec (o : ServiceStatusObserver) (s : State) :
  registerServiceStatusObserver None s = Ret tt s ∧
  ∃ s', stateAfter (registerServiceStatusObserver (Some o) s) = Some s' ∧
    serviceStatusObservers_ s' = serviceStatusObservers_ s ++ [o] ∧
    observerCalls s' =
      observerCalls s ++
        (if decide (serviceStatus_ s = Available)
         then [notification o (serviceID s) Unknown Available false]
         else []) ∧
    serviceStatus_ s' = serviceStatus_ s ∧ sameTables s s' ∧
    sentToServer s' = sentToServer s ∧ callbackCalls s' = callbackCalls s.
Proof.
  split; [done|].
  unfold registerServiceStatusObserver, bind, withObserversLock, callObserver,
    serviceStatus, notification. simpl.
  destruct (decide (serviceStatus_ s = Available)) as [Hav|Hav]; simpl.
  - destruct (reaction o (observerCalls s) (sid_ s) Unknown Available);
      simpl; eexists; (split; [reflexivity|]); simpl; by repeat split.
  - eexists; split; [reflexivity|]; simpl. rewrite app_nil_r. by repeat split.
Qed.

(** Every notification made by the loop of [forwardServiceStatusToObservers]
    is made with the lock of the observer list held. *)
Lemma forwardLoop_notifies_under_lock
    (sid : ServiceID) (oldStatus newStatus : Availability)
    (todo visited : list ServiceStatusObserver) (s s' : State) :
  observersLocked s = true →
  stateAfter (forwardLoop sid oldStatus newStatus visited todo s) = Some s' →
  observersLocked s' = true ∧
  ∃ calls, observerCalls s' = observerCalls s ++ calls ∧
    (todo ≠ [] → calls ≠ []) ∧
    Forall (λ c, underObserversLock c = true) calls.
Proof.
  revert visited s. induction todo as [|o rest IH]; intros visited s Hlock; simpl.
  - intros [= <-]. split; [done|]. exists []. by rewrite app_nil_r.
  - unfold callObserver.
    destruct (reaction o (observerCalls s) sid oldStatus newStatus) as [|[|what|]].
    1,2: intros Hs'; apply IH in Hs' as (Hl & calls & Hc & _ & Hf); [|done];
      simpl in Hc; split; [done|];
      exists (notification o sid oldStatus newStatus true :: calls);
      rewrite Hc, <- app_assoc; unfold notification; rewrite Hlock; simpl;
      split_and!; [done|done|by constructor].
    all: simpl; intros [= <-]; simpl; split; [done|];
      exists [notification o sid oldStatus newStatus true];
      unfold notification; rewrite Hlock; simpl;
      split_and!; [done|done|by repeat constructor].
Qed.

(** C8 (the code departs from it): [forwardServiceStatusToObservers] makes
    every one of its notifications while it holds the lock of the observer
    list, going through the list itself and not through a copy taken
    beforehand; with one observer or more there is such a notification. *)
Theorem forward_notifies_under_lock
    (sid : ServiceID) (oldStatus newStatus : Availability) (s s' : State) :
  stateAfter (forwardServiceStatusToObservers sid oldStatus newStatus s) = Some s' →
  ∃ calls, observerCalls s' = observerCalls s ++ calls ∧
    (serviceStatusObservers_ s ≠ [] → calls ≠ []) ∧
    Forall (λ c, underObserversLock c = true) calls.
Proof.
  unfold forwardServiceStatusToObservers, withObserversLock. intros Hs'.
  destruct (forwardLoop sid oldStatus newStatus []
              (serviceStatusObservers_ (set_observersLocked true s))
              (set_observersLocked true s)) as [a s1|e s1| |s1] eqn:Hloop;
    simpl in Hs'; try discriminate.
  all: injection Hs' as <-.
  all: edestruct (forwardLoop_notifies_under_lock sid oldStatus newStatus
                    (serviceStatusObservers_ s) [] (set_observersLocked true s) s1)
         as (_ & calls & Hc & Hne & Hall); [done|by simpl in *; rewrite Hloop|].
  all: exists calls; simpl in *; by split_and!.
Qed.

Lemma forward_notifies_under_lock_witness :
  ∃ s',
    stateAfter (forwardServiceStatusToObservers "svc" Available Unavailable watched)
      = Some s' ∧
    serviceStatusObservers_ s' = [listeningObserver] ∧
    ∃ calls, observerCalls s' = observerCalls watched ++ calls ∧
      (serviceStatusObservers_ watched ≠ [] → calls ≠ []) ∧
      Forall (λ c, underObserversLock c = true) calls.
Proof.
  eexists. split; [vm_compute; reflexivity|]. split; [reflexivity|].
  apply (forward_notifies_under_lock "svc" Available Unavailable watched).
  vm_compute. reflexivity.
Defined.

(** What does hold of the notification: an [UnavailableException] never
    leaves the notifier, the observer that raised it is erased and the
    others are still notified; any other exception leaves the notifier
    after a warning has been logged. *)
Lemma forwardLoop_outcome
    (sid : ServiceID) (oldStatus newStatus : Availability)
    (todo visited : list ServiceStatusObserver) (s : State) :
  serviceStatusObservers_ s = visited ++ todo →
  match forwardLoop sid oldStatus newStatus visited todo s with
  | Ret _ s' =>
      ∃ kept, serviceStatusObservers_ s' = visited ++ kept ∧ sublist kept todo ∧
        length (observerCalls s') = length (observerCalls s) + length todo
  | Throw e s' =>
      e ≠ UnavailableException ∧ ∃ text, last (logged s') = Some (LogWarn, text)
  | Undefined => False
  | Blocked _ => False
  end.
Proof.
  revert visited s. induction todo as [|o rest IH]; intros visited s Hlist; simpl.
  - exists []. split_and!; [done|constructor|lia].
  - unfold callObserver.
    destruct (reaction o (observerCalls s) sid oldStatus newStatus) as [|[|what|]].
    + specialize (IH (visited ++ [o])
                     (set_observerCalls
                        (observerCalls s ++
                           [notification o sid oldStatus newStatus (observersLocked s)])
                        s)).
      unfold notification in IH. simpl in IH.
      destruct (forwardLoop _ _ _ _ _ _) as [a s'|e s'| |s']; try apply IH;
        try by rewrite <- app_assoc.
      destruct IH as (kept & Hk & Hsub & Hlen); [by rewrite <- app_assoc|].
      exists (o :: kept). rewrite <- app_assoc in Hk. split_and!; [done| |].
      * by constructor.
      * rewrite Hlen, length_app. simpl. lia.
    + specialize (IH visited
                     (set_serviceStatusObservers_ (visited ++ rest)
                        (MAF_LOGGER LogWarn "An observer is no longer available"
                           (set_observerCalls
                              (observerCalls s ++
                                 [notification o sid oldStatus newStatus
                                    (observersLocked s)])
                              s)))).
      unfold notification in IH. simpl in IH.
      destruct (forwardLoop _ _ _ _ _ _) as [a s'|e s'| |s']; try by apply IH.
      destruct IH as (kept & Hk & Hsub & Hlen); [done|].
      exists kept. split_and!; [done|by constructor|].
      rewrite Hlen, length_app. simpl. lia.
    + simpl. split; [done|]. eexists. by rewrite last_snoc.
    + simpl. split; [done|]. eexists. by rewrite last_snoc.
Qed.

Lemma forward_drops_gone_observers
    (sid : ServiceID) (oldStatus newStatus : Availability) (s : State) :
  match forwardServiceStatusToObservers sid oldStatus newStatus s with
  | Ret _ s' =>
      sublist (serviceStatusObservers_ s') (serviceStatusObservers_ s) ∧
      length (observerCalls s') =
        length (observerCalls s) + length (serviceStatusObservers_ s)
  | Throw e s' =>
      e ≠ UnavailableException ∧ ∃ text, last (logged s') = Some (LogWarn, text)
  | Undefined => False
  | Blocked _ => False
  end.
Proof.
  unfold forwardServiceStatusToObservers, withObserversLock.
  pose proof (forwardLoop_outcome sid oldStatus newStatus
                (serviceStatusObservers_ (set_observersLocked true s)) []
                (set_observersLocked true s) eq_refl) as H.
  destruct (forwardLoop _ _ _ _ _ _) as [a s'|e s'| |s']; simpl in *; try done.
  destruct H as (kept & -> & Hsub & Hlen). by split.
Qed.

(** ** Register entries *)

Lemma eraseFirst_split {A} (p : A → bool) (before after : list A) (x : A) :
  p x = true → (∀ y, y ∈ before → p y = false) →
  eraseFirst p (before ++ x :: after) = before ++ after.
Proof.
  intros Hx. induction before as [|y before IH]; intros Hb; simpl.
  - by rewrite Hx.
  - rewrite (Hb y) by left. f_equal. apply IH. intros z Hz. apply Hb. by right.
Qed.

Lemma hasRequestID_true (id : RequestID) (e : RegEntry.t) :
  hasRequestID id e = true ↔ RegEntry.requestID e = id.
Proof. unfold hasRequestID. apply bool_decide_eq_true. Qed.

Lemma hasRequestID_false (id : RequestID) (e : RegEntry.t) :
  hasRequestID id e = false ↔ RegEntry.requestID e ≠ id.
Proof. unfold hasRequestID. apply bool_decide_eq_false. Qed.

Lemma entriesMap_set_idMgr_ (w : WhichMap) (v : IDManager.t) (s : State) :
  entriesMap w (set_idMgr_ v s) = entriesMap w s.
Proof. by destruct w. Qed.

Lemma storeRegEntry_eq (w : WhichMap) (propertyID : OpID) (callback : Callback)
    (regID : RegID.t) (s : State) :
  storeRegEntry w propertyID callback regID s =
    let newID := fst (IDManager.allocateNewID (idMgr_ s)) in
    let entries := default [] (entriesMap w s !! propertyID)
                   ++ [{| RegEntry.requestID := newID; RegEntry.callback := callback |}] in
    ((length entries, {| RegID.opID := propertyID; RegID.requestID := newID |}),
     set_entriesMap w (<[propertyID := entries]> (entriesMap w s))
       (set_idMgr_ (newID :: idMgr_ s) s)).
Proof.
  unfold storeRegEntry, RegID.allocateUniqueID, IDManager.allocateNewID. simpl.
  by rewrite entriesMap_set_idMgr_.
Qed.

Lemma removeRegEntry_eq (w : WhichMap) (regID : RegID.t) (s : State)
    (entries : list RegEntry.t) :
  entriesMap w s !! RegID.opID regID = Some entries →
  removeRegEntry w regID s =
    let remaining := eraseFirst (hasRequestID (RegID.requestID regID)) entries in
    (length remaining,
     set_entriesMap w
       (if decide (remaining = [])
        then delete (RegID.opID regID) (entriesMap w s)
        else <[RegID.opID regID := remaining]> (entriesMap w s))
       (set_idMgr_ (RegID.reclaimID regID (idMgr_ s)) s)).
Proof.
  intros Hl. unfold removeRegEntry. rewrite Hl. simpl.
  rewrite entriesMap_set_idMgr_.
  by destruct (eraseFirst (hasRequestID (RegID.requestID regID)) entries).
Qed.

(** C5: [unregister] of a valid [RegID] while the service is [Available],
    the entry of that [RegID] being in the registrations of its [OpID].
    The entry is erased from the list.  If it was the only one, the
    [OpID] leaves the registrations and the property cache and exactly one
    envelope, the [Unregister] of that [OpID], is passed to
    [sendMessageToServer]; if others remain, no envelope is sent and the
    cache is as before. *)
Theorem unregister_spec
    (s : State) (regID : RegID.t) (before after : list RegEntry.t)
    (entry : RegEntry.t) :
  serviceStatus_ s = Available →
  RegID.valid regID = true →
  registerEntriesMap_ s !! RegID.opID regID = Some (before ++ entry :: after) →
  RegEntry.requestID entry = RegID.requestID regID →
  (∀ e, e ∈ before → RegEntry.requestID e ≠ RegID.requestID regID) →
  ∃ s', unregister regID s = (Success, s') ∧
    if decide (before ++ after = []) then
      registerEntriesMap_ s' = delete (RegID.opID regID) (registerEntriesMap_ s) ∧
      propertiesCache_ s' = delete (RegID.opID regID) (propertiesCache_ s) ∧
      ∃ status,
        sentToServer s' =
          sentToServer s ++
            [(envelope (serviceID s) (RegID.opID regID) OpUnregister
                RequestIDInvalid None, status)]
    else
      registerEntriesMap_ s' =
        <[RegID.opID regID := before ++ after]> (registerEntriesMap_ s) ∧
      propertiesCache_ s' = propertiesCache_ s ∧
      sentToServer s' = sentToServer s.
Proof.
  intros Hav Hvalid Hreg Hentry Hbefore.
  unfold unregister. rewrite serviceUnavailable_false, Hvalid by done.
  rewrite (removeRegEntry_eq RegisterEntries regID s _ Hreg). simpl.
  rewrite eraseFirst_split; [|by apply hasRequestID_true|];
    [|by intros e He; apply hasRequestID_false, Hbefore].
  destruct (decide (before ++ after = [])) as [Hnil|Hnil].
  - rewrite Hnil. simpl. eexists. split; [reflexivity|]. simpl.
    split_and!; [done..|]. by eexists.
  - destruct (decide (length (before ++ after) = 0)) as [Hlen|Hlen].
    { by apply length_zero_iff_nil in Hlen. }
    eexists. split; [reflexivity|]. by simpl.
Qed.

Lemma unregister_spec_witness :
  let regID := {| RegID.opID := "x"; RegID.requestID := 1%N |} in
  let first := {| RegEntry.requestID := 1%N; RegEntry.callback := CbUser 1 |} in
  let second := {| RegEntry.requestID := 2%N; RegEntry.callback := CbUser 2 |} in
  (propertiesCache_ informed !! "x" = Some (Some [x01; x02]) ∧
   ∃ s', unregister regID informed = (Success, s') ∧
     registerEntriesMap_ s' = delete "x" (registerEntriesMap_ informed) ∧
     propertiesCache_ s' = delete "x" (propertiesCache_ informed) ∧
     ∃ status,
       sentToServer s' =
         sentToServer informed ++
           [(envelope "svc" "x" OpUnregister RequestIDInvalid None, status)]) ∧
  (∃ s', unregister regID subscribedTwice = (Success, s') ∧
     registerEntriesMap_ s' = <["x" := [second]]> (registerEntriesMap_ subscribedTwice) ∧
     propertiesCache_ s' = propertiesCache_ subscribedTwice ∧
     sentToServer s' = sentToServer subscribedTwice).
Proof.
  intros regID first second. split; [split; [by vm_compute|]|].
  - apply (unregister_spec informed regID [] [] first);
      [by vm_compute..|]. intros e He. by apply elem_of_nil in He.
  - apply (unregister_spec subscribedTwice regID [] [second] first);
      [by vm_compute..|]. intros e He. by apply elem_of_nil in He.
Defined.

(** ** Registering for a status or a signal *)

Lemma sendMessageToServer_eq (msg : CSMessage.t) (s : State) :
  sendMessageToServer msg s =
    (clientStatus s msg,
     set_sentToServer (sentToServer s ++ [(msg, clientStatus s msg)]) s).
Proof. reflexivity. Qed.

Lemma createCSMessage_eq (opID : OpID) (opCode : OpCode) (c : CSPayloadIFPtr) (s : State) :
  createCSMessage opID opCode c s = envelope (sid_ s) opID opCode RequestIDInvalid c.
Proof. reflexivity. Qed.

Lemma setRequestID_envelope sid opID opCode id0 id c :
  CSMessage.setRequestID id (envelope sid opID opCode id0 c) = envelope sid opID opCode id c.
Proof. reflexivity. Qed.

Lemma clientStatus_ext (s s' : State) (msg : CSMessage.t) :
  client_ s' = client_ s → sentToServer s' = sentToServer s →
  clientStatus s' msg = clientStatus s msg.
Proof. unfold clientStatus. by intros -> ->. Qed.

Ltac rsimpl :=
  cbn [bind lift ret modify throw fst snd stateAfter default from_option Datatypes.id
       client_ sid_ serviceStatus_ requestEntriesMap_ registerEntriesMap_
       propertiesCache_ syncRequestPromises_ serviceStatusObservers_ idMgr_
       observersLocked promiseValues promisesMade sentToServer callbackCalls
       observerCalls logged
       set_serviceStatus_ set_requestEntriesMap_ set_registerEntriesMap_
       set_propertiesCache_ set_syncRequestPromises_ set_serviceStatusObservers_
       set_idMgr_ set_observersLocked set_promiseValues set_promisesMade
       set_sentToServer set_callbackCalls set_observerCalls set_logged
       entriesMap set_entriesMap MAF_LOGGER serviceID serviceStatus
       RegID.opID RegID.requestID RegEntry.requestID RegEntry.callback
       clientStatus] in *.

Lemma registerNotification_first
    (s : State) (opID : OpID) (opCode : OpCode) (id : nat)
    (callStatus : option ActionCallStatus) :
  default [] (registerEntriesMap_ s !! opID) = [] →
  let newID := fst (IDManager.allocateNewID (idMgr_ s)) in
  let msg := envelope (serviceID s) opID opCode newID None in
  let status := clientStatus s msg in
  ∃ regID s',
    registerNotification opID opCode (CbUser id) callStatus s
      = Ret (regID, assign_ptr callStatus status) s' ∧
    sentToServer s' = sentToServer s ++ [(msg, status)] ∧
    callbackCalls s' = callbackCalls s ∧
    (status = Success →
       regID = {| RegID.opID := opID; RegID.requestID := newID |} ∧
       registerEntriesMap_ s' !! opID =
         Some [{| RegEntry.requestID := newID; RegEntry.callback := CbUser id |}]).
Proof.
  intros Hnone newID msg status. subst msg status.
  unfold registerNotification. unfold bind at 1. unfold lift at 1.
  rewrite storeRegEntry_eq. fold newID. rsimpl. rewrite Hnone.
  cbn [app length]. rewrite decide_True by done.
  unfold bind at 1. rewrite createCSMessage_eq, setRequestID_envelope. rsimpl.
  unfold bind at 1. unfold lift at 1. rewrite sendMessageToServer_eq. rsimpl.
  rewrite (clientStatus_ext s) by done.
  destruct (decide (_ ≠ Success)) as [Hst|Hst].
  - unfold bind, lift. rsimpl.
    erewrite removeRegEntry_eq by (rsimpl; apply lookup_insert_eq).
    rsimpl. eexists _, _. split; [reflexivity|]. by rsimpl.
  - eexists _, _. split; [reflexivity|]. rsimpl. split_and!; [done..|].
    intros _. split; [done|]. apply lookup_insert_eq.
Qed.

Lemma registerNotification_again
    (s : State) (opID : OpID) (opCode : OpCode) (id : nat)
    (callStatus : option ActionCallStatus) (e : RegEntry.t) (l : list RegEntry.t) :
  registerEntriesMap_ s !! opID = Some (e :: l) →
  let newID := fst (IDManager.allocateNewID (idMgr_ s)) in
  let regID := {| RegID.opID := opID; RegID.requestID := newID |} in
  let s' := set_registerEntriesMap_
              (<[opID := (e :: l) ++ [{| RegEntry.requestID := newID;
                                         RegEntry.callback := CbUser id |}]]>
                 (registerEntriesMap_ s))
              (set_idMgr_ (newID :: idMgr_ s) s) in
  (opCode ≠ OpStatusRegister →
     registerNotification opID opCode (CbUser id) callStatus s
       = Ret (regID, callStatus) s') ∧
  (opCode = OpStatusRegister → propertiesCache_ s !! opID = None →
     registerNotification opID opCode (CbUser id) callStatus s
       = Ret (regID, assign_ptr callStatus Success) s') ∧
  (∀ p, opCode = OpStatusRegister → propertiesCache_ s !! opID = Some (Some p) →
     registerNotification opID opCode (CbUser id) callStatus s
       = Ret (regID, assign_ptr callStatus Success)
             (set_callbackCalls (callbackCalls s ++ [(id, Some p)]) s')).
Proof.
  intros Hsome newID regID s'. subst regID s'.
  assert (Hstart : ∀ k : nat * RegID.t → M (RegID.t * option ActionCallStatus),
    bind (lift (storeRegEntry RegisterEntries opID (CbUser id) RegID.empty)) k s
    = k (length ((e :: l) ++ [{| RegEntry.requestID := newID;
                                  RegEntry.callback := CbUser id |}]),
         {| RegID.opID := opID; RegID.requestID := newID |})
        (set_registerEntriesMap_
           (<[opID := (e :: l) ++ [{| RegEntry.requestID := newID;
                                      RegEntry.callback := CbUser id |}]]>
              (registerEntriesMap_ s))
           (set_idMgr_ (newID :: idMgr_ s) s))).
  { intros k. unfold bind, lift. rewrite storeRegEntry_eq. fold newID. rsimpl.
    by rewrite Hsome. }
  unfold registerNotification. rewrite Hstart.
  destruct (decide (length _ = 1)) as [Hlen|_].
  { rewrite length_app in Hlen. simpl in Hlen. lia. }
  destruct (decide (opCode = OpStatusRegister)) as [Hop|Hop]; split_and!; try done.
  - intros _ Hc. unfold bind, getCachedProperty. rsimpl. by rewrite Hc.
  - intros p _ Hc. unfold bind, getCachedProperty. rsimpl. by rewrite Hc.
Qed.

(** C10: registering for a status or a signal while the service is
    [Available], with a callback of the user.  When the [OpID] has no
    registration yet, exactly one envelope is passed to
    [sendMessageToServer]: the register envelope of that [OpID], carrying the
    request identifier allocated for this registration.  When it has one
    already, no envelope is sent; [registerSignal] then calls nothing, and
    [registerStatus] stores [Success] through [callStatus] and calls the new
    callback once with the cached value of the property when there is one,
    and not at all when there is none. *)
Theorem registration_sends_register_once
    (s : State) (propertyID : OpID) (id : nat)
    (callStatus : option ActionCallStatus) :
  serviceStatus_ s = Available →
  let newID := fst (IDManager.allocateNewID (idMgr_ s)) in
  let registerEnvelope opCode := envelope (serviceID s) propertyID opCode newID None in
  let unchanged s' :=
    sentToServer s' = sentToServer s ∧ callbackCalls s' = callbackCalls s in
  (default [] (registerEntriesMap_ s !! propertyID) = [] →
     (∃ regID status s',
        registerStatus propertyID (CbUser id) callStatus s
          = Ret (regID, assign_ptr callStatus status) s' ∧
        sentToServer s' =
          sentToServer s ++ [(registerEnvelope OpStatusRegister, status)] ∧
        callbackCalls s' = callbackCalls s ∧
        (status = Success → RegID.requestID regID = newID)) ∧
     (∃ regID status s',
        registerSignal propertyID (CbUser id) callStatus s
          = Ret (regID, assign_ptr callStatus status) s' ∧
        sentToServer s' =
          sentToServer s ++ [(registerEnvelope OpSignalRegister, status)] ∧
        callbackCalls s' = callbackCalls s ∧
        (status = Success → RegID.requestID regID = newID))) ∧
  (default [] (registerEntriesMap_ s !! propertyID) ≠ [] →
     (∃ regID s',
        registerSignal propertyID (CbUser id) callStatus s
          = Ret (regID, callStatus) s' ∧ unchanged s') ∧
     (propertiesCache_ s !! propertyID = None →
        ∃ regID s',
          registerStatus propertyID (CbUser id) callStatus s
            = Ret (regID, assign_ptr callStatus Success) s' ∧ unchanged s') ∧
     (∀ p, propertiesCache_ s !! propertyID = Some (Some p) →
        ∃ regID s',
          registerStatus propertyID (CbUser id) callStatus s
            = Ret (regID, assign_ptr callStatus Success) s' ∧
          sentToServer s' = sentToServer s ∧
          callbackCalls s' = callbackCalls s ++ [(id, Some p)])).
Proof.
  intros Hav newID registerEnvelope unchanged.
  unfold registerStatus, registerSignal.
  rewrite serviceUnavailable_false by done. split.
  - intros Hnone. split.
    + destruct (registerNotification_first s propertyID OpStatusRegister id
                  callStatus Hnone) as (regID & s' & Heq & Hsent & Hcalls & Hok).
      eexists regID, _, s'. split_and!; [done..|].
      intros Hst. by destruct (Hok Hst) as [-> _].
    + destruct (registerNotification_first s propertyID OpSignalRegister id
                  callStatus Hnone) as (regID & s' & Heq & Hsent & Hcalls & Hok).
      eexists regID, _, s'. split_and!; [done..|].
      intros Hst. by destruct (Hok Hst) as [-> _].
  - intros Hsome.
    destruct (registerEntriesMap_ s !! propertyID) as [[|e l]|] eqn:Hreg;
      try done.
    destruct (registerNotification_again s propertyID OpSignalRegister id
                callStatus e l Hreg) as (Hsignal & _ & _).
    destruct (registerNotification_again s propertyID OpStatusRegister id
                callStatus e l Hreg) as (_ & Hnocache & Hcache).
    cbv zeta in *. split_and!.
    + eexists _, _. split; [by apply Hsignal|by split].
    + intros Hc. eexists _, _. split; [by apply Hnocache|by split].
    + intros p Hc. eexists _, _. split; [by apply Hcache|by split].
Qed.

Lemma registration_sends_register_once_witness :
  let update := [x01; x02] in
  (∃ regID status s',
      registerStatus "x" (CbUser 1) (Some FailedUnknown) connected
        = Ret (regID, Some status) s' ∧
      sentToServer s' =
        sentToServer connected ++ [(envelope "svc" "x" OpStatusRegister 1%N None, status)] ∧
      callbackCalls s' = callbackCalls connected) ∧
  (∃ regID s',
      registerStatus "x" (CbUser 2) (Some FailedUnknown) informed
        = Ret (regID, Some Success) s' ∧
      sentToServer s' = sentToServer informed ∧
      callbackCalls s' = callbackCalls informed ++ [(2, Some update)]).
Proof.
  intros update. split.
  - destruct (registration_sends_register_once connected "x" 1 (Some FailedUnknown))
      as [Hfirst _]; [by vm_compute|].
    destruct Hfirst as [(regID & status & s' & Heq & Hsent & Hcalls & _) _];
      [by vm_compute|].
    exists regID, status, s'. by split_and!.
  - destruct (registration_sends_register_once informed "x" 2 (Some FailedUnknown))
      as [_ Hagain]; [by vm_compute|].
    destruct Hagain as (_ & _ & Hcached); [by vm_compute|].
    destruct (Hcached update) as (regID & s' & Heq & Hsent & Hcalls); [by vm_compute|].
    exists regID, s'. by split_and!.
Defined.

(** ** Calls and what they keep *)

Lemma wp_bind {A B} (m : M A) (k : A → M B) (Q : B → State → Prop)
    (E : State → Prop) (s : State) :
  wp (m s) (λ a s', wp (k a s') Q E) E → wp (bind m k s) Q E.
Proof. unfold bind. by destruct (m s). Qed.

Lemma wp_mono {A} (r : Res A) (Q Q' : A → State → Prop) (E E' : State → Prop) :
  wp r Q E → (∀ a s, Q a s → Q' a s) → (∀ s, E s → E' s) → wp r Q' E'.
Proof. destruct r; simpl; eauto. Qed.

Lemma wp_stateAfter {A} (r : Res A) (P : State → Prop) :
  wp r (λ _, P) P ↔ ∀ s', stateAfter r = Some s' → P s'.
Proof.
  destruct r; simpl; split; try done; try (by intros H s' [= <-]); eauto.
Qed.

Section Keeps.
Context (R : State → State → Prop) `{!Reflexive R} `{!Transitive R}.

Lemma keeps_ret {A} (a : A) : keeps R (ret a).
Proof. intros s. simpl. reflexivity. Qed.

Lemma keeps_throw {A} (e : Exn) : keeps R (throw (A:=A) e).
Proof. intros s. simpl. reflexivity. Qed.

Lemma keeps_modify (f : State → State) : (∀ s, R s (f s)) → keeps R (modify f).
Proof. intros H s. apply H. Qed.

Lemma keeps_lift {A} (f : State → A * State) :
  (∀ s, R s (snd (f s))) → keeps R (lift f).
Proof. intros H s. unfold lift. specialize (H s). by destruct (f s). Qed.

Lemma keeps_bind {A B} (m : M A) (k : A → M B) :
  keeps R m → (∀ a, keeps R (k a)) → keeps R (bind m k).
Proof.
  intros Hm Hk s. apply wp_bind. eapply wp_mono; [apply Hm| |done].
  intros a s' Hs'. simpl. eapply wp_mono; [apply Hk| |].
  - intros b s'' Hs''. by trans s'.
  - intros s'' Hs''. by trans s'.
Qed.

Lemma keeps_after {A} (m : M A) (s s1 : State) :
  R s s1 → keeps R m → wp (m s1) (λ _ s', R s s') (R s).
Proof.
  intros Hs Hm. eapply wp_mono; [apply Hm|..]; simpl; intros; by trans s1.
Qed.

End Keeps.

Lemma keeps_weaken {A} (R R' : State → State → Prop) (m : M A) :
  (∀ s s', R s s' → R' s s') → keeps R m → keeps R' m.
Proof. intros HR Hm s. eapply wp_mono; [apply Hm|..]; eauto. Qed.

#[global] Instance within_refl fp : Reflexive (within fp).
Proof. intros s. unfold within. by repeat split. Qed.

#[global] Instance within_trans fp : Transitive (within fp).
Proof.
  unfold within. intros s1 s2 s3 H1 H2.
  destruct H1 as (?&?&?&?&?&?&?&?&?), H2 as (?&?&?&?&?&?&?&?&?).
  repeat split; intros Hf;
    repeat match goal with
           | H : touched fp _ = false → _ |- _ =>
               first [specialize (H Hf) | clear H]
           end; congruence.
Qed.

Lemma touched_mono (fp fp' : list Field) (f : Field) :
  forallb (touched fp') fp = true → touched fp' f = false → touched fp f = false.
Proof.
  intros Hall Hf. apply not_true_iff_false. intros Ht.
  unfold touched in Ht at 1. apply existsb_exists in Ht as (g & Hin & Hg).
  apply bool_decide_eq_true in Hg as ->.
  rewrite forallb_forall in Hall. by rewrite (Hall f Hin) in Hf.
Qed.

Lemma within_mono (fp fp' : list Field) (s s' : State) :
  forallb (touched fp') fp = true → within fp s s' → within fp' s s'.
Proof.
  intros Hall (?&?&?&?&?&?&?&?&?).
  repeat split; intros Hf; eauto using touched_mono.
Qed.

(** A step that changes the state in the listed parts at most. *)
Ltac within_now :=
  unfold within; repeat split; intros Hf;
  first [ discriminate Hf | reflexivity | by rsimpl ].

Lemma set_value_within p v : keeps (within [FValues]) (set_value p v).
Proof.
  intros s. unfold set_value. destruct (promiseValues s !! p); simpl; within_now.
Qed.

Lemma keeps_within_weaken {A} (fp fp' : list Field) (m : M A) :
  forallb (touched fp') fp = true → keeps (within fp) m → keeps (within fp') m.
Proof. intros H. apply keeps_weaken. intros s s'. by apply within_mono. Qed.

Lemma within_weaken_now (fp fp' : list Field) (s s' : State) :
  within fp s s' → forallb (touched fp') fp = true → within fp' s s'.
Proof. intros H1 H2. by eapply within_mono. Qed.

Create HintDb within discriminated.
#[export] Hint Constants Opaque : within.
#[export] Hint Variables Opaque : within.

(** One structural step on a goal [keeps (within fp) m] or on its [wp]
    form. *)
Ltac kstep :=
  lazymatch goal with
  | |- keeps _ (bind _ _) => apply keeps_bind; try (exact _); [ | intros ? ]
  | |- keeps _ (ret _) => apply keeps_ret; exact _
  | |- keeps _ (throw _) => apply keeps_throw; exact _
  | |- keeps _ (modify _) => apply keeps_modify; intros ?; within_now
  | |- keeps _ (let '(_, _) := ?x in _) => destruct x
  | |- keeps _ (if ?c then _ else _) => destruct c; try done
  | |- keeps _ (match ?x with _ => _ end) => destruct x
  | |- keeps (within _) _ =>
      first [ eapply keeps_within_weaken; [|solve [eauto with within nocore]];
              reflexivity
            | let s := fresh "s" in intros s ]
  | |- wp (Ret _ ?s) _ _ => simpl; first [reflexivity | within_now]
  | |- wp (Throw _ ?s) _ _ => simpl; first [reflexivity | within_now]
  | |- wp Undefined _ _ => exact I
  | |- wp (if ?c then _ else _) _ _ => destruct c
  | |- wp (match ?x with _ => _ end) _ _ => destruct x eqn:?
  | |- wp (?m ?s) (λ _ s', ?R ?s s') (?R ?s) =>
      let Hk := fresh in cut (keeps R m); [intros Hk; exact (Hk s)|]
  end.

Ltac ksolve := repeat kstep.

#[export] Hint Resolve set_value_within : within.

Lemma invoke_within cb arg :
  keeps (within [FCalls; FPromises; FValues]) (invoke cb arg).
Proof. unfold invoke, removeRequestPromies. ksolve. Qed.
#[export] Hint Resolve invoke_within : within.

Lemma callEach_within cbs payload :
  keeps (within [FCalls; FPromises; FValues]) (callEach cbs payload).
Proof. induction cbs as [|cb cbs IH]; simpl; ksolve. Qed.
#[export] Hint Resolve callEach_within : within.

Lemma setEach_within ps v : keeps (within [FValues]) (setEach ps v).
Proof. induction ps as [|p ps IH]; simpl; ksolve. Qed.
#[export] Hint Resolve setEach_within : within.

Lemma abortAllSyncRequest_within :
  keeps (within [FPromises; FValues]) abortAllSyncRequest.
Proof. unfold abortAllSyncRequest. ksolve. Qed.
#[export] Hint Resolve abortAllSyncRequest_within : within.

(** The plain helpers. *)
Ltac brute :=
  repeat first [ progress rsimpl | case_match | case_decide ];
  simplify_eq; rsimpl; try within_now.

Lemma sendMessageToServer_within msg s :
  within [FSent] s (snd (sendMessageToServer msg s)).
Proof. rewrite sendMessageToServer_eq. within_now. Qed.

Lemma storeRegEntry_within_requests propertyID callback regID s :
  within [FRequests] s (snd (storeRegEntry RequestEntries propertyID callback regID s)).
Proof. rewrite storeRegEntry_eq. within_now. Qed.

Lemma storeRegEntry_within_registrations propertyID callback regID s :
  within [FRegistrations] s
    (snd (storeRegEntry RegisterEntries propertyID callback regID s)).
Proof. rewrite storeRegEntry_eq. within_now. Qed.

Lemma removeRegEntry_within_requests regID s :
  within [FRequests] s (snd (removeRegEntry RequestEntries regID s)).
Proof. unfold removeRegEntry. brute. Qed.

Lemma removeRegEntry_within_registrations regID s :
  within [FRegistrations] s (snd (removeRegEntry RegisterEntries regID s)).
Proof. unfold removeRegEntry. brute. Qed.

Lemma sendMessageAsync_within operationID operationCode msgContent callback callStatus s :
  within [FRequests; FSent] s
    (snd (sendMessageAsync operationID operationCode msgContent callback callStatus s)).
Proof.
  unfold sendMessageAsync, storeAndSendRequestToServer.
  rewrite storeRegEntry_eq. rsimpl. rewrite sendMessageToServer_eq.
  unfold removeRegEntry. brute.
Qed.

Lemma sendRequestAsync_within opID msgContent callback callStatus s :
  within [FRequests; FSent] s
    (snd (sendRequestAsync opID msgContent callback callStatus s)).
Proof.
  unfold sendRequestAsync. destruct (serviceUnavailable s).
  - within_now.
  - apply sendMessageAsync_within.
Qed.

Lemma abortRequest_within regID callStatus s :
  within [FRequests; FSent] s (snd (abortRequest regID callStatus s)).
Proof. unfold abortRequest, sendMessageToServer. brute. Qed.

Lemma unregister_within regID s :
  within [FRegistrations; FCache; FSent] s (snd (unregister regID s)).
Proof.
  unfold unregister, removeRegEntry, removeCachedProperty, sendMessageToServer.
  brute.
Qed.

Lemma unregisterAll_within propertyID s :
  within [FRegistrations; FCache; FSent] s (snd (unregisterAll propertyID s)).
Proof. unfold unregisterAll, removeCachedProperty, sendMessageToServer. brute. Qed.

Lemma unregisterServiceStatusObserver_within observer s :
  within [] s (unregisterServiceStatusObserver observer s).
Proof. unfold unregisterServiceStatusObserver. within_now. Qed.

#[export] Hint Resolve keeps_lift : within.

Lemma getCachedProperty_within propertyID :
  keeps (within []) (getCachedProperty propertyID).
Proof. intros s. unfold getCachedProperty. repeat case_match; simpl; within_now. Qed.
#[export] Hint Resolve getCachedProperty_within : within.

Lemma callObserver_within o sid oldStatus newStatus :
  keeps (within []) (callObserver o sid oldStatus newStatus).
Proof. intros s. unfold callObserver. repeat case_match; simpl; within_now. Qed.
#[export] Hint Resolve callObserver_within : within.

Lemma withObserversLock_within {A} fp (m : M A) :
  keeps (within fp) m → keeps (within fp) (withObserversLock m).
Proof.
  intros Hm s. unfold withObserversLock.
  specialize (Hm (set_observersLocked true s)).
  destruct (m (set_observersLocked true s)); simpl in *; try done.
  all: destruct Hm as (?&?&?&?&?&?&?&?&?); repeat split; intros Hf; rsimpl; eauto.
Qed.

Lemma registerServiceStatusObserver_within observer :
  keeps (within []) (registerServiceStatusObserver observer).
Proof.
  unfold registerServiceStatusObserver. destruct observer as [o|]; [|ksolve].
  apply keeps_bind; try exact _.
  - apply withObserversLock_within. intros s. simpl. within_now.
  - intros st. ksolve.
Qed.

Lemma forwardLoop_within sid oldStatus newStatus todo visited :
  keeps (within []) (forwardLoop sid oldStatus newStatus visited todo).
Proof.
  revert visited. induction todo as [|o rest IH]; intros visited; simpl; [ksolve|].
  intros s. pose proof (callObserver_within o sid oldStatus newStatus s) as Hcall.
  destruct (callObserver o sid oldStatus newStatus s) as [a s1|e s1| |s1];
    simpl in Hcall; try done.
  - eapply wp_mono; [apply (IH (visited ++ [o]) s1)|..];
      simpl; intros; by trans s1.
  - destruct e; simpl.
    + eapply wp_mono; [apply (IH visited)|..]; simpl; intros;
        (trans s1; [done|]); (etrans; [|done]); within_now.
    + trans s1; [done|within_now].
    + trans s1; [done|within_now].
Qed.

Lemma forwardServiceStatusToObservers_within sid oldStatus newStatus :
  keeps (within []) (forwardServiceStatusToObservers sid oldStatus newStatus).
Proof.
  unfold forwardServiceStatusToObservers. apply withObserversLock_within.
  intros s. apply forwardLoop_within.
Qed.
#[export] Hint Resolve forwardServiceStatusToObservers_within : within.

Lemma onServiceStatusChanged_within sid oldStatus newStatus :
  keeps (within [FStatus; FPromises; FValues; FRequests; FRegistrations])
        (onServiceStatusChanged sid oldStatus newStatus).
Proof. unfold onServiceStatusChanged. ksolve. Qed.

Lemma onServiceStatusChanged_within_kept sid oldStatus newStatus :
  newStatus ≠ Unavailable →
  keeps (within [FStatus]) (onServiceStatusChanged sid oldStatus newStatus).
Proof. intros Hnew. unfold onServiceStatusChanged. ksolve. Qed.

Lemma onRegistersUpdated_within msg :
  keeps (within [FCalls; FPromises; FValues]) (onRegistersUpdated msg).
Proof. unfold onRegistersUpdated. ksolve. Qed.
#[export] Hint Resolve onRegistersUpdated_within : within.

Lemma onRequestResult_within msg :
  keeps (within [FRequests; FCalls; FPromises; FValues]) (onRequestResult msg).
Proof.
  intros s. unfold onRequestResult.
  destruct (requestEntriesMap_ s !! CSMessage.operationID msg) as [regEntries|];
    [destruct (findFirst _ regEntries) as [entry|]|].
  - destruct (RegEntry.callback entry) eqn:Hcb; [simpl; within_now|..].
    all: apply keeps_after; try exact _; [within_now|].
    all: eapply keeps_within_weaken; [|apply invoke_within]; reflexivity.
  - simpl. within_now.
  - simpl. within_now.
Qed.
#[export] Hint Resolve onRequestResult_within : within.

Lemma onIncomingMessage_within csMsg :
  keeps (within [FCache; FRequests; FCalls; FPromises; FValues])
        (onIncomingMessage csMsg).
Proof. unfold onIncomingMessage, cachePropertyStatus. ksolve. Qed.

#[export] Hint Resolve sendMessageToServer_within storeRegEntry_within_requests
  storeRegEntry_within_registrations removeRegEntry_within_requests
  removeRegEntry_within_registrations : within.

Lemma registerNotification_within opID opCode callback callStatus :
  keeps (within [FRegistrations; FSent; FCalls; FPromises; FValues])
        (registerNotification opID opCode callback callStatus).
Proof. unfold registerNotification. ksolve. Qed.

Lemma registerStatus_within propertyID callback callStatus :
  keeps (within [FRegistrations; FSent; FCalls; FPromises; FValues])
        (registerStatus propertyID callback callStatus).
Proof.
  intros s. unfold registerStatus. destruct (serviceUnavailable s).
  - simpl. within_now.
  - apply registerNotification_within.
Qed.

Lemma registerSignal_within eventID callback callStatus :
  keeps (within [FRegistrations; FSent; FCalls; FPromises; FValues])
        (registerSignal eventID callback callStatus).
Proof.
  intros s. unfold registerSignal. destruct (serviceUnavailable s).
  - simpl. within_now.
  - apply registerNotification_within.
Qed.

Lemma deliver_within ev :
  keeps (within [FStatus; FRequests; FRegistrations; FCache; FPromises;
                 FValues; FCalls])
        (deliver ev).
Proof.
  intros s. unfold deliver. destruct ev as [csMsg|sid oldStatus newStatus].
  - pose proof (onIncomingMessage_within csMsg s) as H.
    unfold bind. destruct (onIncomingMessage csMsg s); simpl in *; try done.
    all: eapply within_weaken_now; [eassumption|reflexivity].
  - pose proof (onServiceStatusChanged_within sid oldStatus newStatus s) as H.
    destruct (onServiceStatusChanged sid oldStatus newStatus s); simpl in *;
      try done.
    all: eapply within_weaken_now; [eassumption|reflexivity].
Qed.
#[export] Hint Resolve deliver_within : within.

Lemma deliverAll_within evs :
  keeps (within [FStatus; FRequests; FRegistrations; FCache; FPromises;
                 FValues; FCalls])
        (deliverAll evs).
Proof. induction evs as [|ev evs IH]; simpl; ksolve. Qed.

(** ** The envelopes of a request *)

Lemma sendMessageAsync_sent operationID operationCode msgContent callback callStatus s :
  let newID := fst (IDManager.allocateNewID (idMgr_ s)) in
  let msg := envelope (serviceID s) operationID operationCode newID msgContent in
  sentToServer
    (snd (sendMessageAsync operationID operationCode msgContent callback callStatus s))
  = sentToServer s ++ [(msg, clientStatus s msg)].
Proof.
  unfold sendMessageAsync, storeAndSendRequestToServer.
  rewrite storeRegEntry_eq. rsimpl.
  rewrite createCSMessage_eq, setRequestID_envelope, sendMessageToServer_eq.
  rewrite (clientStatus_ext s) by done.
  destruct (decide (_ ≠ Success)); rsimpl; [|done].
  unfold removeRegEntry. repeat case_match; by rsimpl.
Qed.

Lemma abortRequest_sent regID callStatus s :
  ∃ rest, sentToServer (snd (abortRequest regID callStatus s)) = sentToServer s ++ rest.
Proof.
  unfold abortRequest, sendMessageToServer.
  repeat first [progress rsimpl | case_match | case_decide]; simplify_eq; rsimpl;
    first [by exists []; rewrite app_nil_r | by eexists].
Qed.

Lemma sendMessageSync_sends_first
    operationID opCode msgContent callStatus timeout meanwhile s s' :
  stateAfter
    (sendMessageSync operationID opCode msgContent callStatus timeout meanwhile s)
    = Some s' →
  ∃ status rest,
    sentToServer s' =
      sentToServer s ++
        (envelope (serviceID s) operationID opCode
           (fst (IDManager.allocateNewID (idMgr_ s))) msgContent, status) :: rest.
Proof.
  unfold sendMessageSync.
  pose proof (sendMessageAsync_sent operationID opCode msgContent
                (CbSync (promisesMade s)) callStatus
                (set_syncRequestPromises_
                   (syncRequestPromises_ (set_promisesMade (S (promisesMade s)) s)
                    ++ [promisesMade s])
                   (set_promisesMade (S (promisesMade s)) s))) as Hsent.
  destruct (sendMessageAsync _ _ _ _ _ _) as [[regID callStatus1] s3].
  rsimpl. cbv zeta in Hsent. rsimpl.
  destruct (RegID.valid regID).
  - unfold bind.
    pose proof (deliverAll_within meanwhile s3) as Hd.
    destruct (deliverAll meanwhile s3) as [[] s4|e s4| |s4]; simpl in Hd.
    + destruct Hd as (_&_&_&_&_&_&_&Hd&_). specialize (Hd eq_refl).
      destruct (promiseValues s4 !! promisesMade s) as [msg|].
      * intros Hs'. assert (s' = s4) as ->.
        { repeat case_match; simpl in Hs'; by simplify_eq. }
        rewrite Hd, Hsent. by eexists _, [].
      * destruct (decide (timeout = RequestTimeoutMs_max)).
        { intros [= <-]. rewrite Hd, Hsent. by eexists _, []. }
        destruct (abortRequest_sent regID None
                    (MAF_LOGGER LogWarn "Request has expired" s4)) as [rest Hrest].
        destruct (abortRequest _ _ _) as [st s6]. simpl in *.
        intros [= <-]. rewrite Hrest, Hd, Hsent, <- app_assoc. by eexists _, _.
    + destruct Hd as (_&_&_&_&_&_&_&Hd&_). specialize (Hd eq_refl).
      intros [= <-]. rewrite Hd, Hsent. by eexists _, [].
    + done.
    + destruct Hd as (_&_&_&_&_&_&_&Hd&_). specialize (Hd eq_refl).
      intros [= <-]. rewrite Hd, Hsent. by eexists _, [].
  - intros [= <-]. unfold removeRequestPromies. rsimpl.
    rewrite Hsent. by eexists _, [].
Qed.

(** ** Cached properties and registrations *)

Lemma registrationsKept_within fp s s' :
  touched fp FRegistrations = false → touched fp FCache = false →
  within fp s s' → registrationsKept s → registrationsKept s'.
Proof.
  intros Hr Hc (_&_&Hregs&Hcache&_) HK. specialize (Hregs Hr). specialize (Hcache Hc).
  unfold registrationsKept in *. by rewrite Hregs, Hcache.
Qed.

Lemma registrationsKept_store propertyID callback regID s :
  registrationsKept s →
  registrationsKept (snd (storeRegEntry RegisterEntries propertyID callback regID s)).
Proof.
  intros [Hne Hsub]. rewrite storeRegEntry_eq. rsimpl. split; rsimpl.
  - intros opID entries. destruct (decide (propertyID = opID)) as [->|Hop].
    + rewrite lookup_insert_eq. intros [= <-]. by destruct (default [] _).
    + rewrite lookup_insert_ne by done. apply Hne.
  - intros opID Hc. destruct (decide (propertyID = opID)) as [->|Hop].
    + by rewrite lookup_insert_eq.
    + rewrite lookup_insert_ne by done. by apply Hsub.
Qed.

Lemma registrationsKept_uncache propertyID s :
  registrationsKept s → registrationsKept (removeCachedProperty propertyID s).
Proof.
  intros [Hne Hsub]. unfold removeCachedProperty. split; rsimpl; [done|].
  intros opID. destruct (decide (propertyID = opID)) as [->|Hop].
  - rewrite lookup_delete_eq. by intros [? ?].
  - rewrite lookup_delete_ne by done. apply Hsub.
Qed.

(** Erasing an entry of [regID]: the registrations stay well formed; a
    cached property can lose its registrations only for the [OpID] of
    [regID], and only when [0] is returned. *)
Lemma removeRegEntry_registrations regID s :
  registrationsKept s →
  let r := removeRegEntry RegisterEntries regID s in
  propertiesCache_ (snd r) = propertiesCache_ s ∧
  (∀ opID entries, registerEntriesMap_ (snd r) !! opID = Some entries → entries ≠ []) ∧
  (∀ opID, opID ≠ RegID.opID regID →
     registerEntriesMap_ (snd r) !! opID = registerEntriesMap_ s !! opID) ∧
  (fst r ≠ 0 → is_Some (registerEntriesMap_ (snd r) !! RegID.opID regID)).
Proof.
  intros [Hne Hsub]. unfold removeRegEntry. rsimpl.
  destruct (registerEntriesMap_ s !! RegID.opID regID) as [entries|] eqn:Hreg;
    [|by rsimpl].
  destruct (eraseFirst _ entries) as [|e l] eqn:Herase; rsimpl.
  - split_and!; [done| | |done].
    + intros opID entries'. destruct (decide (RegID.opID regID = opID)) as [<-|Hop].
      * by rewrite lookup_delete_eq.
      * rewrite lookup_delete_ne by done. apply Hne.
    + intros opID Hop. by rewrite lookup_delete_ne.
  - split_and!; [done| | |].
    + intros opID entries'. destruct (decide (RegID.opID regID = opID)) as [<-|Hop].
      * rewrite lookup_insert_eq. by intros [= <-].
      * rewrite lookup_insert_ne by done. apply Hne.
    + intros opID Hop. by rewrite lookup_insert_ne.
    + intros _. by rewrite lookup_insert_eq.
Qed.

Lemma unregister_registrationsKept regID s :
  registrationsKept s → registrationsKept (snd (unregister regID s)).
Proof.
  intros HK. unfold unregister.
  destruct (serviceUnavailable s); [done|].
  destruct (RegID.valid regID); [|by destruct HK].
  pose proof (removeRegEntry_registrations regID s HK) as (Hcache & Hne & Hother & Hsome).
  destruct (removeRegEntry RegisterEntries regID s) as [totalRemainer s1].
  rsimpl. destruct HK as [_ Hsub].
  assert (Hsub1 : ∀ opID, opID ≠ RegID.opID regID →
            is_Some (propertiesCache_ s1 !! opID) →
            is_Some (registerEntriesMap_ s1 !! opID)).
  { intros opID Hop. rewrite Hcache, Hother by done. apply Hsub. }
  destruct (decide (totalRemainer = 0)) as [Hz|Hz]; rsimpl.
  - rewrite sendMessageToServer_eq. unfold removeCachedProperty. split; rsimpl; [done|].
    intros opID. destruct (decide (RegID.opID regID = opID)) as [<-|Hop].
    + rewrite lookup_delete_eq. by intros [? ?].
    + rewrite lookup_delete_ne by done. by apply Hsub1.
  - split; [done|]. intros opID.
    destruct (decide (opID = RegID.opID regID)) as [->|Hop]; [|by apply Hsub1].
    intros _. by apply Hsome.
Qed.

Lemma unregisterAll_registrationsKept propertyID s :
  registrationsKept s → registrationsKept (snd (unregisterAll propertyID s)).
Proof.
  intros [Hne Hsub]. unfold unregisterAll.
  destruct (serviceUnavailable s); [done|].
  rewrite sendMessageToServer_eq. unfold removeCachedProperty. split; rsimpl.
  - intros opID entries. destruct (decide (propertyID = opID)) as [->|Hop].
    + by rewrite lookup_delete_eq.
    + rewrite lookup_delete_ne by done. apply Hne.
  - intros opID. destruct (decide (propertyID = opID)) as [->|Hop].
    + rewrite lookup_delete_eq. by intros [? ?].
    + rewrite !lookup_delete_ne by done. apply Hsub.
Qed.

Lemma registrationsKept_framed {A} fp (m : M A) s :
  keeps (within fp) m →
  touched fp FRegistrations = false → touched fp FCache = false →
  registrationsKept s → wp (m s) (λ _, registrationsKept) registrationsKept.
Proof.
  intros Hm Hr Hc HK. eapply wp_mono; [apply Hm|..]; simpl; intros;
    by eapply registrationsKept_within.
Qed.

Lemma registerNotification_registrationsKept opID opCode callback callStatus s :
  registrationsKept s →
  wp (registerNotification opID opCode callback callStatus s)
     (λ _, registrationsKept) registrationsKept.
Proof.
  intros HK.
  assert (Hgo : callback ≠ CbNull →
    wp (bind (lift (storeRegEntry RegisterEntries opID callback RegID.empty))
          (λ '(sameRegisterCount, regID),
             if decide (sameRegisterCount = 1) then
               registerMessage ←
                 (λ s, Ret (CSMessage.setRequestID (RegID.requestID regID)
                              (createCSMessage opID opCode None s)) s);
               status ← lift (sendMessageToServer registerMessage);
               if decide (status ≠ Success) then
                 lift (removeRegEntry RegisterEntries regID) ;;
                 ret (RegID.clear regID, assign_ptr callStatus status)
               else ret (regID, assign_ptr callStatus status)
             else if decide (opCode = OpStatusRegister) then
               cachedProperty ← getCachedProperty opID;
               match cachedProperty with
               | Some _ => invoke callback cachedProperty
               | None => ret tt
               end ;;
               ret (regID, assign_ptr callStatus Success)
             else ret (regID, callStatus)) s)
       (λ _, registrationsKept) registrationsKept).
  { intros _. unfold bind at 1. unfold lift at 1.
    pose proof (registrationsKept_store opID callback RegID.empty s HK) as HK1.
    rewrite storeRegEntry_eq in *. rsimpl.
    set (newID := fst (IDManager.allocateNewID (idMgr_ s))) in *.
    set (s1 := set_registerEntriesMap_ _ _) in *.
    destruct (decide (length _ = 1)) as [Hone|_].
    - unfold bind at 1. unfold bind at 1. unfold lift at 1.
      rewrite sendMessageToServer_eq. rsimpl.
      set (status := clientStatus _ _).
      destruct (decide (status ≠ Success)) as [Hst|Hst]; [|by simpl].
      unfold bind, lift. rsimpl.
      set (s2 := set_sentToServer _ s1).
      assert (HK2 : registrationsKept s2) by done.
      pose proof (removeRegEntry_registrations
                    {| RegID.opID := opID; RegID.requestID := newID |} s2 HK2)
        as (Hcache & Hne & Hother & _).
      destruct (removeRegEntry _ _ s2) as [n s3]. simpl in *.
      split; [done|]. intros opID' Hc. rewrite Hcache in Hc.
      destruct (decide (opID' = opID)) as [->|Hop].
      + exfalso. destruct HK as [Hne0 Hsub0]. apply Hsub0 in Hc as [entries Hreg].
        rewrite Hreg in Hone. simpl in Hone. rewrite length_app in Hone.
        simpl in Hone. destruct entries; [by eapply Hne0|simpl in Hone; lia].
      + rewrite Hother by done. subst s2 s1. rsimpl.
        rewrite lookup_insert_ne by done. destruct HK as [_ Hsub0]. by apply Hsub0.
    - destruct (decide (opCode = OpStatusRegister)); [|by simpl].
      apply (registrationsKept_framed [FCalls; FPromises; FValues]); [|done..].
      ksolve. }
  unfold registerNotification. destruct callback; [by simpl|by apply Hgo..].
Qed.

Lemma onRegistersUpdated_updated msg s :
  wp (onRegistersUpdated msg s)
     (λ updated s',
        within [FCalls; FPromises; FValues] s s' ∧
        (updated = true →
         is_Some (registerEntriesMap_ s !! CSMessage.operationID msg)))
     (within [FCalls; FPromises; FValues] s).
Proof.
  unfold onRegistersUpdated. apply wp_bind.
  eapply wp_mono; [apply callEach_within|..]; simpl; [|done].
  intros _ s' Hw. split; [done|].
  destruct (registerEntriesMap_ s !! CSMessage.operationID msg); [done|].
  intros Hx. by vm_compute in Hx.
Qed.

Lemma onIncomingMessage_registrationsKept csMsg s :
  registrationsKept s →
  wp (onIncomingMessage csMsg s) (λ _, registrationsKept) registrationsKept.
Proof.
  intros HK. unfold onIncomingMessage. apply wp_bind. simpl.
  set (s1 := MAF_LOGGER _ _ s). assert (HK1 : registrationsKept s1) by done.
  destruct (decide (_ = _)); [|exact HK1].
  destruct (CSMessage.operationCode csMsg); try exact HK1.
  - apply (registrationsKept_framed [FRequests; FCalls; FPromises; FValues]);
      [ksolve|done..].
  - apply (registrationsKept_framed [FRequests; FCalls; FPromises; FValues]);
      [ksolve|done..].
  - apply wp_bind.
    eapply wp_mono; [apply onRegistersUpdated_updated|..]; simpl.
    + intros updated s2 [Hw Hup].
      assert (HK2 : registrationsKept s2)
        by (eapply registrationsKept_within; [| |exact Hw|]; done).
      destruct updated; [|by simpl]. apply wp_bind. simpl.
      destruct Hw as (_&_&Hregs&_). specialize (Hregs eq_refl).
      destruct HK2 as [Hne Hsub]. unfold cachePropertyStatus. split; rsimpl; [done|].
      intros opID. destruct (decide (CSMessage.operationID csMsg = opID)) as [<-|Hop].
      * intros _. rewrite Hregs. by apply Hup.
      * rewrite lookup_insert_ne by done. apply Hsub.
    + intros s2 Hw. eapply registrationsKept_within; [| |exact Hw|]; done.
  - apply (registrationsKept_framed [FRequests; FCalls; FPromises; FValues]);
      [ksolve|done..].
Qed.

Lemma deliver_registrationsKept ev s :
  losing ev = false → registrationsKept s →
  wp (deliver ev s) (λ _, registrationsKept) registrationsKept.
Proof.
  intros Hev HK. unfold deliver. destruct ev as [csMsg|sid oldStatus newStatus].
  - pose proof (onIncomingMessage_registrationsKept csMsg s HK) as H.
    unfold bind. by destruct (onIncomingMessage csMsg s).
  - assert (Hnew : newStatus ≠ Unavailable) by (by intros ->).
    pose proof (onServiceStatusChanged_within_kept sid oldStatus newStatus Hnew s) as H.
    destruct (onServiceStatusChanged sid oldStatus newStatus s); simpl in *;
      try done; (eapply registrationsKept_within; [| |exact H|]; done).
Qed.

Lemma deliverAll_registrationsKept evs s :
  existsb losing evs = false → registrationsKept s →
  wp (deliverAll evs s) (λ _, registrationsKept) registrationsKept.
Proof.
  revert s. induction evs as [|ev evs IH]; intros s Hevs HK; [by simpl|].
  simpl in *. apply orb_false_elim in Hevs as [Hev Hevs].
  apply wp_bind. eapply wp_mono; [by apply deliver_registrationsKept|..]; simpl.
  - intros _ s' HK'. by apply IH.
  - done.
Qed.

Lemma sendMessageSync_registrationsKept
    operationID opCode msgContent callStatus timeout meanwhile s :
  existsb losing meanwhile = false → registrationsKept s →
  wp (sendMessageSync operationID opCode msgContent callStatus timeout meanwhile s)
     (λ _, registrationsKept) registrationsKept.
Proof.
  intros Hevs HK. unfold sendMessageSync.
  set (s2 := set_syncRequestPromises_ _ _).
  assert (HK2 : registrationsKept s2) by done.
  pose proof (sendMessageAsync_within operationID opCode msgContent
                (CbSync (promisesMade s)) callStatus s2) as Hw.
  destruct (sendMessageAsync _ _ _ _ _ s2) as [[regID callStatus1] s3]. simpl in Hw.
  assert (HK3 : registrationsKept s3)
    by (eapply registrationsKept_within; [| |exact Hw|]; done).
  destruct (RegID.valid regID); [|by simpl].
  apply wp_bind. eapply wp_mono; [by apply deliverAll_registrationsKept|..]; simpl;
    [|done].
  intros _ s4 HK4. destruct (promiseValues s4 !! promisesMade s) as [msg|].
  - by repeat case_match.
  - destruct (decide (timeout = RequestTimeoutMs_max)); [by simpl|].
    pose proof (abortRequest_within regID None
                  (MAF_LOGGER LogWarn "Request has expired" s4)) as Hw'.
    destruct (abortRequest _ _ _) as [st s6]. simpl in *.
    eapply registrationsKept_within; [| |exact Hw'|]; done.
Qed.

Lemma getStatusAsync_within propertyID callback :
  keeps (within [FRequests; FSent; FCalls; FPromises; FValues])
        (getStatusAsync propertyID callback).
Proof.
  intros s. unfold getStatusAsync.
  destruct (cachedPropertyUpToDate propertyID s).
  - cut (keeps (within [FRequests; FSent; FCalls; FPromises; FValues])
           (propStatus ← getCachedProperty propertyID;
            invoke callback propStatus ;; ret Success)); [intros H; apply H|].
    ksolve.
  - pose proof (sendMessageAsync_within propertyID OpStatusGet None callback
                  (Some FailedUnknown) s) as Hw.
    destruct (sendMessageAsync _ _ _ _ _ s) as [[regID callstatus] s1]. simpl in *.
    eapply within_weaken_now; [eassumption|reflexivity].
Qed.

(** Every public operation that does not take the requester through the
    loss of the service keeps the registrations well formed and the cached
    properties registered. *)
Lemma perform_registrationsKept op s s' :
  losesService op = false → registrationsKept s → perform op s = Some s' →
  registrationsKept s'.
Proof.
  intros Hop HK.
  assert (Hframe : ∀ fp, touched fp FRegistrations = false →
            touched fp FCache = false → within fp s s' → registrationsKept s')
    by (intros; by eapply registrationsKept_within).
  destruct op; simpl in *.
  - intros [= <-]. eapply Hframe; [| |apply sendRequestAsync_within]; done.
  - apply wp_stateAfter. unfold sendRequest.
    destruct (serviceUnavailable s); [by simpl|].
    by apply sendMessageSync_registrationsKept.
  - intros [= <-]. eapply Hframe; [| |apply abortRequest_within]; done.
  - apply wp_stateAfter. unfold registerStatus.
    destruct (serviceUnavailable s); [by simpl|].
    by apply registerNotification_registrationsKept.
  - apply wp_stateAfter. unfold registerSignal.
    destruct (serviceUnavailable s); [by simpl|].
    by apply registerNotification_registrationsKept.
  - intros [= <-]. by apply unregister_registrationsKept.
  - intros [= <-]. by apply unregisterAll_registrationsKept.
  - apply wp_stateAfter. unfold getStatus.
    destruct (cachedPropertyUpToDate propertyID s).
    + apply (registrationsKept_framed []); [ksolve|done..].
    + destruct (serviceUnavailable s); [by simpl|].
      by apply sendMessageSync_registrationsKept.
  - apply wp_stateAfter.
    by apply (registrationsKept_framed [FRequests; FSent; FCalls; FPromises; FValues]);
      [apply getStatusAsync_within|..].
  - apply wp_stateAfter. by apply onIncomingMessage_registrationsKept.
  - apply wp_stateAfter.
    assert (Hnew : newStatus ≠ Unavailable) by (by intros ->).
    by apply (registrationsKept_framed [FStatus]);
      [apply onServiceStatusChanged_within_kept|..].
  - apply wp_stateAfter.
    by apply (registrationsKept_framed []);
      [apply registerServiceStatusObserver_within|..].
  - intros [= <-].
    eapply Hframe; [| |apply unregisterServiceStatusObserver_within]; done.
Qed.

Lemma make_registrationsKept sid client : registrationsKept (make sid client).
Proof.
  split; simpl.
  - intros opID entries. by rewrite lookup_empty.
  - intros opID. rewrite lookup_empty. by intros [? ?].
Qed.

Lemma reachable_registrationsKept s :
  reachable keepsService s → registrationsKept s.
Proof.
  induction 1 as [sid client|op s s' _ IH Hop Hs'].
  - apply make_registrationsKept.
  - by eapply perform_registrationsKept.
Qed.

(** ** Pending promises *)

Lemma elem_of_eraseFirst {A} (f : A → bool) (l : list A) (x : A) :
  x ∈ eraseFirst f l → x ∈ l.
Proof.
  induction l as [|y l IH]; simpl; [done|].
  destruct (f y); [by right|]. intros [->|Hx]%elem_of_cons; [by left|].
  right. by apply IH.
Qed.

Lemma NoDup_eraseFirst {A} (f : A → bool) (l : list A) :
  NoDup l → NoDup (eraseFirst f l).
Proof.
  induction 1 as [|y l Hy Hl IH]; simpl; [constructor|].
  destruct (f y); [done|]. constructor; [|done].
  intros Hin. by apply Hy, (elem_of_eraseFirst f).
Qed.

Lemma not_elem_of_eraseFirst (p : nat) (l : list nat) :
  NoDup l → p ∉ eraseFirst (λ q, bool_decide (q = p)) l.
Proof.
  induction 1 as [|y l Hy Hl IH]; simpl; [by intros ?%elem_of_nil|].
  destruct (bool_decide (y = p)) eqn:Hyp.
  - apply bool_decide_eq_true in Hyp as ->. done.
  - apply bool_decide_eq_false in Hyp.
    intros [->|Hin]%elem_of_cons; [done|]. by apply IH.
Qed.

Lemma promisesPending_among s s' :
  syncRequestPromises_ s' = syncRequestPromises_ s →
  promiseValues s' = promiseValues s →
  promisesMade s' = promisesMade s →
  entriesAmong s s' → promisesPending s → promisesPending s'.
Proof.
  intros Hl Hv Hm Hamong (P1 & P2 & P3 & P4).
  unfold promisesPending, callable. rewrite Hl, Hv, Hm. split_and!; [done..|].
  intros w opID entries' entry Hmap Hin.
  destruct (Hamong w opID entries' entry Hmap Hin) as (entries & Hmap0 & Hin0).
  by eapply P4.
Qed.

Lemma entriesAmong_same s s' :
  requestEntriesMap_ s' = requestEntriesMap_ s →
  registerEntriesMap_ s' = registerEntriesMap_ s → entriesAmong s s'.
Proof.
  intros Hq Hg w opID entries' entry Hmap Hin. exists entries'. split; [|done].
  destruct w; simpl in *; congruence.
Qed.

Lemma promisesPending_within fp s s' :
  touched fp FPromises = false → touched fp FValues = false →
  touched fp FMade = false → touched fp FRequests = false →
  touched fp FRegistrations = false →
  within fp s s' → promisesPending s → promisesPending s'.
Proof.
  intros Hp Hv Hm Hq Hg (_&Hrequests&Hregs&_&Hlist&Hvals&Hmade&_).
  apply promisesPending_among; eauto using entriesAmong_same.
Qed.

Lemma entriesAmong_update w opID entries0 entries s :
  entriesMap w s !! opID = Some entries0 →
  (∀ e, e ∈ entries → e ∈ entries0) →
  entriesAmong s (set_entriesMap w (<[opID := entries]> (entriesMap w s)) s).
Proof.
  intros Hmap Hsub w' opID' entries' entry Hmap' Hin.
  destruct w, w'; simpl in *; try by eauto.
  all: destruct (decide (opID = opID')) as [->|Hop];
    [rewrite lookup_insert_eq in Hmap'; injection Hmap' as <-; eauto
    |rewrite lookup_insert_ne in Hmap' by done; eauto].
Qed.

Lemma entriesAmong_delete w opID s :
  entriesAmong s (set_entriesMap w (delete opID (entriesMap w s)) s).
Proof.
  intros w' opID' entries' entry Hmap' Hin.
  destruct w, w'; simpl in *; try by eauto.
  all: destruct (decide (opID = opID')) as [->|Hop];
    [by rewrite lookup_delete_eq in Hmap'
    |rewrite lookup_delete_ne in Hmap' by done; eauto].
Qed.

Lemma entriesAmong_clear w s : entriesAmong s (set_entriesMap w ∅ s).
Proof.
  intros w' opID' entries' entry Hmap' Hin.
  destruct w, w'; simpl in *; try by eauto.
  all: by rewrite lookup_empty in Hmap'.
Qed.

Lemma entriesAmong_refl s : entriesAmong s s.
Proof. intros w opID entries entry ? ?. eauto. Qed.

Lemma entriesAmong_trans s1 s2 s3 :
  entriesAmong s1 s2 → entriesAmong s2 s3 → entriesAmong s1 s3.
Proof.
  intros H12 H23 w opID entries entry Hmap Hin.
  destruct (H23 _ _ _ _ Hmap Hin) as (entries2 & Hmap2 & Hin2). eauto.
Qed.

Lemma promisesPending_store w propertyID callback regID s :
  promisesPending s → callable s callback →
  promisesPending (snd (storeRegEntry w propertyID callback regID s)).
Proof.
  intros (P1 & P2 & P3 & P4) Hcb. rewrite storeRegEntry_eq. rsimpl.
  split_and!; try by destruct w.
  intros w' opID entries entry. unfold callable.
  replace (promisesMade (set_entriesMap w _ _)) with (promisesMade s)
    by by destruct w.
  destruct w, w'; simpl; try by apply P4 with (w := RequestEntries).
  all: try by apply P4 with (w := RegisterEntries).
  all: destruct (decide (propertyID = opID)) as [->|Hop];
    [rewrite lookup_insert_eq; intros [= <-] [Hin|Hin]%elem_of_app
    |rewrite lookup_insert_ne by done].
  all: try by apply P4 with (w := RequestEntries).
  all: try by apply P4 with (w := RegisterEntries).
  all: try (apply list_elem_of_singleton in Hin as ->; done).
  - destruct (requestEntriesMap_ s !! opID) as [l|] eqn:Hl;
      [|by apply elem_of_nil in Hin].
    by eapply (P4 RequestEntries).
  - destruct (registerEntriesMap_ s !! opID) as [l|] eqn:Hl;
      [|by apply elem_of_nil in Hin].
    by eapply (P4 RegisterEntries).
Qed.

Lemma removeRegEntry_among w regID s :
  let s' := snd (removeRegEntry w regID s) in
  syncRequestPromises_ s' = syncRequestPromises_ s ∧
  promiseValues s' = promiseValues s ∧
  promisesMade s' = promisesMade s ∧
  entriesAmong s s'.
Proof.
  unfold removeRegEntry.
  destruct (entriesMap w s !! RegID.opID regID) as [entries|] eqn:Hmap;
    [|by split_and!; [..|apply entriesAmong_refl]].
  destruct (eraseFirst _ entries) as [|e l] eqn:Herase; rsimpl;
    (split_and!; [by destruct w..|]).
  - eapply entriesAmong_trans; [|apply entriesAmong_delete].
    apply entriesAmong_same; by destruct w.
  - eapply entriesAmong_trans;
      [|apply (entriesAmong_update w _ entries);
        [by rewrite entriesMap_set_idMgr_|]].
    + apply entriesAmong_same; by destruct w.
    + intros x Hx. apply (elem_of_eraseFirst (hasRequestID (RegID.requestID regID))).
      by rewrite Herase.
Qed.

Lemma promisesPending_remove w regID s :
  promisesPending s → promisesPending (snd (removeRegEntry w regID s)).
Proof.
  intros HP. destruct (removeRegEntry_among w regID s) as (?&?&?&?).
  by eapply promisesPending_among.
Qed.

Lemma invoke_promisesPending callback arg s :
  promisesPending s → callable s callback →
  wp (invoke callback arg s)
     (λ _ s', promisesPending s' ∧ promisesMade s' = promisesMade s)
     (λ s', promisesPending s' ∧ promisesMade s' = promisesMade s).
Proof.
  intros HP Hcb. destruct callback as [|id|p]; simpl.
  - done.
  - split; [|done]. by eapply (promisesPending_within [FCalls]); [..|within_now|].
  - unfold bind, modify, set_value, removeRequestPromies. rsimpl.
    destruct HP as (P1 & P2 & P3 & P4).
    assert (Hp : p < promisesMade s) by by apply Hcb.
    pose proof (NoDup_eraseFirst (λ q, bool_decide (q = p)) _ P1) as P1'.
    pose proof (not_elem_of_eraseFirst p _ P1) as Hnotin.
    set (l' := eraseFirst _ (syncRequestPromises_ s)) in *.
    assert (P2' : ∀ q, q ∈ l' → q < promisesMade s ∧ promiseValues s !! q = None).
    { intros q Hq. by apply P2, (elem_of_eraseFirst (λ q, bool_decide (q = p))). }
    destruct (promiseValues s !! p) eqn:Hval; simpl.
    + split; [|done]. by split_and!.
    + split; [|done]. split_and!; rsimpl; [done| | |done].
      * intros q Hq. destruct (P2' q Hq) as [Hlt Hnone]. split; [done|].
        rewrite lookup_insert_ne; [done|]. by intros ->.
      * intros q. destruct (decide (p = q)) as [<-|Hpq]; [done|].
        rewrite lookup_insert_ne by done. apply P3.
Qed.

Lemma callEach_promisesPending callbacks payload s :
  promisesPending s → (∀ callback, callback ∈ callbacks → callable s callback) →
  wp (callEach callbacks payload s)
     (λ _ s', promisesPending s' ∧ promisesMade s' = promisesMade s)
     (λ s', promisesPending s' ∧ promisesMade s' = promisesMade s).
Proof.
  revert s. induction callbacks as [|callback rest IH]; intros s HP Hcbs; simpl.
  - done.
  - destruct payload as [p|]; [|done]. apply wp_bind.
    eapply wp_mono; [apply invoke_promisesPending; [done|]|..]; simpl.
    + apply Hcbs. by left.
    + intros _ s' [HP' Hmade]. eapply wp_mono; [apply IH; [done|]|..]; simpl.
      * intros cb Hcb. unfold callable. rewrite Hmade. apply Hcbs. by right.
      * intros _ s'' [? ?]. split; [done|congruence].
      * intros s'' [? ?]. split; [done|congruence].
    + done.
Qed.

Lemma onRegistersUpdated_promisesPending msg s :
  promisesPending s →
  wp (onRegistersUpdated msg s) (λ _, promisesPending) promisesPending.
Proof.
  intros HP. unfold onRegistersUpdated. apply wp_bind.
  eapply wp_mono; [apply callEach_promisesPending; [done|]|..]; simpl.
  - intros callback [entry [-> Hin]]%list_elem_of_fmap.
    destruct (registerEntriesMap_ s !! CSMessage.operationID msg) as [l|] eqn:Hl;
      [|by apply elem_of_nil in Hin].
    destruct HP as (_&_&_&P4). by eapply (P4 RegisterEntries).
  - by intros _ s' [? _].
  - by intros s' [? _].
Qed.

Lemma elem_of_findFirst {A} (f : A → bool) (l : list A) (x : A) :
  findFirst f l = Some x → x ∈ l.
Proof.
  induction l as [|y l IH]; simpl; [done|].
  destruct (f y); [intros [= ->]; by left|]. intros Hx. right. by apply IH.
Qed.

Lemma onRequestResult_promisesPending msg s :
  promisesPending s →
  wp (onRequestResult msg s) (λ _, promisesPending) promisesPending.
Proof.
  intros HP. unfold onRequestResult.
  destruct (requestEntriesMap_ s !! CSMessage.operationID msg) as [regEntries|] eqn:Hl;
    [destruct (findFirst _ regEntries) as [entry|] eqn:Hfind|].
  - assert (Hcb : callable s (RegEntry.callback entry)).
    { destruct HP as (_&_&_&P4). eapply (P4 RequestEntries); [done|].
      by eapply elem_of_findFirst. }
    set (s1 := set_requestEntriesMap_ _ s).
    assert (HP1 : promisesPending s1).
    { apply (promisesPending_among s); [done..| |done].
      apply (entriesAmong_update RequestEntries _ regEntries); [done|].
      intros e. apply elem_of_eraseFirst. }
    destruct (RegEntry.callback entry) eqn:Hcbe; [done|..].
    all: eapply wp_mono; [by apply invoke_promisesPending|..]; simpl;
      by intros; destruct_and!.
  - simpl. by eapply (promisesPending_within []); [..|within_now|].
  - simpl. by eapply (promisesPending_within []); [..|within_now|].
Qed.

Lemma promisesPending_framed {A} fp (m : M A) s :
  keeps (within fp) m →
  touched fp FPromises = false → touched fp FValues = false →
  touched fp FMade = false → touched fp FRequests = false →
  touched fp FRegistrations = false →
  promisesPending s → wp (m s) (λ _, promisesPending) promisesPending.
Proof.
  intros Hm ? ? ? ? ? HP. eapply wp_mono; [apply Hm|..]; simpl; intros;
    by eapply promisesPending_within.
Qed.

Lemma onIncomingMessage_promisesPending csMsg s :
  promisesPending s →
  wp (onIncomingMessage csMsg s) (λ _, promisesPending) promisesPending.
Proof.
  intros HP. unfold onIncomingMessage. apply wp_bind. simpl.
  set (s1 := MAF_LOGGER _ _ s). assert (HP1 : promisesPending s1) by done.
  destruct (decide (_ = _)); [|exact HP1].
  destruct (CSMessage.operationCode csMsg); try exact HP1.
  - apply wp_bind. eapply wp_mono; [by apply onRequestResult_promisesPending|..];
      by simpl.
  - apply wp_bind. eapply wp_mono; [by apply onRequestResult_promisesPending|..];
      by simpl.
  - apply wp_bind. eapply wp_mono; [by apply onRegistersUpdated_promisesPending|..];
      simpl; [|done].
    intros updated s2 HP2. apply wp_bind. destruct updated; by simpl.
  - apply wp_bind. eapply wp_mono; [by apply onRegistersUpdated_promisesPending|..];
      by simpl.
Qed.

(** Satisfying promises that are distinct and pending never fails. *)
Lemma setEach_pending promises v s :
  NoDup promises → (∀ p, p ∈ promises → promiseValues s !! p = None) →
  ∃ s', setEach promises v s = Ret tt s' ∧ within [FValues] s s' ∧
    ∀ p, promiseValues s' !! p =
           if decide (p ∈ promises) then Some v else promiseValues s !! p.
Proof.
  intros Hnd. revert s. induction Hnd as [|q promises Hq Hnd IH]; intros s Hnone.
  - exists s. split_and!; [done..|]. intros p.
    destruct (decide (p ∈ [])) as [Hin|_]; [by apply elem_of_nil in Hin|done].
  - simpl. unfold bind, set_value at 1. rewrite Hnone by left.
    set (s1 := set_promiseValues _ s).
    destruct (IH s1) as (s' & Heq & Hw & Hvals).
    { intros p Hp. subst s1. rsimpl. rewrite lookup_insert_ne; [|by intros ->].
      apply Hnone. by right. }
    exists s'. split_and!; [done| |].
    + trans s1; [within_now|done].
    + intros p. rewrite Hvals. subst s1. rsimpl.
      destruct (decide (p ∈ promises)) as [Hin|Hin].
      * rewrite decide_True; [done|by right].
      * destruct (decide (p = q)) as [->|Hpq].
        -- rewrite lookup_insert_eq. rewrite decide_True; [done|by left].
        -- rewrite lookup_insert_ne by done.
           rewrite decide_False; [done|]. by intros [?|?]%elem_of_cons.
Qed.

Lemma abortAllSyncRequest_pending s :
  promisesPending s →
  ∃ s', abortAllSyncRequest s = Ret tt s' ∧
    within [FPromises; FValues] s s' ∧ promisesPending s' ∧
    syncRequestPromises_ s' = [] ∧
    ∀ p, p ∈ syncRequestPromises_ s → promiseValues s' !! p = Some None.
Proof.
  intros (P1 & P2 & P3 & P4). unfold abortAllSyncRequest, bind.
  destruct (setEach_pending (syncRequestPromises_ s) None s P1)
    as (s1 & -> & Hw & Hvals); [by intros p [_ ?]%P2|].
  simpl. eexists. split; [reflexivity|].
  pose proof Hw as (_&Hq&Hg&_&Hl&_&Hm&_).
  specialize (Hq eq_refl). specialize (Hg eq_refl). specialize (Hl eq_refl).
  specialize (Hm eq_refl).
  split_and!; rsimpl.
  - trans s1; [|within_now]. eapply within_weaken_now; [exact Hw|reflexivity].
  - split_and!; rsimpl.
    + constructor.
    + by intros p ?%elem_of_nil.
    + intros p. rewrite Hvals, Hm. case_decide; [by intros _; apply P2|apply P3].
    + intros w opID entries entry Hmap Hin. unfold callable. rsimpl. rewrite Hm.
      apply (P4 w opID entries entry); [|done]. destruct w; simpl in *; congruence.
  - done.
  - intros p Hp. rewrite Hvals. by rewrite decide_True.
Qed.

Lemma forwardLoop_leaves_state sid oldStatus newStatus todo visited s :
  is_Some (stateAfter (forwardLoop sid oldStatus newStatus visited todo s)).
Proof.
  revert visited s. induction todo as [|o rest IH]; intros visited s; simpl; [done|].
  unfold callObserver. destruct (reaction o _ _ _ _) as [|[]]; simpl; eauto.
Qed.

Lemma forwardServiceStatusToObservers_leaves_state sid oldStatus newStatus s :
  ∃ s', stateAfter (forwardServiceStatusToObservers sid oldStatus newStatus s) = Some s' ∧
        within [] s s'.
Proof.
  pose proof (forwardServiceStatusToObservers_within sid oldStatus newStatus s) as Hw.
  unfold forwardServiceStatusToObservers, withObserversLock in *.
  destruct (forwardLoop_leaves_state sid oldStatus newStatus
              (serviceStatusObservers_ (set_observersLocked true s)) []
              (set_observersLocked true s)) as [s1 Hs1].
  destruct (forwardLoop _ _ _ _ _ _); simpl in *; try done; eauto.
Qed.

(** The steps of [onServiceStatusChanged] between the change of the status
    and the notification of the observers, when the new status is
    [Unavailable]. *)
Lemma loss_clears s :
  promisesPending s →
  ∃ s1,
    (modify (set_serviceStatus_ Unavailable) ;;
     abortAllSyncRequest ;;
     modify clearAllAsyncRequests ;;
     modify clearAllRegisterEntries) s = Ret tt s1 ∧
    clearedByLoss (syncRequestPromises_ s) s1 ∧ promisesPending s1.
Proof.
  intros HP. unfold bind at 1. unfold modify at 1. unfold bind at 1.
  set (s0 := set_serviceStatus_ Unavailable s).
  assert (HP0 : promisesPending s0) by done.
  destruct (abortAllSyncRequest_pending s0 HP0) as (s1 & -> & Hw & HP1 & Hnil & Hvals).
  unfold bind, modify, clearAllAsyncRequests, clearAllRegisterEntries.
  eexists. split; [reflexivity|]. split.
  - destruct Hw as (Hst&_). specialize (Hst eq_refl).
    unfold clearedByLoss. rsimpl. by split_and!.
  - apply (promisesPending_among s1); rsimpl; [done..| |done].
    apply (entriesAmong_trans _ (set_requestEntriesMap_ ∅ s1)).
    + apply (entriesAmong_clear RequestEntries).
    + apply (entriesAmong_clear RegisterEntries).
Qed.

Lemma onServiceStatusChanged_promisesPending sid oldStatus newStatus s :
  promisesPending s →
  wp (onServiceStatusChanged sid oldStatus newStatus s)
     (λ _, promisesPending) promisesPending.
Proof.
  intros HP. unfold onServiceStatusChanged. apply wp_bind. simpl.
  set (s0 := MAF_LOGGER _ _ s). assert (HP0 : promisesPending s0) by done.
  destruct (bool_decide _); [|exact HP0].
  destruct (decide (newStatus = Unavailable)) as [->|Hnew].
  - unfold bind at 1. unfold modify at 1.
    destruct (loss_clears (set_serviceStatus_ Unavailable s0)) as (s1 & Heq & _ & HP1);
      [done|].
    destruct (decide (Unavailable = Unavailable)) as [_|]; [|done].
    unfold bind at 1. rewrite Heq.
    by apply (promisesPending_framed []);
      [apply forwardServiceStatusToObservers_within|..].
  - apply (promisesPending_framed [FStatus]); [|done..].
    apply keeps_bind; try exact _; [ksolve|]. intros _.
    destruct (decide (newStatus = Unavailable)); [done|]. ksolve.
Qed.

(** What the loss of the service leaves behind. *)
Lemma onServiceStatusChanged_loss oldStatus s :
  promisesPending s → serviceStatus_ s ≠ Unavailable →
  ∃ s', stateAfter (onServiceStatusChanged (serviceID s) oldStatus Unavailable s)
          = Some s' ∧
        clearedByLoss (syncRequestPromises_ s) s'.
Proof.
  intros HP Hst. unfold onServiceStatusChanged. unfold bind at 1. unfold modify at 1.
  set (s0 := MAF_LOGGER _ _ s). assert (HP0 : promisesPending s0) by done.
  rewrite bool_decide_eq_true_2
    by (split; [done|intros Heq; apply Hst; symmetry; exact Heq]).
  unfold bind at 1. unfold modify at 1.
  destruct (decide (Unavailable = Unavailable)) as [_|]; [|done].
  destruct (loss_clears (set_serviceStatus_ Unavailable s0)) as (s1 & Heq & Hcleared & _);
    [done|].
  unfold bind at 1. rewrite Heq.
  destruct (forwardServiceStatusToObservers_leaves_state
              (serviceID s) oldStatus Unavailable s1) as (s' & Hs' & Hw).
  exists s'. split; [done|].
  destruct Hw as (Hstatus&Hq&Hg&_&Hl&Hv&_). destruct Hcleared as (?&?&?&?&?).
  unfold clearedByLoss.
  rewrite Hstatus, Hq, Hg, Hl, Hv by done. by split_and!.
Qed.

Lemma sendMessageAsync_promisesPending
    operationID operationCode msgContent callback callStatus s :
  promisesPending s → callable s callback →
  promisesPending
    (snd (sendMessageAsync operationID operationCode msgContent callback callStatus s)).
Proof.
  intros HP Hcb. unfold sendMessageAsync, storeAndSendRequestToServer.
  pose proof (promisesPending_store RequestEntries operationID callback
                RegID.empty s HP Hcb) as HP1.
  rewrite createCSMessage_eq. cbn [envelope CSMessage.operationID].
  destruct (storeRegEntry _ _ _ _ s) as [[n regID] s1]. simpl in HP1.
  rewrite sendMessageToServer_eq.
  set (s2 := set_sentToServer _ s1). assert (HP2 : promisesPending s2) by done.
  destruct (decide (_ ≠ Success)); [|done]. cbn [snd].
  by apply promisesPending_remove.
Qed.

Lemma abortRequest_promisesPending regID callStatus s :
  promisesPending s → promisesPending (snd (abortRequest regID callStatus s)).
Proof.
  intros HP. unfold abortRequest. destruct (negb (RegID.valid regID)); [done|].
  destruct (requestEntriesMap_ s !! RegID.opID regID) as [l|] eqn:Hl; [|done].
  destruct (findFirst _ l); [|done].
  set (s1 := set_requestEntriesMap_ _ s).
  assert (HP1 : promisesPending s1).
  { apply (promisesPending_among s); [done..| |done].
    apply (entriesAmong_update RequestEntries _ l); [done|].
    intros e. apply elem_of_eraseFirst. }
  rewrite sendMessageToServer_eq. by destruct (decide (_ = Success)).
Qed.

Lemma deliver_promisesPending ev s :
  promisesPending s → wp (deliver ev s) (λ _, promisesPending) promisesPending.
Proof.
  intros HP. unfold deliver. destruct ev as [csMsg|sid oldStatus newStatus].
  - pose proof (onIncomingMessage_promisesPending csMsg s HP) as H.
    unfold bind. by destruct (onIncomingMessage csMsg s).
  - pose proof (onServiceStatusChanged_promisesPending sid oldStatus newStatus s HP)
      as H.
    by destruct (onServiceStatusChanged sid oldStatus newStatus s).
Qed.

Lemma deliverAll_promisesPending evs s :
  promisesPending s → wp (deliverAll evs s) (λ _, promisesPending) promisesPending.
Proof.
  revert s. induction evs as [|ev evs IH]; intros s HP; [by simpl|].
  simpl. apply wp_bind.
  eapply wp_mono; [by apply deliver_promisesPending|..]; simpl; [|done].
  intros _ s' HP'. by apply IH.
Qed.

Lemma promisesPending_removePromise promise s :
  promisesPending s → promisesPending (removeRequestPromies promise s).
Proof.
  intros (P1 & P2 & P3 & P4). unfold removeRequestPromies. split_and!; rsimpl.
  - by apply NoDup_eraseFirst.
  - intros p Hp. by apply P2, (elem_of_eraseFirst (λ q, bool_decide (q = promise))).
  - done.
  - done.
Qed.

Lemma sendMessageSync_promisesPending
    operationID opCode msgContent callStatus timeout meanwhile s :
  promisesPending s →
  wp (sendMessageSync operationID opCode msgContent callStatus timeout meanwhile s)
     (λ _, promisesPending) promisesPending.
Proof.
  intros HP. unfold sendMessageSync.
  set (s2 := set_syncRequestPromises_ _ _).
  assert (HP2 : promisesPending s2).
  { destruct HP as (P1 & P2 & P3 & P4). subst s2. split_and!; rsimpl.
    - apply NoDup_app. split_and!; [done| |apply NoDup_singleton].
      intros p Hp ->%list_elem_of_singleton. destruct (P2 _ Hp). lia.
    - intros p [Hp| ->%list_elem_of_singleton]%elem_of_app.
      + destruct (P2 _ Hp). split; [lia|done].
      + split; [lia|]. destruct (promiseValues s !! promisesMade s) eqn:Hv; [|done].
        assert (promisesMade s < promisesMade s) by (apply P3; by rewrite Hv). lia.
    - intros p Hp. apply P3 in Hp. lia.
    - intros w opID entries entry Hmap Hin p Hcb.
      assert (p < promisesMade s); [|rsimpl; lia].
      apply (P4 w opID entries entry); [|done..]. by destruct w. }
  assert (Hcb : callable s2 (CbSync (promisesMade s)))
    by (intros p [= <-]; subst s2; rsimpl; lia).
  pose proof (sendMessageAsync_promisesPending operationID opCode msgContent
                (CbSync (promisesMade s)) callStatus s2 HP2 Hcb) as HP3.
  destruct (sendMessageAsync _ _ _ _ _ s2) as [[regID callStatus1] s3]. simpl in HP3.
  destruct (RegID.valid regID); [|by apply promisesPending_removePromise].
  apply wp_bind. eapply wp_mono; [by apply deliverAll_promisesPending|..]; simpl;
    [|done].
  intros _ s4 HP4. destruct (promiseValues s4 !! promisesMade s) as [msg|].
  - by repeat case_match.
  - destruct (decide (timeout = RequestTimeoutMs_max)); [by simpl|].
    pose proof (abortRequest_promisesPending regID None
                  (MAF_LOGGER LogWarn "Request has expired" s4) HP4) as HP6.
    by destruct (abortRequest _ _ _) as [st s6].
Qed.

Lemma callable_user c s : callable s (userCallback c).
Proof. by destruct c; intros p. Qed.

Lemma registerNotification_promisesPending opID opCode callback callStatus s :
  promisesPending s → callable s callback →
  wp (registerNotification opID opCode callback callStatus s)
     (λ _, promisesPending) promisesPending.
Proof.
  intros HP Hcb. unfold registerNotification.
  assert (Hgo :
    wp (bind (lift (storeRegEntry RegisterEntries opID callback RegID.empty))
          (λ '(sameRegisterCount, regID),
             if decide (sameRegisterCount = 1) then
               registerMessage ←
                 (λ s, Ret (CSMessage.setRequestID (RegID.requestID regID)
                              (createCSMessage opID opCode None s)) s);
               status ← lift (sendMessageToServer registerMessage);
               if decide (status ≠ Success) then
                 lift (removeRegEntry RegisterEntries regID) ;;
                 ret (RegID.clear regID, assign_ptr callStatus status)
               else ret (regID, assign_ptr callStatus status)
             else if decide (opCode = OpStatusRegister) then
               cachedProperty ← getCachedProperty opID;
               match cachedProperty with
               | Some _ => invoke callback cachedProperty
               | None => ret tt
               end ;;
               ret (regID, assign_ptr callStatus Success)
             else ret (regID, callStatus)) s)
       (λ _, promisesPending) promisesPending).
  { unfold bind at 1. unfold lift at 1.
    pose proof (promisesPending_store RegisterEntries opID callback RegID.empty s
                  HP Hcb) as HP1.
    assert (Hmade : promisesMade
              (snd (storeRegEntry RegisterEntries opID callback RegID.empty s))
            = promisesMade s) by (by rewrite storeRegEntry_eq).
    destruct (storeRegEntry _ _ _ _ s) as [[n regID] s1]. simpl in HP1, Hmade.
    destruct (decide (n = 1)).
    - unfold bind at 1. unfold bind at 1. unfold lift at 1.
      rewrite sendMessageToServer_eq.
      set (s2 := set_sentToServer _ s1). assert (HP2 : promisesPending s2) by done.
      destruct (decide (_ ≠ Success)); [|done].
      unfold bind, lift.
      pose proof (promisesPending_remove RegisterEntries regID s2 HP2) as HP3.
      by destruct (removeRegEntry _ _ s2).
    - destruct (decide (opCode = OpStatusRegister)); [|done].
      unfold bind at 1. unfold getCachedProperty.
      destruct (propertiesCache_ s1 !! opID) as [[p|]|]; [|done..].
      apply wp_bind. eapply wp_mono; [apply invoke_promisesPending; [done|]|..].
      + intros p' Hp'. rewrite Hmade. by apply Hcb.
      + by intros _ s' [? _].
      + by intros s' [? _]. }
  by destruct callback.
Qed.

Lemma getStatusAsync_promisesPending propertyID callback s :
  promisesPending s → callable s callback →
  wp (getStatusAsync propertyID callback s) (λ _, promisesPending) promisesPending.
Proof.
  intros HP Hcb. unfold getStatusAsync.
  destruct (cachedPropertyUpToDate propertyID s).
  - unfold bind at 1. unfold getCachedProperty.
    destruct (propertiesCache_ s !! propertyID) as [[p|]|]; [|done|].
    all: apply wp_bind; (eapply wp_mono; [by apply invoke_promisesPending|..]);
      simpl; by intros; destruct_and?.
  - pose proof (sendMessageAsync_promisesPending propertyID OpStatusGet None
                  callback (Some FailedUnknown) s HP Hcb) as HP1.
    by destruct (sendMessageAsync _ _ _ _ _ s) as [[regID callstatus] s1].
Qed.

(** Every public operation keeps the promises pending. *)
Lemma perform_promisesPending op s s' :
  promisesPending s → perform op s = Some s' → promisesPending s'.
Proof.
  intros HP.
  assert (Hframe : ∀ fp, touched fp FPromises = false → touched fp FValues = false →
            touched fp FMade = false → touched fp FRequests = false →
            touched fp FRegistrations = false →
            within fp s s' → promisesPending s')
    by (intros; by eapply promisesPending_within).
  destruct op; simpl.
  - intros [= <-]. unfold sendRequestAsync. destruct (serviceUnavailable s); [done|].
    apply sendMessageAsync_promisesPending; [done|apply callable_user].
  - apply wp_stateAfter. unfold sendRequest.
    destruct (serviceUnavailable s); [by simpl|].
    by apply sendMessageSync_promisesPending.
  - intros [= <-]. by apply abortRequest_promisesPending.
  - apply wp_stateAfter. unfold registerStatus.
    destruct (serviceUnavailable s); [by simpl|].
    apply registerNotification_promisesPending; [done|apply callable_user].
  - apply wp_stateAfter. unfold registerSignal.
    destruct (serviceUnavailable s); [by simpl|].
    apply registerNotification_promisesPending; [done|apply callable_user].
  - intros [= <-]. unfold unregister.
    destruct (serviceUnavailable s); [done|].
    destruct (RegID.valid regID); [|done].
    pose proof (promisesPending_remove RegisterEntries regID s HP) as HP1.
    destruct (removeRegEntry _ _ s) as [n s1]. simpl in HP1.
    destruct (decide (n = 0)); [|done].
    by rewrite sendMessageToServer_eq.
  - intros [= <-]. unfold unregisterAll.
    destruct (serviceUnavailable s); [done|].
    rewrite sendMessageToServer_eq.
    apply (promisesPending_among s); [done..| |done].
    apply (entriesAmong_delete RegisterEntries).
  - apply wp_stateAfter. unfold getStatus.
    destruct (cachedPropertyUpToDate propertyID s).
    + apply (promisesPending_framed []); [ksolve|done..].
    + destruct (serviceUnavailable s); [by simpl|].
      by apply sendMessageSync_promisesPending.
  - apply wp_stateAfter.
    apply getStatusAsync_promisesPending; [done|apply callable_user].
  - apply wp_stateAfter. by apply onIncomingMessage_promisesPending.
  - apply wp_stateAfter. by apply onServiceStatusChanged_promisesPending.
  - apply wp_stateAfter.
    by apply (promisesPending_framed []);
      [apply registerServiceStatusObserver_within|..].
  - intros [= <-].
    eapply Hframe; [..|apply unregisterServiceStatusObserver_within]; done.
Qed.

Lemma make_promisesPending sid client : promisesPending (make sid client).
Proof.
  split_and!; simpl.
  - constructor.
  - by intros p ?%elem_of_nil.
  - intros p. rewrite lookup_empty. by intros [? ?].
  - intros [] opID entries entry; simpl; by rewrite lookup_empty.
Qed.

Lemma reachable_promisesPending s :
  reachable anyOperation s → promisesPending s.
Proof.
  induction 1 as [sid client|op s s' _ IH Hop Hs'].
  - apply make_promisesPending.
  - by eapply perform_promisesPending.
Qed.

Lemma reachable_weaken (allowed allowed' : Operation → Prop) s :
  (∀ op, allowed op → allowed' op) → reachable allowed s → reachable allowed' s.
Proof.
  intros Hsub. induction 1 as [sid client|op s s' _ IH Hop Hs'].
  - constructor.
  - eapply reachable_step; eauto.
Qed.

(** ** Cache coherency *)

Lemma reachable_after (allowed : Operation → Prop) op s :
  allowed op → reachable allowed s → reachable allowed (after op s).
Proof.
  intros Hop Hs. unfold after. destruct (perform op s) as [s'|] eqn:Hs'; [|done].
  by eapply reachable_step.
Qed.

Lemma registrationsKept_cached s : registrationsKept s → cachedAreRegistered s.
Proof.
  intros [Hne Hsub] opID [entries Hreg]%Hsub. exists entries. split; [done|].
  by eapply Hne.
Qed.


Lemma timedOut_reachable : reachable keepsService timedOut.
Proof. repeat (apply reachable_after; [done|]). constructor. Qed.



(** The loss of the service leaves the property cache as it was: on the
    sample requester the value cached for [x] outlives its registrations. *)
Lemma loss_keeps_cached_value :
  reachable anyOperation disconnected ∧
  serviceStatus_ disconnected = Unavailable ∧
  registerEntriesMap_ disconnected !! "x" = None ∧
  propertiesCache_ disconnected !! "x" = Some (Some [x01; x02]).
Proof.
  split_and!; try by vm_compute.
  repeat (apply reachable_after; [done|]). constructor.
Qed.

(** With callbacks that do not call the requester, the handling of an
    envelope is [onIncomingMessage]. *)
Lemma callEachBy_invoke callbacks payload :
  callEachBy invoke callbacks payload = callEach callbacks payload.
Proof.
  induction callbacks as [|callback rest IH]; [done|].
  simpl. destruct payload; [|done]. by rewrite IH.
Qed.

Lemma onRegistersUpdatedBy_invoke msg s :
  onRegistersUpdatedBy invoke msg s = onRegistersUpdated msg s.
Proof.
  unfold onRegistersUpdatedBy, onRegistersUpdated. by rewrite callEachBy_invoke.
Qed.

Lemma onIncomingMessageBy_invoke csMsg s :
  onIncomingMessageBy invoke csMsg s = onIncomingMessage csMsg s.
Proof.
  unfold onIncomingMessageBy, onIncomingMessage, bind, modify.
  destruct (decide _); [|done].
  destruct (CSMessage.operationCode csMsg); try done;
    by rewrite onRegistersUpdatedBy_invoke.
Qed.

(** A callback that unregisters its own registration while it handles an
    update: the value is cached after the callbacks have returned, so the
    property [x] ends with a cached value and no registration, on a
    requester that never lost its service. *)
Lemma unregistering_callback_leaves_cached_value :
  let regID := {| RegID.opID := "x"; RegID.requestID := 1%N |} in
  let unregisters (id : nat) := if decide (id = 1) then [regID] else [] in
  registerEntriesMap_ subscribed !! "x"
    = Some [{| RegEntry.requestID := 1%N; RegEntry.callback := CbUser 1 |}] ∧
  ∃ s',
    onIncomingMessageBy (invokeUnregistering unregisters) statusUpdate subscribed
      = Ret true s' ∧
    callbackCalls s' = [(1, Some [x01; x02])] ∧
    serviceStatus_ s' = Available ∧
    registerEntriesMap_ s' !! "x" = None ∧
    propertiesCache_ s' !! "x" = Some (Some [x01; x02]) ∧
    ¬ cachedAreRegistered s'.
Proof.
  intros regID unregisters. split; [by vm_compute|].
  eexists. split; [vm_compute; reflexivity|].
  split_and!; [by vm_compute..|].
  intros Hcached. destruct (Hcached "x") as (entries & Hreg & _).
  - vm_compute. by eexists.
  - vm_compute in Hreg. discriminate.
Qed.

(** ** Synchronous requests that time out *)

Lemma findFirst_app_match {A} (f : A → bool) (l : list A) (x : A) :
  f x = true → is_Some (findFirst f (l ++ [x])).
Proof.
  intros Hx. induction l as [|y l IH]; simpl.
  - by rewrite Hx.
  - by destruct (f y).
Qed.

Lemma assign_ptr_twice {A} (p : option A) (v w : A) :
  assign_ptr (assign_ptr p v) w = assign_ptr p w.
Proof. by destruct p. Qed.

(** C2 (the code departs from it): a synchronous request, made while the
    service is [Available] and accepted by the client, that gets no answer
    before its timeout.  The call returns a null payload, stores [Timeout]
    through [callStatus] and sends the [Abort] envelope of its request after
    the request itself, but the promise it pushed on [syncRequestPromises_]
    is still on the list afterwards, not satisfied. *)
Theorem timed_out_request_keeps_its_promise
    (s : State) (opID : OpID) (msgContent : CSPayloadIFPtr)
    (callStatus : option ActionCallStatus) (timeout : RequestTimeoutMs) :
  reachable anyOperation s →
  serviceStatus_ s = Available →
  timeout ≠ RequestTimeoutMs_max →
  clientStatus s
    (envelope (serviceID s) opID OpRequest
       (fst (IDManager.allocateNewID (idMgr_ s))) msgContent) = Success →
  ∃ s' abortStatus,
    sendRequest opID msgContent callStatus timeout [] s
      = Ret (None, assign_ptr callStatus Timeout) s' ∧
    sentToServer s' =
      sentToServer s ++
        [(envelope (serviceID s) opID OpRequest
            (fst (IDManager.allocateNewID (idMgr_ s))) msgContent, Success);
         (envelope (serviceID s) opID OpAbort
            (fst (IDManager.allocateNewID (idMgr_ s))) None, abortStatus)] ∧
    (promisesMade s ∉ syncRequestPromises_ s) ∧
    syncRequestPromises_ s' = syncRequestPromises_ s ++ [promisesMade s] ∧
    promiseValues s' !! promisesMade s = None.
Proof.
  intros Hreach Hav Hmax Hsend. unfold serviceID in *.
  destruct (reachable_promisesPending s Hreach) as (P1 & P2 & P3 & P4).
  destruct (allocateNewID_unused (idMgr_ s)) as [Hvalid _].
  set (newID := fst (IDManager.allocateNewID (idMgr_ s))) in *.
  assert (Hfresh : promiseValues s !! promisesMade s = None).
  { destruct (promiseValues s !! promisesMade s) eqn:Hv; [|done].
    assert (promisesMade s < promisesMade s) by (apply P3; by rewrite Hv). lia. }
  assert (Hnew : promisesMade s ∉ syncRequestPromises_ s).
  { intros Hin. destruct (P2 _ Hin). lia. }
  unfold sendRequest. rewrite serviceUnavailable_false by done.
  unfold sendMessageSync, sendMessageAsync, storeAndSendRequestToServer.
  rewrite storeRegEntry_eq. rsimpl. fold newID.
  rewrite createCSMessage_eq, setRequestID_envelope, sendMessageToServer_eq.
  rsimpl. rewrite (clientStatus_ext s) by done. rewrite Hsend.
  destruct (decide (Success ≠ Success)) as [|_]; [done|]. rsimpl.
  unfold RegID.valid at 1. rsimpl. rewrite bool_decide_eq_true_2 by done.
  unfold bind. simpl deliverAll. unfold ret. rsimpl. rewrite Hfresh.
  destruct (decide (timeout = RequestTimeoutMs_max)) as [|_]; [done|].
  unfold abortRequest. unfold RegID.valid. rsimpl.
  rewrite bool_decide_eq_true_2 by done. cbn [negb].
  rewrite lookup_insert_eq.
  destruct (findFirst_app_match (hasRequestID newID)
              (default [] (requestEntriesMap_ s !! opID))
              {| RegEntry.requestID := newID;
                 RegEntry.callback := CbSync (promisesMade s) |})
    as [found Hfound]; [by apply hasRequestID_true|].
  rewrite Hfound. rewrite createCSMessage_eq, setRequestID_envelope.
  rewrite sendMessageToServer_eq. rsimpl.
  eexists _, _. split; [by rewrite assign_ptr_twice|].
  split_and!; [|done|..].
  - destruct (decide (_ = Success)); rsimpl; by rewrite <- app_assoc.
  - by destruct (decide (_ = Success)).
  - by destruct (decide (_ = Success)).
Qed.

Lemma timed_out_request_keeps_its_promise_witness :
  syncRequestPromises_ connected = [] ∧
  ∃ s',
    sendRequest "echo" (Some [x01; x02]) (Some Success) 50%Z [] connected
      = Ret (None, Some Timeout) s' ∧
    sentToServer s' = [(echoRequest, Success); (echoAbort, Success)] ∧
    syncRequestPromises_ s' = [0] ∧
    promiseValues s' !! 0 = None.
Proof.
  split; [reflexivity|].
  destruct (timed_out_request_keeps_its_promise connected "echo"
              (Some [x01; x02]) (Some Success) 50%Z)
    as (s' & abortStatus & Heq & Hsent & _ & Hlist & Hvalue).
  - eapply (reachable_weaken keepsService); [done|].
    repeat (apply reachable_after; [done|]). constructor.
  - by vm_compute.
  - by vm_compute.
  - by vm_compute.
  - exists s'. split_and!; [done| |done..].
    rewrite Hsent. assert (abortStatus = Success) as ->; [|reflexivity].
    assert (Hs' : stateAfter
              (sendRequest "echo" (Some [x01; x02]) (Some Success) 50%Z [] connected)
            = Some s') by (by rewrite Heq).
    vm_compute in Hs'. injection Hs' as <-.
    vm_compute in Hsent. by injection Hsent.
Defined.

(** * Further properties of the requester *)

(** ** Searching and erasing entries *)

Lemma findFirst_split {A} (p : A → bool) (before after : list A) (x : A) :
  p x = true → (∀ y, y ∈ before → p y = false) →
  findFirst p (before ++ x :: after) = Some x.
Proof.
  intros Hx. induction before as [|y before IH]; intros Hb; simpl.
  - by rewrite Hx.
  - rewrite (Hb y) by left. apply IH. intros z Hz. apply Hb. by right.
Qed.

Lemma findFirst_none {A} (p : A → bool) (l : list A) :
  (∀ y, y ∈ l → p y = false) → findFirst p l = None.
Proof.
  induction l as [|y l IH]; intros Hl; simpl; [done|].
  rewrite (Hl y) by left. apply IH. intros z Hz. apply Hl. by right.
Qed.

Lemma eraseFirst_none {A} (p : A → bool) (l : list A) :
  (∀ y, y ∈ l → p y = false) → eraseFirst p l = l.
Proof.
  induction l as [|y l IH]; intros Hl; simpl; [done|].
  rewrite (Hl y) by left. f_equal. apply IH. intros z Hz. apply Hl. by right.
Qed.

(** ** Aborting a request *)

(** X1: [abortRequest] of a valid [RegID] whose entry is pending.  The
    entry is erased from the pending requests of its [OpID], exactly one
    envelope is passed to [sendMessageToServer], the [Abort] carrying the
    request identifier, and its status is stored through [callStatus]; the
    request identifier is given back to the identifier manager only when that
    status is [Success].  The callback of the aborted request is not called,
    and the service status is not consulted. *)
Theorem abortRequest_pending
    (s : State) (regID : RegID.t) (callStatus : option ActionCallStatus)
    (before after : list RegEntry.t) (entry : RegEntry.t) :
  RegID.valid regID = true →
  requestEntriesMap_ s !! RegID.opID regID = Some (before ++ entry :: after) →
  RegEntry.requestID entry = RegID.requestID regID →
  (∀ e, e ∈ before → RegEntry.requestID e ≠ RegID.requestID regID) →
  let abort := envelope (serviceID s) (RegID.opID regID) OpAbort
                 (RegID.requestID regID) None in
  let status := clientStatus s abort in
  ∃ s', abortRequest regID callStatus s = (assign_ptr callStatus status, s') ∧
    requestEntriesMap_ s' =
      <[RegID.opID regID := before ++ after]> (requestEntriesMap_ s) ∧
    sentToServer s' = sentToServer s ++ [(abort, status)] ∧
    idMgr_ s' = (if decide (status = Success)
                 then RegID.reclaimID regID (idMgr_ s) else idMgr_ s) ∧
    callbackCalls s' = callbackCalls s ∧
    registerEntriesMap_ s' = registerEntriesMap_ s ∧
    syncRequestPromises_ s' = syncRequestPromises_ s.
Proof.
  intros Hvalid Hreq Hentry Hbefore abort status. subst abort status.
  unfold abortRequest, serviceID. rewrite Hvalid, Hreq. cbn [negb].
  rewrite findFirst_split; [|by apply hasRequestID_true|];
    [|by intros e He; apply hasRequestID_false, Hbefore].
  rewrite eraseFirst_split; [|by apply hasRequestID_true|];
    [|by intros e He; apply hasRequestID_false, Hbefore].
  rewrite createCSMessage_eq, setRequestID_envelope, sendMessageToServer_eq.
  rsimpl. rewrite (clientStatus_ext s) by done.
  eexists. split; [reflexivity|].
  destruct (decide (_ = Success)); by rsimpl.
Qed.

Lemma abortRequest_pending_witness :
  let s := after (DoSendRequestAsync "echo" (Some [x01; x02]) (Some 5) (Some Success))
             connected in
  let regID := {| RegID.opID := "echo"; RegID.requestID := 1%N |} in
  requestEntriesMap_ s !! "echo"
    = Some [{| RegEntry.requestID := 1%N; RegEntry.callback := CbUser 5 |}] ∧
  ∃ s', abortRequest regID (Some FailedUnknown) s = (Some Success, s') ∧
    requestEntriesMap_ s' = <["echo" := []]> (requestEntriesMap_ s) ∧
    sentToServer s' = sentToServer s ++ [(echoAbort, Success)] ∧
    callbackCalls s' = callbackCalls s.
Proof.
  intros s regID. split; [by vm_compute|].
  destruct (abortRequest_pending s regID (Some FailedUnknown) [] []
              {| RegEntry.requestID := 1%N; RegEntry.callback := CbUser 5 |})
    as (s' & Heq & Hreq & Hsent & _ & Hcalls & _); [by vm_compute..| |].
  - intros e He. by apply elem_of_nil in He.
  - exists s'. by split_and!.
Defined.

(** X2: [abortRequest] without a pending entry.  An invalid [RegID] is
    answered with [InvalidParam]; a valid one that matches no pending
    request of its [OpID] is ignored without any status being stored.  In
    both cases the requester is left as it was and nothing is sent. *)
Theorem abortRequest_without_entry
    (s : State) (regID : RegID.t) (callStatus : option ActionCallStatus) :
  (RegID.valid regID = false →
     abortRequest regID callStatus s = (assign_ptr callStatus InvalidParam, s)) ∧
  (RegID.valid regID = true →
     (∀ e, e ∈ default [] (requestEntriesMap_ s !! RegID.opID regID) →
           RegEntry.requestID e ≠ RegID.requestID regID) →
     abortRequest regID callStatus s = (callStatus, s)).
Proof.
  unfold abortRequest. split.
  - by intros ->.
  - intros -> Hnone. cbn [negb].
    destruct (requestEntriesMap_ s !! RegID.opID regID) as [l|]; [|done].
    rewrite findFirst_none; [done|].
    intros e He. by apply hasRequestID_false, Hnone.
Qed.

Lemma abortRequest_without_entry_witness :
  abortRequest RegID.empty (Some Success) connected = (Some InvalidParam, connected) ∧
  abortRequest {| RegID.opID := "echo"; RegID.requestID := 9%N |} (Some Success)
    connected = (Some Success, connected).
Proof.
  split.
  - by apply (abortRequest_without_entry connected RegID.empty (Some Success)).
  - apply (abortRequest_without_entry connected
             {| RegID.opID := "echo"; RegID.requestID := 9%N |} (Some Success));
      [done|]. intros e He. vm_compute in He. by apply elem_of_nil in He.
Defined.

Lemma sendMessageAsync_accepted
    (opID : OpID) (opCode : OpCode) (content : CSPayloadIFPtr) (callback : Callback)
    (callStatus : option ActionCallStatus) (s : State) :
  let newID := fst (IDManager.allocateNewID (idMgr_ s)) in
  clientStatus s (envelope (sid_ s) opID opCode newID content) = Success →
  sendMessageAsync opID opCode content callback callStatus s =
    (({| RegID.opID := opID; RegID.requestID := newID |},
      assign_ptr callStatus Success),
     set_sentToServer
       (sentToServer s ++ [(envelope (sid_ s) opID opCode newID content, Success)])
       (set_requestEntriesMap_
          (<[opID := default [] (requestEntriesMap_ s !! opID)
                     ++ [{| RegEntry.requestID := newID;
                            RegEntry.callback := callback |}]]>
             (requestEntriesMap_ s))
          (set_idMgr_ (newID :: idMgr_ s) s))).
Proof.
  intros newID Hsend.
  unfold sendMessageAsync, storeAndSendRequestToServer.
  rewrite storeRegEntry_eq. rsimpl. fold newID.
  rewrite createCSMessage_eq, setRequestID_envelope, sendMessageToServer_eq.
  rsimpl. rewrite (clientStatus_ext s) by done. rewrite Hsend.
  by destruct (decide (Success ≠ Success)).
Qed.

Lemma sendMessageAsync_rejected
    (opID : OpID) (opCode : OpCode) (content : CSPayloadIFPtr) (callback : Callback)
    (callStatus : option ActionCallStatus) (s : State) :
  let newID := fst (IDManager.allocateNewID (idMgr_ s)) in
  let status := clientStatus s (envelope (sid_ s) opID opCode newID content) in
  let old := default [] (requestEntriesMap_ s !! opID) in
  status ≠ Success →
  (∀ e, e ∈ old → RegEntry.requestID e ≠ newID) →
  sendMessageAsync opID opCode content callback callStatus s =
    ((RegID.empty, assign_ptr callStatus status),
     set_requestEntriesMap_
       (if decide (old = []) then delete opID (requestEntriesMap_ s)
        else <[opID := old]> (requestEntriesMap_ s))
       (set_idMgr_ (IDManager.reclaimUsedID newID (newID :: idMgr_ s))
          (set_sentToServer
             (sentToServer s ++ [(envelope (sid_ s) opID opCode newID content, status)])
             s))).
Proof.
  intros newID status old Hsend Hold. subst status.
  unfold sendMessageAsync, storeAndSendRequestToServer.
  rewrite storeRegEntry_eq. rsimpl. fold newID.
  rewrite createCSMessage_eq, setRequestID_envelope, sendMessageToServer_eq.
  rsimpl. rewrite (clientStatus_ext s) by done.
  destruct (decide (_ ≠ Success)) as [_|]; [|done].
  erewrite removeRegEntry_eq; [|rsimpl; apply lookup_insert_eq].
  rsimpl. fold old.
  replace (old ++ [_]) with (old ++ {| RegEntry.requestID := newID;
                                       RegEntry.callback := callback |} :: []) by done.
  rewrite eraseFirst_split; [|by apply hasRequestID_true|];
    [|by intros e He; apply hasRequestID_false, Hold].
  rewrite app_nil_r. unfold RegID.clear, RegID.reclaimID. rsimpl.
  destruct (decide (old = [])).
  - by rewrite delete_insert_eq.
  - by rewrite insert_insert_eq.
Qed.

(** ** Asynchronous requests *)

(** X3: [sendRequestAsync] while the service is [Available] and the client
    accepts the envelope.  The call returns a valid [RegID] made of the
    [OpID] and a new request identifier and stores [Success] through
    [callStatus]; one entry with that identifier and the callback is appended
    to the pending requests of the [OpID]; exactly one envelope, the
    [Request] with that identifier and the content, is passed to
    [sendMessageToServer]; the callback is not called. *)
Theorem sendRequestAsync_accepted
    (s : State) (opID : OpID) (msgContent : CSPayloadIFPtr) (callback : Callback)
    (callStatus : option ActionCallStatus) :
  let newID := fst (IDManager.allocateNewID (idMgr_ s)) in
  let request := envelope (serviceID s) opID OpRequest newID msgContent in
  serviceStatus_ s = Available →
  clientStatus s request = Success →
  ∃ s',
    sendRequestAsync opID msgContent callback callStatus s =
      (({| RegID.opID := opID; RegID.requestID := newID |},
        assign_ptr callStatus Success), s') ∧
    RegID.valid {| RegID.opID := opID; RegID.requestID := newID |} = true ∧
    requestEntriesMap_ s' =
      <[opID := default [] (requestEntriesMap_ s !! opID)
                ++ [{| RegEntry.requestID := newID; RegEntry.callback := callback |}]]>
        (requestEntriesMap_ s) ∧
    sentToServer s' = sentToServer s ++ [(request, Success)] ∧
    callbackCalls s' = callbackCalls s ∧
    registerEntriesMap_ s' = registerEntriesMap_ s.
Proof.
  intros newID request Hav Hsend. subst request. unfold serviceID in *.
  unfold sendRequestAsync. rewrite serviceUnavailable_false by done.
  rewrite sendMessageAsync_accepted by done. fold newID.
  eexists. split; [reflexivity|]. split_and!; try done.
  unfold RegID.valid. rsimpl. apply bool_decide_eq_true_2.
  apply allocateNewID_unused.
Qed.

Lemma sendRequestAsync_accepted_witness :
  ∃ s',
    sendRequestAsync "echo" (Some [x01; x02]) (CbUser 5) (Some FailedUnknown) connected =
      (({| RegID.opID := "echo"; RegID.requestID := 1%N |}, Some Success), s') ∧
    requestEntriesMap_ s' !! "echo"
      = Some [{| RegEntry.requestID := 1%N; RegEntry.callback := CbUser 5 |}] ∧
    sentToServer s' = [(echoRequest, Success)] ∧
    callbackCalls s' = [].
Proof.
  destruct (sendRequestAsync_accepted connected "echo" (Some [x01; x02]) (CbUser 5)
              (Some FailedUnknown))
    as (s' & Heq & _ & Hreq & Hsent & Hcalls & _); [by vm_compute..|].
  exists s'. split_and!; [done| |done..].
  rewrite Hreq. by vm_compute.
Defined.

(** X4: [sendRequestAsync] while the service is [Available] but the
    envelope is not taken ([sendMessageToServer] returns a status other than
    [Success], as it does when the client is gone).  The call returns the
    invalid [RegID] and stores that status through [callStatus]; the entry
    it had stored is taken back, so that every [OpID] has the pending
    requests it had before (given that none of them carries the new
    identifier); the callback is not called. *)
Theorem sendRequestAsync_rejected
    (s : State) (opID : OpID) (msgContent : CSPayloadIFPtr) (callback : Callback)
    (callStatus : option ActionCallStatus) :
  let newID := fst (IDManager.allocateNewID (idMgr_ s)) in
  let request := envelope (serviceID s) opID OpRequest newID msgContent in
  let status := clientStatus s request in
  serviceStatus_ s = Available →
  status ≠ Success →
  (∀ e, e ∈ default [] (requestEntriesMap_ s !! opID) → RegEntry.requestID e ≠ newID) →
  ∃ s',
    sendRequestAsync opID msgContent callback callStatus s =
      ((RegID.empty, assign_ptr callStatus status), s') ∧
    RegID.valid RegID.empty = false ∧
    (∀ op, default [] (requestEntriesMap_ s' !! op)
           = default [] (requestEntriesMap_ s !! op)) ∧
    sentToServer s' = sentToServer s ++ [(request, status)] ∧
    callbackCalls s' = callbackCalls s.
Proof.
  intros newID request status Hav Hsend Hold. subst request status.
  unfold serviceID in *.
  unfold sendRequestAsync. rewrite serviceUnavailable_false by done.
  rewrite sendMessageAsync_rejected by done. fold newID.
  eexists. split; [reflexivity|]. split_and!; try done. rsimpl.
  intros op. destruct (decide (op = opID)) as [->|Hne].
  - destruct (decide (default [] (requestEntriesMap_ s !! opID) = [])) as [He|He].
    + by rewrite lookup_delete_eq, He.
    + by rewrite lookup_insert_eq.
  - destruct (decide (default [] (requestEntriesMap_ s !! opID) = [])).
    + by rewrite lookup_delete_ne.
    + by rewrite lookup_insert_ne.
Qed.

Lemma sendRequestAsync_rejected_witness :
  let s := orphaned in
  ∃ s',
    sendRequestAsync "echo" (Some [x01; x02]) (CbUser 5) (Some Success) s =
      ((RegID.empty, Some ReceiverUnavailable), s') ∧
    (∀ op, default [] (requestEntriesMap_ s' !! op)
           = default [] (requestEntriesMap_ s !! op)) ∧
    sentToServer s' = [(echoRequest, ReceiverUnavailable)] ∧
    callbackCalls s' = [].
Proof.
  intros s.
  destruct (sendRequestAsync_rejected s "echo" (Some [x01; x02]) (CbUser 5)
              (Some Success))
    as (s' & Heq & _ & Hreq & Hsent & Hcalls); [by vm_compute..| |].
  - intros e He. vm_compute in He. by apply elem_of_nil in He.
  - exists s'. by split_and!.
Defined.

(** ** Answers from the server *)

Lemma onRequestResult_matched (s : State) (msg : CSMessage.t)
    (before after : list RegEntry.t) (entry : RegEntry.t) :
  requestEntriesMap_ s !! CSMessage.operationID msg = Some (before ++ entry :: after) →
  RegEntry.requestID entry = CSMessage.requestID msg →
  (∀ e, e ∈ before → RegEntry.requestID e ≠ CSMessage.requestID msg) →
  onRequestResult msg s =
    let s1 := set_requestEntriesMap_
                (<[CSMessage.operationID msg := before ++ after]> (requestEntriesMap_ s)) s in
    match RegEntry.callback entry with
    | CbNull => Ret tt s1
    | callback => invoke callback (CSMessage.payload msg) s1
    end.
Proof.
  intros Hreq Hentry Hbefore. unfold onRequestResult. rewrite Hreq.
  rewrite findFirst_split; [|by apply hasRequestID_true|];
    [|by intros e He; apply hasRequestID_false, Hbefore].
  rewrite eraseFirst_split; [|by apply hasRequestID_true|];
    [|by intros e He; apply hasRequestID_false, Hbefore].
  by destruct (RegEntry.callback entry).
Qed.

Lemma onRequestResult_unmatched (s : State) (msg : CSMessage.t) :
  (∀ e, e ∈ default [] (requestEntriesMap_ s !! CSMessage.operationID msg) →
        RegEntry.requestID e ≠ CSMessage.requestID msg) →
  onRequestResult msg s =
    Ret tt (MAF_LOGGER LogWarn "The request entry could not be found" s).
Proof.
  intros Hnone. unfold onRequestResult.
  destruct (requestEntriesMap_ s !! CSMessage.operationID msg) as [l|]; [|done].
  rewrite findFirst_none; [done|].
  intros e He. by apply hasRequestID_false, Hnone.
Qed.

(** X5: an answer ([Request] or [StatusGet] envelope of this service) whose
    request identifier is that of one pending request of its [OpID].  The
    callback stored with the request is called once, with the payload of
    the envelope as it is, and the entry is erased; nothing is sent.  When
    the same envelope comes in again it is dropped: no callback is called
    and the pending requests stay as they are. *)
Theorem answer_calls_back_once
    (s : State) (msg : CSMessage.t) (before after : list RegEntry.t)
    (entry : RegEntry.t) (id : nat) :
  CSMessage.serviceID msg = serviceID s →
  CSMessage.operationCode msg = OpRequest ∨ CSMessage.operationCode msg = OpStatusGet →
  requestEntriesMap_ s !! CSMessage.operationID msg = Some (before ++ entry :: after) →
  RegEntry.requestID entry = CSMessage.requestID msg →
  RegEntry.callback entry = CbUser id →
  (∀ e, e ∈ before ++ after → RegEntry.requestID e ≠ CSMessage.requestID msg) →
  ∃ s' s'',
    onIncomingMessage msg s = Ret true s' ∧
    callbackCalls s' = callbackCalls s ++ [(id, CSMessage.payload msg)] ∧
    requestEntriesMap_ s' =
      <[CSMessage.operationID msg := before ++ after]> (requestEntriesMap_ s) ∧
    sentToServer s' = sentToServer s ∧
    registerEntriesMap_ s' = registerEntriesMap_ s ∧
    propertiesCache_ s' = propertiesCache_ s ∧
    onIncomingMessage msg s' = Ret true s'' ∧
    callbackCalls s'' = callbackCalls s' ∧
    requestEntriesMap_ s'' = requestEntriesMap_ s'.
Proof.
  intros Hsid Hcode Hreq Hentry Hcb Hothers. unfold serviceID in *.
  assert (Hfirst : ∃ s', onIncomingMessage msg s = Ret true s' ∧
            s' = set_callbackCalls (callbackCalls s ++ [(id, CSMessage.payload msg)])
                   (set_requestEntriesMap_
                      (<[CSMessage.operationID msg := before ++ after]>
                         (requestEntriesMap_ s))
                      (MAF_LOGGER LogInfo "New Incoming message from server" s))).
  { unfold onIncomingMessage, bind at 1, modify at 1.
    unfold serviceID. rsimpl. destruct (decide _) as [_|]; [|done].
    eexists. split; [|reflexivity].
    assert (Hres : (onRequestResult msg ;; ret true)
                     (MAF_LOGGER LogInfo "New Incoming message from server" s)
                   = Ret true
                       (set_callbackCalls
                          (callbackCalls s ++ [(id, CSMessage.payload msg)])
                          (set_requestEntriesMap_
                             (<[CSMessage.operationID msg := before ++ after]>
                                (requestEntriesMap_ s))
                             (MAF_LOGGER LogInfo "New Incoming message from server" s)))).
    { unfold bind.
      rewrite (onRequestResult_matched _ msg before after entry); rsimpl; try done.
      - by rewrite Hcb.
      - intros e He. apply Hothers, elem_of_app. by left. }
    by destruct Hcode as [-> | ->]. }
  destruct Hfirst as (s' & Hrun & Hs').
  assert (Hsecond : onIncomingMessage msg s' =
            Ret true (MAF_LOGGER LogWarn "The request entry could not be found"
                        (MAF_LOGGER LogInfo "New Incoming message from server" s'))).
  { unfold onIncomingMessage, bind at 1, modify at 1.
    unfold serviceID. rsimpl.
    assert (Hsid' : CSMessage.serviceID msg = sid_ s') by (by rewrite Hs').
    destruct (decide _) as [_|]; [|done].
    assert (Hres : (onRequestResult msg ;; ret true)
                     (MAF_LOGGER LogInfo "New Incoming message from server" s')
                   = Ret true
                       (MAF_LOGGER LogWarn "The request entry could not be found"
                          (MAF_LOGGER LogInfo "New Incoming message from server" s'))).
    { unfold bind. rewrite onRequestResult_unmatched; [done|].
      rsimpl. rewrite Hs'. rsimpl. rewrite lookup_insert_eq. by rsimpl. }
    by destruct Hcode as [-> | ->]. }
  eexists s', _. split_and!; [done|by rewrite Hs'..|exact Hsecond|done|done].
Qed.

Lemma answer_calls_back_once_witness :
  let s := after (DoSendRequestAsync "echo" (Some [x01; x02]) (Some 5) (Some Success))
             connected in
  let answer := envelope "svc" "echo" OpRequest 1%N (Some [x03]) in
  ∃ s' s'',
    onIncomingMessage answer s = Ret true s' ∧
    callbackCalls s' = [(5, Some [x03])] ∧
    requestEntriesMap_ s' !! "echo" = Some [] ∧
    onIncomingMessage answer s' = Ret true s'' ∧
    callbackCalls s'' = [(5, Some [x03])].
Proof.
  intros s answer.
  destruct (answer_calls_back_once s answer [] []
              {| RegEntry.requestID := 1%N; RegEntry.callback := CbUser 5 |} 5)
    as (s' & s'' & H1 & Hcalls & Hreq & _ & _ & _ & H2 & Hcalls' & _);
    [by vm_compute|by left|by vm_compute|done|done| |].
  - intros e He. by apply elem_of_nil in He.
  - exists s', s''. split_and!; [done|done| |done|by rewrite Hcalls'].
    rewrite Hreq. apply lookup_insert_eq.
Defined.

(** X6: an answer ([Request] or [StatusGet] envelope of this service) that
    matches no pending request of its [OpID], as one that arrives after its
    request was aborted.  It is reported as handled; apart from the two log
    lines the requester is as before: no callback is called. *)
Theorem answer_without_request_is_dropped (s : State) (msg : CSMessage.t) :
  CSMessage.serviceID msg = serviceID s →
  CSMessage.operationCode msg = OpRequest ∨ CSMessage.operationCode msg = OpStatusGet →
  (∀ e, e ∈ default [] (requestEntriesMap_ s !! CSMessage.operationID msg) →
        RegEntry.requestID e ≠ CSMessage.requestID msg) →
  onIncomingMessage msg s =
    Ret true (MAF_LOGGER LogWarn "The request entry could not be found"
                (MAF_LOGGER LogInfo "New Incoming message from server" s)).
Proof.
  intros Hsid Hcode Hnone. unfold serviceID in *.
  unfold onIncomingMessage, bind at 1, modify at 1. unfold serviceID. rsimpl.
  destruct (decide _) as [_|]; [|done].
  assert (Hres : (onRequestResult msg ;; ret true)
                   (MAF_LOGGER LogInfo "New Incoming message from server" s)
                 = Ret true
                     (MAF_LOGGER LogWarn "The request entry could not be found"
                        (MAF_LOGGER LogInfo "New Incoming message from server" s))).
  { unfold bind. by rewrite onRequestResult_unmatched. }
  by destruct Hcode as [-> | ->].
Qed.

Lemma answer_without_request_is_dropped_witness :
  onIncomingMessage (envelope "svc" "echo" OpRequest 7%N (Some [x03])) connected =
    Ret true (MAF_LOGGER LogWarn "The request entry could not be found"
                (MAF_LOGGER LogInfo "New Incoming message from server" connected)).
Proof.
  apply (answer_without_request_is_dropped connected
           (envelope "svc" "echo" OpRequest 7%N (Some [x03]))); [done|by left|].
  intros e He. vm_compute in He. by apply elem_of_nil in He.
Defined.

(** X7: envelopes that are not for this requester.  One of another service
    is reported as handled and changes nothing but the log.  One of this
    service whose operation code is none of [SignalRegister],
    [StatusRegister], [Request] and [StatusGet] is reported as not handled;
    it changes nothing but the log either. *)
Theorem onIncomingMessage_not_for_requester (s : State) (msg : CSMessage.t) :
  (CSMessage.serviceID msg ≠ serviceID s →
     onIncomingMessage msg s =
       Ret true (MAF_LOGGER LogInfo "New Incoming message from server" s)) ∧
  (CSMessage.serviceID msg = serviceID s →
   CSMessage.operationCode msg ∉
     [OpSignalRegister; OpStatusRegister; OpRequest; OpStatusGet] →
     onIncomingMessage msg s =
       Ret false (MAF_LOGGER LogError "Invalid RESPONSE operation code"
                    (MAF_LOGGER LogInfo "New Incoming message from server" s))).
Proof.
  unfold onIncomingMessage, bind at 1, modify at 1. unfold bind at 3, modify.
  unfold serviceID. rsimpl. split.
  - intros Hsid. by destruct (decide _).
  - intros Hsid Hcode. destruct (decide _) as [_|]; [|done].
    destruct (CSMessage.operationCode msg); try done; exfalso; apply Hcode;
      repeat first [ by left | right ].
Qed.

Lemma onIncomingMessage_not_for_requester_witness :
  onIncomingMessage (envelope "other" "echo" OpRequest 1%N None) connected =
    Ret true (MAF_LOGGER LogInfo "New Incoming message from server" connected) ∧
  onIncomingMessage (envelope "svc" "echo" OpAbort 1%N None) connected =
    Ret false (MAF_LOGGER LogError "Invalid RESPONSE operation code"
                 (MAF_LOGGER LogInfo "New Incoming message from server" connected)).
Proof.
  split.
  - by apply (onIncomingMessage_not_for_requester connected
                (envelope "other" "echo" OpRequest 1%N None)).
  - apply (onIncomingMessage_not_for_requester connected
             (envelope "svc" "echo" OpAbort 1%N None)); [done|].
    intros Hin. repeat (apply elem_of_cons in Hin as [Hin|Hin]; [done|]).
    by apply elem_of_nil in Hin.
Defined.

(** ** Updates from the server *)

Lemma set_callbackCalls_same (s : State) :
  set_callbackCalls (callbackCalls s) s = s.
Proof. by destruct s. Qed.

Lemma callEach_users (ids : list nat) (p : list byte) (s : State) :
  callEach (CbUser <$> ids) (Some p) s =
    Ret tt (set_callbackCalls (callbackCalls s ++ ((λ id, (id, Some p)) <$> ids)) s).
Proof.
  revert s. induction ids as [|id ids IH]; intros s.
  - simpl. by rewrite app_nil_r, set_callbackCalls_same.
  - simpl. unfold bind, modify. rewrite IH. rsimpl. unfold clone.
    by rewrite <- app_assoc.
Qed.

Lemma onRegistersUpdated_users (s : State) (msg : CSMessage.t)
    (entries : list RegEntry.t) (ids : list nat) (p : list byte) :
  registerEntriesMap_ s !! CSMessage.operationID msg = Some entries →
  RegEntry.callback <$> entries = CbUser <$> ids →
  CSMessage.payload msg = Some p →
  onRegistersUpdated msg s =
    Ret (negb (bool_decide (entries = [])))
        (set_callbackCalls (callbackCalls s ++ ((λ id, (id, Some p)) <$> ids)) s).
Proof.
  intros Hreg Hcbs Hp. unfold onRegistersUpdated. rewrite Hreg, Hp. rsimpl.
  rewrite Hcbs. unfold bind. rewrite callEach_users. unfold ret. do 2 f_equal.
  rewrite <- Hcbs. by destruct entries.
Qed.

Lemma onIncomingMessage_update
    (s : State) (msg : CSMessage.t) (entries : list RegEntry.t) (ids : list nat)
    (p : list byte) :
  CSMessage.serviceID msg = serviceID s →
  registerEntriesMap_ s !! CSMessage.operationID msg = Some entries →
  entries ≠ [] →
  RegEntry.callback <$> entries = CbUser <$> ids →
  CSMessage.payload msg = Some p →
  CSMessage.operationCode msg = OpSignalRegister
    ∨ CSMessage.operationCode msg = OpStatusRegister →
  let s1 := set_callbackCalls (callbackCalls s ++ ((λ id, (id, Some p)) <$> ids))
              (MAF_LOGGER LogInfo "New Incoming message from server" s) in
  onIncomingMessage msg s =
    Ret true (if decide (CSMessage.operationCode msg = OpStatusRegister)
              then cachePropertyStatus (CSMessage.operationID msg) (Some p) s1
              else s1).
Proof.
  intros Hsid Hreg Hne Hcbs Hp Hcode s1. subst s1. unfold serviceID in *.
  unfold onIncomingMessage, bind at 1, modify at 1. unfold serviceID. rsimpl.
  destruct (decide (_ = sid_ s)) as [_|]; [|done].
  pose proof (onRegistersUpdated_users
                (MAF_LOGGER LogInfo "New Incoming message from server" s)
                msg entries ids p Hreg Hcbs Hp) as Hupd.
  rewrite bool_decide_eq_false_2 in Hupd by done. cbn [negb] in Hupd.
  destruct Hcode as [Hcode | Hcode]; rewrite Hcode; unfold bind; rewrite Hupd;
    rsimpl; [done|]. by rewrite Hp.
Qed.

(** X8: an update ([SignalRegister] or [StatusRegister] envelope of this
    service, with a payload) for an [OpID] that has registrations, all with
    callbacks of the user.  Every registered callback is called once with
    the payload, in the order of registration, and the envelope is reported
    as handled; nothing is sent and the registrations stay.  A
    [StatusRegister] update also becomes the cached value of the [OpID]; a
    [SignalRegister] update leaves the cache alone. *)
Theorem update_reaches_every_registration
    (s : State) (msg : CSMessage.t) (entries : list RegEntry.t) (ids : list nat)
    (p : list byte) :
  CSMessage.serviceID msg = serviceID s →
  registerEntriesMap_ s !! CSMessage.operationID msg = Some entries →
  entries ≠ [] →
  RegEntry.callback <$> entries = CbUser <$> ids →
  CSMessage.payload msg = Some p →
  CSMessage.operationCode msg = OpSignalRegister
    ∨ CSMessage.operationCode msg = OpStatusRegister →
  ∃ s',
    onIncomingMessage msg s = Ret true s' ∧
    callbackCalls s' = callbackCalls s ++ ((λ id, (id, Some p)) <$> ids) ∧
    propertiesCache_ s' =
      (if decide (CSMessage.operationCode msg = OpStatusRegister)
       then <[CSMessage.operationID msg := Some p]> (propertiesCache_ s)
       else propertiesCache_ s) ∧
    registerEntriesMap_ s' = registerEntriesMap_ s ∧
    requestEntriesMap_ s' = requestEntriesMap_ s ∧
    sentToServer s' = sentToServer s.
Proof.
  intros Hsid Hreg Hne Hcbs Hp Hcode.
  rewrite (onIncomingMessage_update s msg entries ids p) by done.
  eexists. split; [reflexivity|].
  destruct (decide (_ = OpStatusRegister)); by rsimpl.
Qed.

Lemma update_reaches_every_registration_witness :
  ∃ s',
    onIncomingMessage statusUpdate subscribedTwice = Ret true s' ∧
    callbackCalls s' = [(1, Some [x01; x02]); (2, Some [x01; x02])] ∧
    propertiesCache_ s' !! "x" = Some (Some [x01; x02]) ∧
    sentToServer s' = sentToServer subscribedTwice.
Proof.
  destruct (update_reaches_every_registration subscribedTwice statusUpdate
              [{| RegEntry.requestID := 1%N; RegEntry.callback := CbUser 1 |};
               {| RegEntry.requestID := 2%N; RegEntry.callback := CbUser 2 |}]
              [1; 2] [x01; x02])
    as (s' & Heq & Hcalls & Hcache & _ & _ & Hsent);
    [by vm_compute|by vm_compute|done|done|done|by right|].
  exists s'. split_and!; [done|done| |done].
  rewrite Hcache. by vm_compute.
Defined.

(** X9: a value pushed by the server is served from the cache.  After a
    [StatusRegister] update for an [OpID] with registrations, the
    synchronous [getStatus] of that [OpID] returns the pushed payload at
    once: the requester is left as it is, so nothing is sent, and
    [callStatus] is not written. *)
Theorem pushed_status_is_served_from_cache
    (s : State) (msg : CSMessage.t) (entries : list RegEntry.t) (ids : list nat)
    (p : list byte) :
  CSMessage.serviceID msg = serviceID s →
  CSMessage.operationCode msg = OpStatusRegister →
  registerEntriesMap_ s !! CSMessage.operationID msg = Some entries →
  entries ≠ [] →
  RegEntry.callback <$> entries = CbUser <$> ids →
  CSMessage.payload msg = Some p →
  ∃ s',
    onIncomingMessage msg s = Ret true s' ∧
    ∀ callStatus timeout meanwhile,
      getStatus (CSMessage.operationID msg) callStatus timeout meanwhile s'
        = Ret (Some p, callStatus) s'.
Proof.
  intros Hsid Hcode Hreg Hne Hcbs Hp.
  rewrite (onIncomingMessage_update s msg entries ids p); [|done..|by right].
  rewrite decide_True by done.
  eexists. split; [reflexivity|]. intros callStatus timeout meanwhile.
  unfold getStatus, cachedPropertyUpToDate, cachePropertyStatus. rsimpl.
  rewrite Hreg, bool_decide_eq_true_2 by (by eexists).
  unfold bind, getCachedProperty. rsimpl. by rewrite lookup_insert_eq.
Qed.

Lemma pushed_status_is_served_from_cache_witness :
  ∃ s',
    onIncomingMessage statusUpdate subscribed = Ret true s' ∧
    ∀ callStatus timeout meanwhile,
      getStatus "x" callStatus timeout meanwhile s'
        = Ret (Some [x01; x02], callStatus) s'.
Proof.
  apply (pushed_status_is_served_from_cache subscribed statusUpdate
           [{| RegEntry.requestID := 1%N; RegEntry.callback := CbUser 1 |}]
           [1] [x01; x02]); by vm_compute.
Defined.

(** X10: updates at the edges.  An update ([SignalRegister] or
    [StatusRegister] envelope of this service) for an [OpID] without
    registrations is reported as handled and changes nothing but the log: no
    callback is called and a [StatusRegister] value is not cached.  An
    update that carries no payload for an [OpID] that has registrations
    makes the requester call [clone] through a null pointer. *)
Theorem update_edge_cases (s : State) (msg : CSMessage.t) :
  CSMessage.serviceID msg = serviceID s →
  CSMessage.operationCode msg = OpSignalRegister
    ∨ CSMessage.operationCode msg = OpStatusRegister →
  (registerEntriesMap_ s !! CSMessage.operationID msg = None →
     onIncomingMessage msg s =
       Ret true (MAF_LOGGER LogInfo "New Incoming message from server" s)) ∧
  (∀ entries,
     registerEntriesMap_ s !! CSMessage.operationID msg = Some entries →
     entries ≠ [] → CSMessage.payload msg = None →
     onIncomingMessage msg s = Undefined).
Proof.
  intros Hsid Hcode. unfold serviceID in *.
  unfold onIncomingMessage, bind at 1, modify at 1. unfold serviceID. rsimpl.
  destruct (decide (_ = sid_ s)) as [_|]; [|done]. split.
  - intros Hreg.
    assert (Hupd : onRegistersUpdated msg
                     (MAF_LOGGER LogInfo "New Incoming message from server" s)
                   = Ret false (MAF_LOGGER LogInfo "New Incoming message from server" s)).
    { unfold onRegistersUpdated. rsimpl. by rewrite Hreg. }
    destruct Hcode as [-> | ->]; unfold bind; by rewrite Hupd.
  - intros entries Hreg Hne Hp.
    assert (Hupd : onRegistersUpdated msg
                     (MAF_LOGGER LogInfo "New Incoming message from server" s)
                   = Undefined).
    { unfold onRegistersUpdated. rsimpl. rewrite Hreg, Hp.
      by destruct entries. }
    destruct Hcode as [-> | ->]; unfold bind; by rewrite Hupd.
Qed.

Lemma update_edge_cases_witness :
  onIncomingMessage statusUpdate connected =
    Ret true (MAF_LOGGER LogInfo "New Incoming message from server" connected) ∧
  onIncomingMessage (envelope "svc" "x" OpStatusRegister 1%N None) subscribed
    = Undefined.
Proof.
  split.
  - by apply (update_edge_cases connected statusUpdate); [|right|].
  - eapply (update_edge_cases subscribed
              (envelope "svc" "x" OpStatusRegister 1%N None)); [done|by right| | |done].
    + by vm_compute.
    + done.
Defined.

(** ** Giving up registrations *)

(** X11: [unregisterAll].  While the service is not [Available] it answers
    [ServiceUnavailable] and leaves the requester as it is.  Otherwise it
    answers [Success] whatever becomes of the envelope: the [OpID] leaves
    the registrations and the property cache, and exactly one envelope, the
    [Unregister] of the [OpID] with the invalid request identifier, is
    passed to [sendMessageToServer], whether or not there was a
    registration. *)
Theorem unregisterAll_spec (s : State) (propertyID : OpID) :
  (serviceStatus_ s ≠ Available →
     unregisterAll propertyID s = (ServiceUnavailable, s)) ∧
  (serviceStatus_ s = Available →
     let message := envelope (serviceID s) propertyID OpUnregister RequestIDInvalid None in
     ∃ s', unregisterAll propertyID s = (Success, s') ∧
       registerEntriesMap_ s' = delete propertyID (registerEntriesMap_ s) ∧
       propertiesCache_ s' = delete propertyID (propertiesCache_ s) ∧
       sentToServer s' = sentToServer s ++ [(message, clientStatus s message)] ∧
       requestEntriesMap_ s' = requestEntriesMap_ s ∧
       callbackCalls s' = callbackCalls s).
Proof.
  unfold unregisterAll, serviceUnavailable. split.
  - intros Hst. by rewrite bool_decide_eq_true_2.
  - intros Hst. rewrite bool_decide_eq_false_2 by (by intros ?).
    rewrite createCSMessage_eq, sendMessageToServer_eq. unfold removeCachedProperty.
    rsimpl. rewrite (clientStatus_ext s) by done.
    eexists. split; [reflexivity|]. by rsimpl.
Qed.

Lemma unregisterAll_spec_witness :
  unregisterAll "x" disconnected = (ServiceUnavailable, disconnected) ∧
  ∃ s', unregisterAll "x" informed = (Success, s') ∧
    registerEntriesMap_ s' !! "x" = None ∧
    propertiesCache_ s' !! "x" = None ∧
    sentToServer s' = sentToServer informed ++
      [(envelope "svc" "x" OpUnregister RequestIDInvalid None, Success)].
Proof.
  split.
  - by apply (unregisterAll_spec disconnected "x").
  - destruct (unregisterAll_spec informed "x") as [_ H].
    destruct H as (s' & Heq & Hreg & Hcache & Hsent & _); [by vm_compute|].
    exists s'. split_and!; [done| | |done].
    + rewrite Hreg. apply lookup_delete_eq.
    + rewrite Hcache. apply lookup_delete_eq.
Defined.

(** X12: [unregister] at the edges.  While the service is not [Available]
    it answers [ServiceUnavailable], for an invalid [RegID] too, and leaves
    the requester as it is.  While the service is [Available] an invalid
    [RegID] is answered with [InvalidParam] and a warning in the log; a
    valid [RegID] whose [OpID] has no registration is answered with
    [Success], and still the [Unregister] envelope of the [OpID] is sent
    and its cached value dropped. *)
Theorem unregister_edge_cases (s : State) (regID : RegID.t) :
  (serviceStatus_ s ≠ Available → unregister regID s = (ServiceUnavailable, s)) ∧
  (serviceStatus_ s = Available → RegID.valid regID = false →
     unregister regID s =
       (InvalidParam, MAF_LOGGER LogWarn "Try to Unregister invalid RegID" s)) ∧
  (serviceStatus_ s = Available → RegID.valid regID = true →
   registerEntriesMap_ s !! RegID.opID regID = None →
     let message :=
       envelope (serviceID s) (RegID.opID regID) OpUnregister RequestIDInvalid None in
     ∃ s', unregister regID s = (Success, s') ∧
       registerEntriesMap_ s' = registerEntriesMap_ s ∧
       propertiesCache_ s' = delete (RegID.opID regID) (propertiesCache_ s) ∧
       sentToServer s' = sentToServer s ++ [(message, clientStatus s message)] ∧
       idMgr_ s' = idMgr_ s).
Proof.
  unfold unregister, serviceUnavailable. split_and!.
  - intros Hst. by rewrite bool_decide_eq_true_2.
  - intros Hst ->. by rewrite bool_decide_eq_false_2 by (by intros ?).
  - intros Hst -> Hreg. rewrite bool_decide_eq_false_2 by (by intros ?).
    unfold removeRegEntry. rsimpl. rewrite Hreg.
    destruct (decide (0 = 0)) as [_|]; [|done].
    rewrite createCSMessage_eq, sendMessageToServer_eq. unfold removeCachedProperty.
    rsimpl. rewrite (clientStatus_ext s) by done.
    eexists. split; [reflexivity|]. by rsimpl.
Qed.

Lemma unregister_edge_cases_witness :
  unregister RegID.empty disconnected = (ServiceUnavailable, disconnected) ∧
  unregister RegID.empty connected =
    (InvalidParam, MAF_LOGGER LogWarn "Try to Unregister invalid RegID" connected) ∧
  ∃ s', unregister {| RegID.opID := "x"; RegID.requestID := 4%N |} connected
          = (Success, s') ∧
    sentToServer s' =
      [(envelope "svc" "x" OpUnregister RequestIDInvalid None, Success)].
Proof.
  split_and!.
  - by apply (unregister_edge_cases disconnected RegID.empty).
  - by apply (unregister_edge_cases connected RegID.empty).
  - destruct (unregister_edge_cases connected
                {| RegID.opID := "x"; RegID.requestID := 4%N |}) as (_ & _ & H).
    destruct H as (s' & Heq & _ & _ & Hsent & _); [by vm_compute..|].
    by exists s'.
Defined.

(** ** Changes of the service status *)

#[global] Instance sameObservers_refl : Reflexive sameObservers.
Proof. by intros s. Qed.

#[global] Instance sameObservers_trans : Transitive sameObservers.
Proof.
  intros s1 s2 s3 (?&?&?&?) (?&?&?&?). unfold sameObservers.
  split_and!; congruence.
Qed.

Lemma setEach_sameObservers promises v : keeps sameObservers (setEach promises v).
Proof.
  induction promises as [|p promises IH]; simpl.
  - by apply keeps_ret.
  - apply keeps_bind; [exact _..| |done].
    intros s. unfold set_value. by destruct (promiseValues s !! p).
Qed.

Lemma abortAllSyncRequest_sameObservers : keeps sameObservers abortAllSyncRequest.
Proof.
  intros s. unfold abortAllSyncRequest.
  apply (keeps_bind sameObservers); [apply setEach_sameObservers|].
  intros _. by apply keeps_modify.
Qed.

(** The notifications of the loop are those of the observers it went
    through, each told once, in the order of the list. *)
Lemma forwardLoop_calls
    (sid : ServiceID) (oldStatus newStatus : Availability)
    (todo visited : list ServiceStatusObserver) (s s' : State) :
  stateAfter (forwardLoop sid oldStatus newStatus visited todo s) = Some s' →
  sid_ s' = sid_ s ∧
  ∃ n, observerCalls s' =
         observerCalls s ++
           ((λ o, notification o sid oldStatus newStatus (observersLocked s))
              <$> take n todo) ∧
       (forwardLoop sid oldStatus newStatus visited todo s = Ret tt s' →
        n = length todo).
Proof.
  revert visited s. induction todo as [|o rest IH]; intros visited s; simpl.
  - intros [= <-]. split; [done|]. exists 0. by rewrite app_nil_r.
  - unfold callObserver.
    destruct (reaction o (observerCalls s) sid oldStatus newStatus) as [|[|what|]].
    1,2: intros Hs'; pose proof Hs' as Hs''; apply IH in Hs' as (Hsid & n & Hc & Hn);
      split; [done|]; exists (S n); simpl in Hc; rewrite Hc, <- app_assoc;
      split; [done|]; intros Hret; f_equal; by apply Hn.
    all: simpl; intros [= <-]; split; [done|]; exists 1; by simpl.
Qed.

Lemma onServiceStatusChanged_calls
    (sid : ServiceID) (oldStatus newStatus : Availability) (s s' : State) :
  stateAfter (onServiceStatusChanged sid oldStatus newStatus s) = Some s' →
  sid_ s' = sid_ s ∧
  (sid = serviceID s → serviceStatus_ s' = newStatus) ∧
  ∃ n, observerCalls s' =
         observerCalls s ++
           ((λ o, notification o sid oldStatus newStatus true)
              <$> take n (serviceStatusObservers_ s)) ∧
       (onServiceStatusChanged sid oldStatus newStatus s = Ret tt s' →
        sid = serviceID s → newStatus ≠ serviceStatus_ s →
        n = length (serviceStatusObservers_ s)).
Proof.
  remember (onServiceStatusChanged sid oldStatus newStatus s) as r eqn:Hr.
  revert Hr.
  unfold onServiceStatusChanged, bind at 1, modify at 1.
  set (s0 := MAF_LOGGER _ _ s).
  destruct (bool_decide_reflect (sid = serviceID s0 ∧ newStatus ≠ serviceStatus_ s0))
    as [[Hsid Hnew]|Hno].
  2: { intros -> [= <-]. split; [done|]. split.
       - intros Hsid. destruct (decide (newStatus = serviceStatus_ s)); [done|].
         by destruct Hno.
       - exists 0. rewrite take_0, app_nil_r. split; [done|].
         intros _ Hsid Hnew. by destruct Hno. }
  unfold bind at 1, modify at 1. set (s1 := set_serviceStatus_ newStatus s0).
  unfold bind at 1.
  assert (Hblock : wp ((if decide (newStatus = Unavailable)
                        then modify (set_serviceStatus_ Unavailable) ;;
                             abortAllSyncRequest ;;
                             modify clearAllAsyncRequests ;;
                             modify clearAllRegisterEntries
                        else ret tt) s1)
                     (λ _ s2, sameObservers s s2 ∧ serviceStatus_ s2 = newStatus)
                     (λ s2, sameObservers s s2 ∧ serviceStatus_ s2 = newStatus)).
  { destruct (decide (newStatus = Unavailable)) as [->|_]; [|done].
    unfold bind at 1, modify at 1. unfold bind at 1.
    pose proof (abortAllSyncRequest_sameObservers (set_serviceStatus_ Unavailable s1))
      as Hab.
    pose proof (abortAllSyncRequest_within (set_serviceStatus_ Unavailable s1)) as Hw.
    destruct (abortAllSyncRequest _) as [[] s2|e s2| |s2]; simpl in *; try done.
    all: destruct Hw as (Hst&_); specialize (Hst eq_refl). all: done. }
  match goal with
  | |- context [match ?b s1 with _ => _ end] =>
      destruct (b s1) as [[] s2|e s2| |s2]; simpl in Hblock; simpl
  end.
  2,4: intros -> [= <-]; destruct Hblock as [(?&?&Hc&?) ?]; split; [done|];
    split; [done|]; exists 0; rewrite take_0, app_nil_r; by split.
  2: by intros ->.
  destruct Hblock as [(Hsid2&Hobs&Hc&Hl) Hst2].
  unfold forwardServiceStatusToObservers, withObserversLock.
  destruct (forwardLoop sid oldStatus newStatus []
              (serviceStatusObservers_ (set_observersLocked true s2))
              (set_observersLocked true s2)) as [[] s3|e s3| |s3] eqn:Hloop;
    intros -> Hs'; simpl in Hs'; try discriminate.
  all: injection Hs' as <-.
  all: pose proof (forwardLoop_within sid oldStatus newStatus
                     (serviceStatusObservers_ (set_observersLocked true s2)) []
                     (set_observersLocked true s2)) as Hw;
    rewrite Hloop in Hw; simpl in Hw; destruct Hw as (Hst3&_);
    specialize (Hst3 eq_refl).
  all: destruct (forwardLoop_calls sid oldStatus newStatus
                   (serviceStatusObservers_ s2) [] (set_observersLocked true s2) s3)
         as (Hsid3 & n & Hcalls & Hn); [by simpl in *; rewrite Hloop|].
  all: simpl in *; split; [congruence|]; split; [congruence|].
  all: exists n; rewrite Hcalls, Hc, Hobs; split; [done|]; try done.
  intros _ _ _. rewrite <- Hobs. apply Hn. by rewrite Hloop.
Qed.

(** X13: a change of the status of the requester's service to a status it
    does not have yet.  The requester takes the new status; the observers
    are notified in the order of the observer list, each at most once, with
    the service, the old status as reported and the new one, and all of them
    when the call returns.  No envelope is sent, no callback is called and
    the property cache stays; unless the new status is [Unavailable] the
    pending requests, the registrations and the promises stay as well. *)
Theorem status_change_notifies_observers
    (sid : ServiceID) (oldStatus newStatus : Availability) (s s' : State) :
  sid = serviceID s → newStatus ≠ serviceStatus_ s →
  stateAfter (onServiceStatusChanged sid oldStatus newStatus s) = Some s' →
  serviceStatus_ s' = newStatus ∧
  sentToServer s' = sentToServer s ∧
  callbackCalls s' = callbackCalls s ∧
  propertiesCache_ s' = propertiesCache_ s ∧
  (newStatus ≠ Unavailable → sameTables s s') ∧
  ∃ n, observerCalls s' =
         observerCalls s ++
           ((λ o, notification o sid oldStatus newStatus true)
              <$> take n (serviceStatusObservers_ s)) ∧
       (onServiceStatusChanged sid oldStatus newStatus s = Ret tt s' →
        n = length (serviceStatusObservers_ s)).
Proof.
  intros Hsid Hnew Hs'.
  destruct (onServiceStatusChanged_calls sid oldStatus newStatus s s' Hs')
    as (_ & Hst & n & Hcalls & Hn).
  pose proof (onServiceStatusChanged_within sid oldStatus newStatus s) as Hw.
  assert (Hwithin : within [FStatus; FPromises; FValues; FRequests; FRegistrations] s s').
  { destruct (onServiceStatusChanged _ _ _ s); simpl in *; by simplify_eq. }
  destruct Hwithin as (_&_&_&Hcache&_&_&_&Hsent&Hcb).
  split_and!; [by apply Hst|by apply Hsent|by apply Hcb|by apply Hcache| |].
  - intros Hkept.
    pose proof (onServiceStatusChanged_within_kept sid oldStatus newStatus Hkept s) as Hk.
    assert (Hwk : within [FStatus] s s').
    { destruct (onServiceStatusChanged _ _ _ s); simpl in *; by simplify_eq. }
    destruct Hwk as (_&Hq&Hg&Hc&Hl&_). unfold sameTables.
    split_and!; [by apply Hq|by apply Hg|by apply Hc|by apply Hl].
  - exists n. split; [done|]. intros Hret. by apply Hn.
Qed.

Lemma status_change_notifies_observers_witness :
  ∃ s',
    onServiceStatusChanged "svc" Available Unknown watched = Ret tt s' ∧
    serviceStatus_ s' = Unknown ∧
    sameTables watched s' ∧
    observerCalls s' =
      observerCalls watched ++
        [notification goneObserver "svc" Available Unknown true;
         notification listeningObserver "svc" Available Unknown true].
Proof.
  assert (Hrun : ∃ s', onServiceStatusChanged "svc" Available Unknown watched = Ret tt s')
    by (eexists; vm_compute; reflexivity).
  destruct Hrun as [s' Hrun]. exists s'. split; [done|].
  destruct (status_change_notifies_observers "svc" Available Unknown watched s')
    as (Hst & _ & _ & _ & Htables & n & Hcalls & Hn);
    [done|by vm_compute|by rewrite Hrun|].
  split_and!; [done|by apply Htables|].
  rewrite Hcalls, (Hn Hrun). reflexivity.
Defined.

(** X14: reports of the service status that change nothing.  A report for
    another service, and a report of the status the requester already has,
    leave the requester as it is but for a line in the log: no observer is
    notified.  So whatever a report does, the same report made again (with
    any old status) is ignored. *)
Theorem repeated_status_report_is_ignored
    (sid : ServiceID) (oldStatus oldStatus' newStatus : Availability) (s : State) :
  (sid ≠ serviceID s ∨ newStatus = serviceStatus_ s →
     onServiceStatusChanged sid oldStatus newStatus s =
       Ret tt (MAF_LOGGER LogInfo "Server status change" s)) ∧
  (∀ s', stateAfter (onServiceStatusChanged sid oldStatus newStatus s) = Some s' →
     onServiceStatusChanged sid oldStatus' newStatus s' =
       Ret tt (MAF_LOGGER LogInfo "Server status change" s')).
Proof.
  assert (Hignored : ∀ old s0, sid ≠ serviceID s0 ∨ newStatus = serviceStatus_ s0 →
            onServiceStatusChanged sid old newStatus s0 =
              Ret tt (MAF_LOGGER LogInfo "Server status change" s0)).
  { intros old s0 Hno. unfold onServiceStatusChanged, bind, modify.
    rewrite bool_decide_eq_false_2; [done|].
    intros [Hsid Hnew]. by destruct Hno. }
  split; [apply Hignored|].
  intros s' Hs'. apply Hignored.
  destruct (onServiceStatusChanged_calls sid oldStatus newStatus s s' Hs')
    as (Hsid & Hst & _).
  destruct (decide (sid = serviceID s)) as [Heq|Hne].
  - right. symmetry. by apply Hst.
  - left. unfold serviceID in *. by rewrite Hsid.
Qed.

Lemma repeated_status_report_is_ignored_witness :
  onServiceStatusChanged "other" Available Unavailable watched =
    Ret tt (MAF_LOGGER LogInfo "Server status change" watched) ∧
  onServiceStatusChanged "svc" Unknown Available watched =
    Ret tt (MAF_LOGGER LogInfo "Server status change" watched).
Proof.
  split.
  - destruct (repeated_status_report_is_ignored "other" Available Available Unavailable
                watched) as [Hignored _].
    apply Hignored. by left.
  - destruct (repeated_status_report_is_ignored "svc" Unknown Unknown Available watched)
      as [Hignored _].
    apply Hignored. by right.
Defined.

(** X15: the loss of the service on a requester reached by its public
    operations.  Every promise of a waiting synchronous request is
    satisfied with a null payload and the promise list emptied; the pending
    asynchronous requests and the registrations are dropped, without any of
    their callbacks being called and without any envelope being sent.  The
    property cache is left as it was. *)
Theorem service_loss_clears_requester (oldStatus : Availability) (s : State) :
  reachable anyOperation s → serviceStatus_ s ≠ Unavailable →
  ∃ s',
    stateAfter (onServiceStatusChanged (serviceID s) oldStatus Unavailable s) = Some s' ∧
    serviceStatus_ s' = Unavailable ∧
    registerEntriesMap_ s' = ∅ ∧
    requestEntriesMap_ s' = ∅ ∧
    syncRequestPromises_ s' = [] ∧
    (∀ p, p ∈ syncRequestPromises_ s → promiseValues s' !! p = Some None) ∧
    callbackCalls s' = callbackCalls s ∧
    sentToServer s' = sentToServer s ∧
    propertiesCache_ s' = propertiesCache_ s.
Proof.
  intros Hreach Hst.
  destruct (onServiceStatusChanged_loss oldStatus s) as (s' & Hs' & Hcleared);
    [by apply reachable_promisesPending|done|].
  exists s'. destruct Hcleared as (?&?&?&?&?).
  pose proof (onServiceStatusChanged_within (serviceID s) oldStatus Unavailable s) as Hw.
  assert (Hwithin : within [FStatus; FPromises; FValues; FRequests; FRegistrations] s s').
  { destruct (onServiceStatusChanged _ _ _ s); simpl in *; by simplify_eq. }
  destruct Hwithin as (_&_&_&Hcache&_&_&_&Hsent&Hcb).
  split_and!; try done; [by apply Hcb|by apply Hsent|by apply Hcache].
Qed.

Lemma service_loss_clears_requester_witness :
  propertiesCache_ timedOut !! "x" = Some (Some [x01; x02]) ∧
  syncRequestPromises_ timedOut = [0] ∧
  ∃ s',
    stateAfter (onServiceStatusChanged "svc" Available Unavailable timedOut) = Some s' ∧
    registerEntriesMap_ s' = ∅ ∧ requestEntriesMap_ s' = ∅ ∧
    syncRequestPromises_ s' = [] ∧
    promiseValues s' !! 0 = Some None ∧
    callbackCalls s' = callbackCalls timedOut ∧
    sentToServer s' = sentToServer timedOut ∧
    propertiesCache_ s' !! "x" = Some (Some [x01; x02]).
Proof.
  split; [by vm_compute|]. split; [by vm_compute|].
  destruct (service_loss_clears_requester Available timedOut)
    as (s' & Hs' & _ & Hreg & Hreq & Hl & Hv & Hcb & Hsent & Hcache).
  - repeat (apply reachable_after; [done|]). constructor.
  - by vm_compute.
  - exists s'. split_and!; [exact Hs'|exact Hreg|exact Hreq|exact Hl| |exact Hcb
                           |exact Hsent|].
    + apply Hv. vm_compute. by left.
    + rewrite Hcache. by vm_compute.
Defined.

(** ** Leaving the observer list *)

(** X16: [unregisterServiceStatusObserver] erases every entry of the
    observer from the observer list and keeps the others in their order; a
    null observer erases nothing.  An observer that has been unregistered
    gets no notification of the next report of the service status. *)
Theorem unregistered_observer_is_not_notified
    (o : ServiceStatusObserver) (s : State)
    (sid : ServiceID) (oldStatus newStatus : Availability) :
  let s1 := unregisterServiceStatusObserver (Some o) s in
  serviceStatusObservers_ s1 =
    filter (λ x, observerAddr x ≠ observerAddr o) (serviceStatusObservers_ s) ∧
  serviceStatusObservers_ (unregisterServiceStatusObserver None s) =
    serviceStatusObservers_ s ∧
  observerCalls s1 = observerCalls s ∧
  ∀ s', stateAfter (onServiceStatusChanged sid oldStatus newStatus s1) = Some s' →
    ∃ calls, observerCalls s' = observerCalls s ++ calls ∧
      ∀ c, c ∈ calls → calledObserver c ≠ observerAddr o.
Proof.
  intros s1. subst s1. unfold unregisterServiceStatusObserver. rsimpl.
  assert (Hfilter : ∀ l : list ServiceStatusObserver,
            filter (λ obsv, samePointer obsv (Some o) = false) l
            = filter (λ x, observerAddr x ≠ observerAddr o) l).
  { intros l. apply list_filter_iff. intros x. unfold samePointer.
    by rewrite bool_decide_eq_false. }
  split_and!.
  - simpl. apply Hfilter.
  - simpl. induction (serviceStatusObservers_ s) as [|x l IH]; [done|].
    rewrite filter_cons_True by done. by f_equal.
  - done.
  - intros s' Hs'.
    destruct (onServiceStatusChanged_calls sid oldStatus newStatus _ s' Hs')
      as (_ & _ & n & Hcalls & _).
    simpl in Hcalls. eexists. split; [exact Hcalls|].
    intros c (x & -> & Hx)%list_elem_of_fmap.
    apply elem_of_take in Hx as (i & Hx & _). apply list_elem_of_lookup_2 in Hx.
    rewrite Hfilter in Hx. by apply list_elem_of_filter in Hx as [Hx _].
Qed.

Lemma unregistered_observer_is_not_notified_witness :
  let s1 := unregisterServiceStatusObserver (Some goneObserver) watched in
  serviceStatusObservers_ watched = [goneObserver; listeningObserver] ∧
  serviceStatusObservers_ s1 = [listeningObserver] ∧
  ∀ s', stateAfter (onServiceStatusChanged "svc" Available Unavailable s1) = Some s' →
    ∃ calls, observerCalls s' = observerCalls watched ++ calls ∧
      ∀ c, c ∈ calls → calledObserver c ≠ 2.
Proof.
  intros s1. split; [reflexivity|]. split; [reflexivity|].
  apply (unregistered_observer_is_not_notified goneObserver watched
           "svc" Available Unavailable).
Defined.

(** ** Synchronous requests that do not time out *)

Lemma promisesPending_push (s : State) :
  promisesPending s →
  (promisesMade s ∉ syncRequestPromises_ s) ∧
  promiseValues s !! promisesMade s = None ∧
  promisesPending
    (set_syncRequestPromises_ (syncRequestPromises_ s ++ [promisesMade s])
       (set_promisesMade (S (promisesMade s)) s)).
Proof.
  intros (P1 & P2 & P3 & P4).
  assert (Hnew : promisesMade s ∉ syncRequestPromises_ s).
  { intros Hin. destruct (P2 _ Hin). lia. }
  assert (Hfresh : promiseValues s !! promisesMade s = None).
  { destruct (promiseValues s !! promisesMade s) eqn:Hv; [|done].
    assert (promisesMade s < promisesMade s) by (apply P3; by rewrite Hv). lia. }
  split_and!; [done..|]. split_and!; rsimpl.
  - apply NoDup_app. split_and!; [done| |apply NoDup_singleton].
    by intros p Hp ->%list_elem_of_singleton.
  - intros p [Hp| ->%list_elem_of_singleton]%elem_of_app.
    + destruct (P2 _ Hp). split; [lia|done].
    + split; [lia|done].
  - intros p Hp. apply P3 in Hp. lia.
  - intros w opID entries entry Hmap Hin p Hcb.
    assert (p < promisesMade s); [|rsimpl; lia].
    apply (P4 w opID entries entry); [|done..]. by destruct w.
Qed.

Lemma eraseFirst_last (promises : list PromiseRef) (promise : PromiseRef) :
  promise ∉ promises →
  eraseFirst (λ p, bool_decide (p = promise)) (promises ++ [promise]) = promises.
Proof.
  intros Hnew.
  rewrite eraseFirst_split; [by rewrite app_nil_r|by apply bool_decide_eq_true_2|].
  intros q Hq. apply bool_decide_eq_false_2. by intros ->.
Qed.

Lemma bind_Ret {A B} (m : M A) (k : A → M B) (s s' : State) (a : A) (r : Res B) :
  m s = Ret a s' → k a s' = r → bind m k s = r.
Proof. unfold bind. by intros -> ->. Qed.

Lemma onIncomingMessage_answer (msg : CSMessage.t) (s : State) :
  CSMessage.serviceID msg = sid_ s →
  CSMessage.operationCode msg = OpRequest ∨ CSMessage.operationCode msg = OpStatusGet →
  onIncomingMessage msg s =
    (onRequestResult msg ;; ret true)
      (MAF_LOGGER LogInfo "New Incoming message from server" s).
Proof.
  intros Hsid Hcode. unfold onIncomingMessage.
  apply bind_Ret with (a := tt) (s' := MAF_LOGGER LogInfo "New Incoming message from server" s);
    [done|].
  unfold serviceID. rsimpl. destruct (decide _) as [_|]; [|done].
  by destruct Hcode as [-> | ->].
Qed.

Lemma deliver_message (msg : CSMessage.t) (s s' : State) (handled : bool) :
  onIncomingMessage msg s = Ret handled s' →
  deliver (IncomingMessage msg) s = Ret tt s'.
Proof. intros Hin. unfold deliver, bind. by rewrite Hin. Qed.

(** X17: a synchronous request, made while the service is [Available] and
    accepted by the client, whose answer comes in during the wait, no
    pending request of the [OpID] carrying the request identifier that the
    new request gets.  The call returns the payload of the answer and
    stores [Success] through [callStatus]; only the request envelope has
    been sent, and no [Abort]; the promise has left the promise list and
    the entry the pending requests. *)
Theorem answered_request_returns_payload
    (s : State) (opID : OpID) (msgContent answer : CSPayloadIFPtr)
    (callStatus : option ActionCallStatus) (timeout : RequestTimeoutMs) :
  let newID := fst (IDManager.allocateNewID (idMgr_ s)) in
  let request := envelope (serviceID s) opID OpRequest newID msgContent in
  let response := envelope (serviceID s) opID OpRequest newID answer in
  reachable anyOperation s →
  serviceStatus_ s = Available →
  clientStatus s request = Success →
  (∀ e, e ∈ default [] (requestEntriesMap_ s !! opID) → RegEntry.requestID e ≠ newID) →
  ∃ s',
    sendRequest opID msgContent callStatus timeout [IncomingMessage response] s
      = Ret (answer, assign_ptr callStatus Success) s' ∧
    sentToServer s' = sentToServer s ++ [(request, Success)] ∧
    syncRequestPromises_ s' = syncRequestPromises_ s ∧
    requestEntriesMap_ s' =
      <[opID := default [] (requestEntriesMap_ s !! opID)]> (requestEntriesMap_ s) ∧
    promiseValues s' !! promisesMade s = Some answer ∧
    callbackCalls s' = callbackCalls s.
Proof.
  intros newID request response Hreach Hav Hsend Hold.
  subst request response. unfold serviceID in *.
  destruct (promisesPending_push s) as (Hnew & Hfresh & _);
    [by apply reachable_promisesPending|].
  unfold sendRequest. rewrite serviceUnavailable_false by done.
  unfold sendMessageSync.
  rewrite sendMessageAsync_accepted by (rsimpl; by rewrite (clientStatus_ext s)).
  rsimpl. fold newID.
  unfold RegID.valid at 1. rsimpl.
  rewrite bool_decide_eq_true_2 by apply allocateNewID_unused.
  set (s3 := set_sentToServer _ _).
  assert (Hanswer : onIncomingMessage
                      (envelope (sid_ s) opID OpRequest newID answer) s3
                    = Ret true
                        (set_promiseValues
                           (<[promisesMade s := answer]> (promiseValues s))
                           (set_syncRequestPromises_ (syncRequestPromises_ s)
                              (set_requestEntriesMap_
                                 (<[opID := default [] (requestEntriesMap_ s !! opID)]>
                                    (requestEntriesMap_ s))
                                 (MAF_LOGGER LogInfo "New Incoming message from server"
                                    s3))))).
  { rewrite onIncomingMessage_answer; [|done|by left].
    eapply bind_Ret; [|reflexivity].
    rewrite (onRequestResult_matched _ _ (default [] (requestEntriesMap_ s !! opID)) []
               {| RegEntry.requestID := newID;
                  RegEntry.callback := CbSync (promisesMade s) |});
      [|by subst s3; rsimpl; rewrite lookup_insert_eq|done|done].
    subst s3. rsimpl. cbn [envelope CSMessage.operationID CSMessage.payload].
    unfold invoke.
    eapply bind_Ret; [reflexivity|].
    unfold removeRequestPromies, set_value. rsimpl.
    rewrite eraseFirst_last by done. rewrite Hfresh.
    by rewrite insert_insert_eq, app_nil_r. }
  erewrite bind_Ret; cycle 1.
  { simpl deliverAll. eapply bind_Ret; [|reflexivity].
    apply (deliver_message _ _ _ _ Hanswer). }
  { reflexivity. }
  rsimpl. rewrite lookup_insert_eq.
  eexists. split.
  - destruct (decide (timeout = RequestTimeoutMs_max)); [reflexivity|].
    destruct answer; reflexivity.
  - subst s3. rsimpl. by rewrite lookup_insert_eq.
Qed.

Lemma answered_request_returns_payload_witness :
  ∃ s',
    sendRequest "echo" (Some [x01; x02]) (Some FailedUnknown) 50%Z
      [IncomingMessage (envelope "svc" "echo" OpRequest 1%N (Some [x03]))] connected
      = Ret (Some [x03], Some Success) s' ∧
    sentToServer s' = [(echoRequest, Success)] ∧
    syncRequestPromises_ s' = [].
Proof.
  destruct (answered_request_returns_payload connected "echo" (Some [x01; x02])
              (Some [x03]) (Some FailedUnknown) 50%Z)
    as (s' & Heq & Hsent & Hl & _).
  - repeat (apply reachable_after; [done|]). constructor.
  - by vm_compute.
  - by vm_compute.
  - intros e He. vm_compute in He. by apply elem_of_nil in He.
  - by exists s'.
Defined.

Lemma onServiceStatusChanged_loss_eq (oldStatus : Availability) (s : State) :
  promisesPending s → serviceStatus_ s ≠ Unavailable →
  ∃ s1,
    onServiceStatusChanged (serviceID s) oldStatus Unavailable s
      = forwardServiceStatusToObservers (serviceID s) oldStatus Unavailable s1 ∧
    clearedByLoss (syncRequestPromises_ s) s1.
Proof.
  intros HP Hst. unfold onServiceStatusChanged.
  set (s0 := MAF_LOGGER LogInfo "Server status change" s).
  assert (HP0 : promisesPending s0) by done.
  destruct (loss_clears (set_serviceStatus_ Unavailable s0)) as (s1 & Heq & Hcleared & _);
    [done|].
  exists s1. split; [|done].
  eapply bind_Ret; [reflexivity|]. fold s0.
  rewrite bool_decide_eq_true_2
    by (split; [done|intros Heq'; apply Hst; symmetry; exact Heq']).
  eapply bind_Ret; [reflexivity|].
  destruct (decide (Unavailable = Unavailable)) as [_|]; [|done].
  eapply bind_Ret; [exact Heq|done].
Qed.

Lemma deliver_loss (oldStatus : Availability) (s : State) :
  promisesPending s → serviceStatus_ s ≠ Unavailable →
  ∃ s', deliver (StatusChanged (serviceID s) oldStatus Unavailable) s = Ret tt s' ∧
    clearedByLoss (syncRequestPromises_ s) s' ∧
    sentToServer s' = sentToServer s ∧ callbackCalls s' = callbackCalls s.
Proof.
  intros HP Hst.
  destruct (onServiceStatusChanged_loss_eq oldStatus s HP Hst) as (s1 & Heq & Hcleared).
  pose proof (onServiceStatusChanged_within (serviceID s) oldStatus Unavailable s) as Hw.
  pose proof (forwardServiceStatusToObservers_within
                (serviceID s) oldStatus Unavailable s1) as Hf.
  pose proof (forward_drops_gone_observers (serviceID s) oldStatus Unavailable s1) as Ho.
  unfold deliver. rewrite Heq in *.
  destruct (forwardServiceStatusToObservers _ _ _ s1) as [[] s'|e s'| |s'];
    simpl in *; try done.
  all: exists s'; split; [done|].
  all: destruct Hw as (_&_&_&_&_&_&_&Hsent&Hcb).
  all: destruct Hf as (Hstatus&Hq&Hg&_&Hl&Hv&_).
  all: destruct Hcleared as (?&?&?&?&?); unfold clearedByLoss.
  all: rewrite Hstatus, Hq, Hg, Hl, Hv by done; split_and!; try done.
  all: by first [apply Hsent | apply Hcb].
Qed.

(** X18: a synchronous request, made while the service is [Available] and
    accepted by the client, during whose wait the service is lost.  The
    waiting caller is woken at once: the call returns a null payload, and
    the status stored through [callStatus] is the [Success] of the send, not
    [ServiceUnavailable].  No [Abort] is sent, and the promise list and the
    pending requests are empty afterwards. *)
Theorem request_interrupted_by_loss
    (s : State) (opID : OpID) (msgContent : CSPayloadIFPtr)
    (callStatus : option ActionCallStatus) (timeout : RequestTimeoutMs)
    (oldStatus : Availability) :
  let request := envelope (serviceID s) opID OpRequest
                   (fst (IDManager.allocateNewID (idMgr_ s))) msgContent in
  reachable anyOperation s →
  serviceStatus_ s = Available →
  clientStatus s request = Success →
  ∃ s',
    sendRequest opID msgContent callStatus timeout
      [StatusChanged (serviceID s) oldStatus Unavailable] s
      = Ret (None, assign_ptr callStatus Success) s' ∧
    sentToServer s' = sentToServer s ++ [(request, Success)] ∧
    serviceStatus_ s' = Unavailable ∧
    syncRequestPromises_ s' = [] ∧
    requestEntriesMap_ s' = ∅ ∧
    promiseValues s' !! promisesMade s = Some None.
Proof.
  intros request Hreach Hav Hsend. subst request. unfold serviceID in *.
  destruct (promisesPending_push s) as (Hnew & Hfresh & HP2);
    [by apply reachable_promisesPending|].
  set (newID := fst (IDManager.allocateNewID (idMgr_ s))) in *.
  unfold sendRequest. rewrite serviceUnavailable_false by done.
  unfold sendMessageSync.
  pose proof (sendMessageAsync_promisesPending opID OpRequest msgContent
                (CbSync (promisesMade s)) callStatus _ HP2) as HP3.
  rewrite sendMessageAsync_accepted in * by (rsimpl; by rewrite (clientStatus_ext s)).
  rsimpl. fold newID in HP3 |- *.
  unfold RegID.valid at 1. rsimpl.
  rewrite bool_decide_eq_true_2 by apply allocateNewID_unused.
  set (s3 := set_sentToServer _ _) in *.
  destruct (deliver_loss oldStatus s3) as (s4 & Hdel & Hcleared & Hsent & _).
  { apply HP3. intros p [= <-]. rsimpl. lia. }
  { subst s3. rsimpl. by rewrite Hav. }
  destruct Hcleared as (Hst4 & _ & Hreq4 & Hl4 & Hv4).
  assert (Hvalue : promiseValues s4 !! promisesMade s = Some None).
  { apply Hv4. subst s3. rsimpl. apply elem_of_app. right. by left. }
  erewrite bind_Ret; cycle 1.
  { simpl deliverAll. eapply bind_Ret; [|reflexivity]. exact Hdel. }
  { rewrite Hvalue. reflexivity. }
  exists s4. split.
  - by destruct (decide (timeout = RequestTimeoutMs_max)).
  - by rewrite Hsent.
Qed.

Lemma request_interrupted_by_loss_witness :
  ∃ s',
    sendRequest "echo" (Some [x01; x02]) (Some FailedUnknown) RequestTimeoutMs_max
      [StatusChanged "svc" Available Unavailable] connected
      = Ret (None, Some Success) s' ∧
    sentToServer s' = [(echoRequest, Success)] ∧
    serviceStatus_ s' = Unavailable ∧
    syncRequestPromises_ s' = [].
Proof.
  destruct (request_interrupted_by_loss connected "echo" (Some [x01; x02])
              (Some FailedUnknown) RequestTimeoutMs_max Available)
    as (s' & Heq & Hsent & Hst & Hl & _).
  - repeat (apply reachable_after; [done|]). constructor.
  - by vm_compute.
  - by vm_compute.
  - by exists s'.
Defined.

(** X19: a synchronous request, made while the service is [Available],
    whose envelope is not taken.  The call returns at once, whatever comes
    in meanwhile, with a null payload and the status of the send stored
    through [callStatus]; the promise it had pushed is taken off the promise
    list again and stays unsatisfied, and every [OpID] has the pending
    requests it had before (given that none of them carries the new
    identifier). *)
Theorem rejected_request_gives_up_its_promise
    (s : State) (opID : OpID) (msgContent : CSPayloadIFPtr)
    (callStatus : option ActionCallStatus) (timeout : RequestTimeoutMs)
    (meanwhile : list Incoming) :
  let newID := fst (IDManager.allocateNewID (idMgr_ s)) in
  let request := envelope (serviceID s) opID OpRequest newID msgContent in
  let status := clientStatus s request in
  reachable anyOperation s →
  serviceStatus_ s = Available →
  status ≠ Success →
  (∀ e, e ∈ default [] (requestEntriesMap_ s !! opID) → RegEntry.requestID e ≠ newID) →
  ∃ s',
    sendRequest opID msgContent callStatus timeout meanwhile s
      = Ret (None, assign_ptr callStatus status) s' ∧
    sentToServer s' = sentToServer s ++ [(request, status)] ∧
    syncRequestPromises_ s' = syncRequestPromises_ s ∧
    promiseValues s' = promiseValues s ∧
    (∀ op, default [] (requestEntriesMap_ s' !! op)
           = default [] (requestEntriesMap_ s !! op)).
Proof.
  intros newID request status Hreach Hav Hsend Hold. subst request status.
  unfold serviceID in *.
  destruct (promisesPending_push s) as (Hnew & Hfresh & _);
    [by apply reachable_promisesPending|].
  unfold sendRequest. rewrite serviceUnavailable_false by done.
  unfold sendMessageSync.
  rewrite sendMessageAsync_rejected; rsimpl; fold newID;
    [|by rewrite (clientStatus_ext s)|done].
  rewrite (clientStatus_ext s) by done.
  unfold removeRequestPromies. rsimpl. rewrite eraseFirst_last by done.
  eexists. split; [reflexivity|]. rsimpl. split_and!; try done.
  intros op. destruct (decide (op = opID)) as [->|Hne].
  - destruct (decide (default [] (requestEntriesMap_ s !! opID) = [])) as [He|He].
    + by rewrite lookup_delete_eq, He.
    + by rewrite lookup_insert_eq.
  - destruct (decide (default [] (requestEntriesMap_ s !! opID) = [])).
    + by rewrite lookup_delete_ne.
    + by rewrite lookup_insert_ne.
Qed.

Lemma rejected_request_gives_up_its_promise_witness :
  ∃ s',
    sendRequest "echo" (Some [x01; x02]) (Some Success) 50%Z [] orphaned
      = Ret (None, Some ReceiverUnavailable) s' ∧
    sentToServer s' = [(echoRequest, ReceiverUnavailable)] ∧
    syncRequestPromises_ s' = [] ∧
    promiseValues s' = ∅.
Proof.
  destruct (rejected_request_gives_up_its_promise orphaned "echo" (Some [x01; x02])
              (Some Success) 50%Z [])
    as (s' & Heq & Hsent & Hl & Hv & _).
  - repeat (apply reachable_after; [done|]). constructor.
  - by vm_compute.
  - by vm_compute.
  - intros e He. vm_compute in He. by apply elem_of_nil in He.
  - by exists s'.
Defined.

(** ** The asynchronous [getStatus] *)

Lemma sendMessageAsync_status operationID operationCode msgContent callback callStatus s :
  let newID := fst (IDManager.allocateNewID (idMgr_ s)) in
  let msg := envelope (serviceID s) operationID operationCode newID msgContent in
  snd (fst (sendMessageAsync operationID operationCode msgContent callback callStatus s))
  = assign_ptr callStatus (clientStatus s msg).
Proof.
  unfold sendMessageAsync, storeAndSendRequestToServer, serviceID.
  rewrite storeRegEntry_eq. rsimpl.
  rewrite createCSMessage_eq, setRequestID_envelope, sendMessageToServer_eq. rsimpl.
  rewrite (clientStatus_ext s) by done.
  by destruct (decide (_ ≠ Success)).
Qed.

(** X20: [getStatus] with a callback.  When the [OpID] has registrations
    the callback is called at once with what the cache holds for the [OpID],
    a null payload when it holds nothing, and the call answers [Success]
    without sending anything.  When the [OpID] has no registration a
    [StatusGet] envelope is sent, whatever the service status is, and the
    call answers with the status of the send; the callback is not called
    yet, and when the send succeeded it is stored with the pending
    requests. *)
Theorem getStatusAsync_spec (s : State) (propertyID : OpID) (id : nat) :
  (∀ entries, registerEntriesMap_ s !! propertyID = Some entries →
     propertiesCache_ s !! propertyID ≠ Some None →
     ∃ s', getStatusAsync propertyID (CbUser id) s = Ret Success s' ∧
       callbackCalls s' =
         callbackCalls s ++ [(id, default None (propertiesCache_ s !! propertyID))] ∧
       sentToServer s' = sentToServer s ∧
       requestEntriesMap_ s' = requestEntriesMap_ s) ∧
  (registerEntriesMap_ s !! propertyID = None →
     let newID := fst (IDManager.allocateNewID (idMgr_ s)) in
     let message := envelope (serviceID s) propertyID OpStatusGet newID None in
     let status := clientStatus s message in
     ∃ s', getStatusAsync propertyID (CbUser id) s = Ret status s' ∧
       sentToServer s' = sentToServer s ++ [(message, status)] ∧
       callbackCalls s' = callbackCalls s ∧
       (status = Success →
          requestEntriesMap_ s' =
            <[propertyID := default [] (requestEntriesMap_ s !! propertyID)
                            ++ [{| RegEntry.requestID := newID;
                                   RegEntry.callback := CbUser id |}]]>
              (requestEntriesMap_ s))).
Proof.
  split.
  - unfold getStatusAsync, cachedPropertyUpToDate.
    intros entries Hreg Hcache. rewrite Hreg.
    rewrite bool_decide_eq_true_2 by (by eexists).
    unfold bind, getCachedProperty.
    destruct (propertiesCache_ s !! propertyID) as [[p|]|]; [|done|];
      rsimpl; eexists; (split; [reflexivity|]); by rsimpl.
  - intros Hreg newID message status.
    unfold getStatusAsync, cachedPropertyUpToDate.
    rewrite Hreg, bool_decide_eq_false_2 by (by intros [? ?]).
    pose proof (sendMessageAsync_status propertyID OpStatusGet None (CbUser id)
                  (Some FailedUnknown) s) as Hstatus.
    pose proof (sendMessageAsync_sent propertyID OpStatusGet None (CbUser id)
                  (Some FailedUnknown) s) as Hsent.
    pose proof (sendMessageAsync_within propertyID OpStatusGet None (CbUser id)
                  (Some FailedUnknown) s) as Hw.
    pose proof (sendMessageAsync_accepted propertyID OpStatusGet None (CbUser id)
                  (Some FailedUnknown) s) as Hacc.
    fold newID in Hstatus, Hsent, Hacc. cbn zeta in Hstatus, Hsent, Hacc.
    fold message status in Hstatus, Hsent.
    destruct (sendMessageAsync _ _ _ _ _ s) as [[regID callstatus] s1].
    simpl in Hstatus, Hsent, Hw. subst callstatus. simpl.
    exists s1. split_and!; [done|done| |].
    + destruct Hw as (_&_&_&_&_&_&_&_&Hcb). by apply Hcb.
    + intros Hok. specialize (Hacc Hok).
      assert (Hs1 : s1 = snd (regID, Some status, s1)) by done.
      rewrite Hs1, Hacc. by rsimpl.
Qed.

Lemma getStatusAsync_spec_witness :
  (∃ s', getStatusAsync "x" (CbUser 7) informed = Ret Success s' ∧
     callbackCalls s' = callbackCalls informed ++ [(7, Some [x01; x02])] ∧
     sentToServer s' = sentToServer informed) ∧
  (∃ s', getStatusAsync "x" (CbUser 7) fresh = Ret Success s' ∧
     sentToServer s' = [(envelope "svc" "x" OpStatusGet 1%N None, Success)] ∧
     callbackCalls s' = []).
Proof.
  split.
  - destruct (getStatusAsync_spec informed "x" 7) as [Hcached _].
    destruct (Hcached [{| RegEntry.requestID := 1%N; RegEntry.callback := CbUser 1 |}])
      as (s' & Heq & Hcalls & Hsent & _); [by vm_compute..|].
    by exists s'.
  - destruct (getStatusAsync_spec fresh "x" 7) as [_ Hsend].
    destruct Hsend as (s' & Heq & Hsent & Hcalls & _); [by vm_compute|].
    by exists s'.
Defined.

(** ** The synchronous [getStatus] *)

Lemma sendMessageSync_answered
    (s : State) (opID : OpID) (opCode answerCode : OpCode)
    (msgContent answer : CSPayloadIFPtr)
    (callStatus : option ActionCallStatus) (timeout : RequestTimeoutMs) :
  let newID := fst (IDManager.allocateNewID (idMgr_ s)) in
  let request := envelope (sid_ s) opID opCode newID msgContent in
  let response := envelope (sid_ s) opID answerCode newID answer in
  answerCode = OpRequest ∨ answerCode = OpStatusGet →
  promisesPending s →
  clientStatus s request = Success →
  (∀ e, e ∈ default [] (requestEntriesMap_ s !! opID) → RegEntry.requestID e ≠ newID) →
  ∃ s',
    sendMessageSync opID opCode msgContent callStatus timeout
      [IncomingMessage response] s
      = Ret (answer, assign_ptr callStatus Success) s' ∧
    sentToServer s' = sentToServer s ++ [(request, Success)] ∧
    syncRequestPromises_ s' = syncRequestPromises_ s ∧
    callbackCalls s' = callbackCalls s.
Proof.
  intros newID request response Hcode HP Hsend Hold. subst request response.
  destruct (promisesPending_push s HP) as (Hnew & Hfresh & _).
  unfold sendMessageSync.
  rewrite sendMessageAsync_accepted by (rsimpl; by rewrite (clientStatus_ext s)).
  rsimpl. fold newID.
  unfold RegID.valid at 1. rsimpl.
  rewrite bool_decide_eq_true_2 by apply allocateNewID_unused.
  set (s3 := set_sentToServer _ _).
  assert (Hanswer : onIncomingMessage
                      (envelope (sid_ s) opID answerCode newID answer) s3
                    = Ret true
                        (set_promiseValues
                           (<[promisesMade s := answer]> (promiseValues s))
                           (set_syncRequestPromises_ (syncRequestPromises_ s)
                              (set_requestEntriesMap_
                                 (<[opID := default [] (requestEntriesMap_ s !! opID)]>
                                    (requestEntriesMap_ s))
                                 (MAF_LOGGER LogInfo "New Incoming message from server"
                                    s3))))).
  { rewrite onIncomingMessage_answer; [|done|done].
    eapply bind_Ret; [|reflexivity].
    rewrite (onRequestResult_matched _ _ (default [] (requestEntriesMap_ s !! opID)) []
               {| RegEntry.requestID := newID;
                  RegEntry.callback := CbSync (promisesMade s) |});
      [|by subst s3; rsimpl; rewrite lookup_insert_eq|done|done].
    subst s3. rsimpl. cbn [envelope CSMessage.operationID CSMessage.payload].
    unfold invoke.
    eapply bind_Ret; [reflexivity|].
    unfold removeRequestPromies, set_value. rsimpl.
    rewrite eraseFirst_last by done. rewrite Hfresh.
    by rewrite insert_insert_eq, app_nil_r. }
  erewrite bind_Ret; cycle 1.
  { simpl deliverAll. eapply bind_Ret; [|reflexivity].
    apply (deliver_message _ _ _ _ Hanswer). }
  { reflexivity. }
  rsimpl. rewrite lookup_insert_eq.
  eexists. split.
  - destruct (decide (timeout = RequestTimeoutMs_max)); [reflexivity|].
    destruct answer; reflexivity.
  - by subst s3.
Qed.

Lemma sendMessageSync_timed_out
    (s : State) (opID : OpID) (opCode : OpCode) (msgContent : CSPayloadIFPtr)
    (callStatus : option ActionCallStatus) (timeout : RequestTimeoutMs) :
  let newID := fst (IDManager.allocateNewID (idMgr_ s)) in
  promisesPending s →
  timeout ≠ RequestTimeoutMs_max →
  clientStatus s (envelope (sid_ s) opID opCode newID msgContent) = Success →
  ∃ s' abortStatus,
    sendMessageSync opID opCode msgContent callStatus timeout [] s
      = Ret (None, assign_ptr callStatus Timeout) s' ∧
    sentToServer s' =
      sentToServer s ++
        [(envelope (sid_ s) opID opCode newID msgContent, Success);
         (envelope (sid_ s) opID OpAbort newID None, abortStatus)].
Proof.
  intros newID HP Hmax Hsend.
  destruct (promisesPending_push s HP) as (Hnew & Hfresh & _).
  unfold sendMessageSync.
  rewrite sendMessageAsync_accepted by (rsimpl; by rewrite (clientStatus_ext s)).
  rsimpl. fold newID.
  unfold RegID.valid at 1. rsimpl.
  rewrite bool_decide_eq_true_2 by apply allocateNewID_unused.
  erewrite bind_Ret; [|reflexivity|reflexivity].
  rsimpl. rewrite Hfresh.
  destruct (decide (timeout = RequestTimeoutMs_max)) as [|_]; [done|].
  unfold abortRequest. unfold RegID.valid. rsimpl.
  rewrite bool_decide_eq_true_2 by apply allocateNewID_unused. cbn [negb].
  rewrite lookup_insert_eq.
  destruct (findFirst_app_match (hasRequestID newID)
              (default [] (requestEntriesMap_ s !! opID))
              {| RegEntry.requestID := newID;
                 RegEntry.callback := CbSync (promisesMade s) |})
    as [found Hfound]; [by apply hasRequestID_true|].
  rewrite Hfound. rewrite createCSMessage_eq, setRequestID_envelope.
  rewrite sendMessageToServer_eq. rsimpl.
  eexists _, _. split; [by rewrite assign_ptr_twice|].
  destruct (decide (_ = Success)); rsimpl; by rewrite <- app_assoc.
Qed.

Lemma sendMessageSync_refused
    (s : State) (opID : OpID) (opCode : OpCode) (msgContent : CSPayloadIFPtr)
    (callStatus : option ActionCallStatus) (timeout : RequestTimeoutMs)
    (meanwhile : list Incoming) :
  let newID := fst (IDManager.allocateNewID (idMgr_ s)) in
  let request := envelope (sid_ s) opID opCode newID msgContent in
  clientStatus s request ≠ Success →
  ∃ s',
    sendMessageSync opID opCode msgContent callStatus timeout meanwhile s
      = Ret (None, assign_ptr callStatus (clientStatus s request)) s' ∧
    sentToServer s' = sentToServer s ++ [(request, clientStatus s request)].
Proof.
  intros newID request Hsend. subst request.
  unfold sendMessageSync, sendMessageAsync, storeAndSendRequestToServer.
  rewrite storeRegEntry_eq. rsimpl. fold newID.
  rewrite createCSMessage_eq, setRequestID_envelope, sendMessageToServer_eq.
  rsimpl. rewrite (clientStatus_ext s) by done.
  destruct (decide (_ ≠ Success)) as [_|]; [|done].
  unfold RegID.clear, RegID.valid, RegID.empty. rsimpl.
  rewrite bool_decide_eq_false_2 by (by intros ?).
  eexists. split; [reflexivity|].
  unfold removeRequestPromies. rsimpl.
  match goal with
  | |- sentToServer (snd (removeRegEntry ?w ?r ?s0)) = _ =>
      pose proof (removeRegEntry_within_requests r s0) as Hw
  end.
  destruct Hw as (_&_&_&_&_&_&_&Hsent&_). by rewrite Hsent.
Qed.



(** ** The destructor *)

(** X21: destroying a requester reached by its public operations.  Every
    promise of a waiting synchronous request is satisfied with a null
    payload and the promise list emptied.  Nothing is sent (no [Abort] and
    no [Unregister]), no callback is called, and the pending requests and
    the registrations are left in their tables. *)
Theorem destroy_wakes_waiting_callers (s : State) :
  reachable anyOperation s →
  ∃ s', destroy s = Ret tt s' ∧
    syncRequestPromises_ s' = [] ∧
    (∀ p, p ∈ syncRequestPromises_ s → promiseValues s' !! p = Some None) ∧
    sentToServer s' = sentToServer s ∧
    callbackCalls s' = callbackCalls s ∧
    requestEntriesMap_ s' = requestEntriesMap_ s ∧
    registerEntriesMap_ s' = registerEntriesMap_ s.
Proof.
  intros Hreach. unfold destroy.
  set (s0 := MAF_LOGGER LogInfo "Clean up service requester" s).
  destruct (abortAllSyncRequest_pending s0) as (s' & Heq & Hw & _ & Hl & Hv).
  { assert (HP : promisesPending s) by (by apply reachable_promisesPending). done. }
  exists s'. split; [by eapply bind_Ret|].
  destruct Hw as (_&Hq&Hg&_&_&_&_&Hsent&Hcb).
  split_and!; [done|done|by apply Hsent|by apply Hcb|by apply Hq|by apply Hg].
Qed.

Lemma destroy_wakes_waiting_callers_witness :
  syncRequestPromises_ timedOut = [0] ∧
  ∃ s', destroy timedOut = Ret tt s' ∧
    syncRequestPromises_ s' = [] ∧
    promiseValues s' !! 0 = Some None ∧
    registerEntriesMap_ s' = registerEntriesMap_ timedOut.
Proof.
  split; [by vm_compute|].
  destruct (destroy_wakes_waiting_callers timedOut)
    as (s' & Heq & Hl & Hv & _ & _ & _ & Hreg).
  - repeat (apply reachable_after; [done|]). constructor.
  - exists s'. split_and!; [done..| |done]. apply Hv. vm_compute. by left.
Defined.

(** ** What an incoming envelope cannot do *)

(** X22: whatever envelope comes in, and however its handling ends,
    [onIncomingMessage] sends nothing to the server and leaves the service
    status and the registrations as they are. *)
Theorem onIncomingMessage_sends_nothing (csMsg : CSMessage.t) (s s' : State) :
  stateAfter (onIncomingMessage csMsg s) = Some s' →
  sentToServer s' = sentToServer s ∧
  serviceStatus_ s' = serviceStatus_ s ∧
  registerEntriesMap_ s' = registerEntriesMap_ s.
Proof.
  intros Hs'. pose proof (onIncomingMessage_within csMsg s) as Hw.
  assert (Hwithin : within [FCache; FRequests; FCalls; FPromises; FValues] s s').
  { destruct (onIncomingMessage csMsg s); simpl in *; by simplify_eq. }
  destruct Hwithin as (Hst&_&Hg&_&_&_&_&Hsent&_).
  split_and!; [by apply Hsent|by apply Hst|by apply Hg].
Qed.

Lemma onIncomingMessage_sends_nothing_witness :
  ∃ s', stateAfter (onIncomingMessage statusUpdate subscribed) = Some s' ∧
    sentToServer s' = sentToServer subscribed ∧
    serviceStatus_ s' = serviceStatus_ subscribed ∧
    registerEntriesMap_ s' = registerEntriesMap_ subscribed.
Proof.
  eexists. split; [vm_compute; reflexivity|].
  apply (onIncomingMessage_sends_nothing statusUpdate subscribed).
  vm_compute. reflexivity.
Defined.

(** ** Registrations that are refused, and registrations given back *)

Lemma filter_reclaim (m : IDManager.t) (id : RequestID) :
  id ∉ m → IDManager.reclaimUsedID id (id :: m) = m.
Proof.
  intros Hid. unfold IDManager.reclaimUsedID, IDManager.t in *.
  rewrite filter_cons. destruct (decide (id ≠ id)) as [|_]; [done|].
  induction m as [|x m IH]; [done|].
  rewrite filter_cons. destruct (decide (x ≠ id)) as [_|Hx].
  - f_equal. apply IH. intros Hin. apply Hid. by right.
  - destruct Hid. apply dec_stable in Hx as ->. by left.
Qed.

Lemma registerNotification_first_eq
    (s : State) (opID : OpID) (opCode : OpCode) (id : nat)
    (callStatus : option ActionCallStatus) :
  registerEntriesMap_ s !! opID = None →
  let newID := fst (IDManager.allocateNewID (idMgr_ s)) in
  let msg := envelope (sid_ s) opID opCode newID None in
  let status := clientStatus s msg in
  let entry := {| RegEntry.requestID := newID; RegEntry.callback := CbUser id |} in
  registerNotification opID opCode (CbUser id) callStatus s =
    if decide (status ≠ Success)
    then Ret (RegID.empty, assign_ptr callStatus status)
             (set_registerEntriesMap_ (registerEntriesMap_ s)
                (set_idMgr_ (idMgr_ s)
                   (set_sentToServer (sentToServer s ++ [(msg, status)])
                      (set_registerEntriesMap_
                         (<[opID := [entry]]> (registerEntriesMap_ s))
                         (set_idMgr_ (newID :: idMgr_ s) s)))))
    else Ret ({| RegID.opID := opID; RegID.requestID := newID |},
              assign_ptr callStatus status)
             (set_sentToServer (sentToServer s ++ [(msg, status)])
                (set_registerEntriesMap_
                   (<[opID := [entry]]> (registerEntriesMap_ s))
                   (set_idMgr_ (newID :: idMgr_ s) s))).
Proof.
  intros Hnone newID msg status entry. subst msg status entry.
  unfold registerNotification.
  eapply bind_Ret; [unfold lift; rewrite storeRegEntry_eq; reflexivity|].
  fold newID. rsimpl. rewrite Hnone. cbn [app length].
  rewrite decide_True by done.
  eapply bind_Ret; [reflexivity|].
  rewrite createCSMessage_eq, setRequestID_envelope. rsimpl.
  eapply bind_Ret; [unfold lift; rewrite sendMessageToServer_eq; reflexivity|].
  rsimpl. rewrite (clientStatus_ext s) by done.
  destruct (decide (_ ≠ Success)) as [Hst|Hst]; [|done].
  eapply bind_Ret.
  { unfold lift. erewrite removeRegEntry_eq by (rsimpl; apply lookup_insert_eq).
    reflexivity. }
  rsimpl. cbn [app eraseFirst]. unfold hasRequestID. rsimpl.
  rewrite bool_decide_eq_true_2 by done.
  rewrite decide_True by done. rewrite delete_insert_id by done.
  unfold RegID.reclaimID. rsimpl.
  rewrite filter_reclaim by apply allocateNewID_unused. done.
Qed.

(** X23: registrations that are refused.  While the service is not
    [Available], [registerStatus] and [registerSignal] return the invalid
    [RegID], store [ServiceUnavailable] through [callStatus] and leave the
    requester as it is; while it is [Available] they answer a null callback
    with [InvalidParam] in the same way.  When the register envelope of the
    first registration of an [OpID] is not taken, the call returns the
    invalid [RegID] with the status of the send, and the registration it
    had stored is taken back along with its request identifier. *)
Theorem registration_refused
    (s : State) (propertyID : OpID) (callback : Callback) (id : nat)
    (callStatus : option ActionCallStatus) :
  (serviceStatus_ s ≠ Available →
     registerStatus propertyID callback callStatus s
       = Ret (RegID.empty, assign_ptr callStatus ServiceUnavailable) s ∧
     registerSignal propertyID callback callStatus s
       = Ret (RegID.empty, assign_ptr callStatus ServiceUnavailable) s) ∧
  (serviceStatus_ s = Available →
     registerStatus propertyID CbNull callStatus s
       = Ret (RegID.empty, assign_ptr callStatus InvalidParam) s ∧
     registerSignal propertyID CbNull callStatus s
       = Ret (RegID.empty, assign_ptr callStatus InvalidParam) s) ∧
  (serviceStatus_ s = Available →
   registerEntriesMap_ s !! propertyID = None →
   ∀ opCode register,
     (opCode = OpStatusRegister ∧ register = registerStatus) ∨
     (opCode = OpSignalRegister ∧ register = registerSignal) →
     let message := envelope (serviceID s) propertyID opCode
                      (fst (IDManager.allocateNewID (idMgr_ s))) None in
     let status := clientStatus s message in
     status ≠ Success →
     ∃ s', register propertyID (CbUser id) callStatus s
             = Ret (RegID.empty, assign_ptr callStatus status) s' ∧
       registerEntriesMap_ s' = registerEntriesMap_ s ∧
       idMgr_ s' = idMgr_ s ∧
       sentToServer s' = sentToServer s ++ [(message, status)] ∧
       callbackCalls s' = callbackCalls s).
Proof.
  split_and!.
  - intros Hst. unfold registerStatus, registerSignal.
    by rewrite serviceUnavailable_true.
  - intros Hst. unfold registerStatus, registerSignal.
    by rewrite serviceUnavailable_false.
  - intros Hst Hnone opCode register Hregister message status Hrefused.
    subst message status. unfold serviceID in *.
    assert (Hrun : register propertyID (CbUser id) callStatus s =
                   registerNotification propertyID opCode (CbUser id) callStatus s).
    { destruct Hregister as [[-> ->]|[-> ->]];
        unfold registerStatus, registerSignal; by rewrite serviceUnavailable_false. }
    rewrite Hrun, registerNotification_first_eq by done.
    rewrite decide_True by done. eexists. split; [reflexivity|]. by rsimpl.
Qed.

Lemma registration_refused_witness :
  registerStatus "x" (CbUser 1) (Some Success) disconnected
    = Ret (RegID.empty, Some ServiceUnavailable) disconnected ∧
  registerSignal "x" CbNull (Some Success) connected
    = Ret (RegID.empty, Some InvalidParam) connected ∧
  ∃ s', registerStatus "x" (CbUser 1) (Some Success) orphaned
          = Ret (RegID.empty, Some ReceiverUnavailable) s' ∧
    registerEntriesMap_ s' = registerEntriesMap_ orphaned ∧
    sentToServer s' =
      [(envelope "svc" "x" OpStatusRegister 1%N None, ReceiverUnavailable)].
Proof.
  split_and!.
  - destruct (registration_refused disconnected "x" (CbUser 1) 1 (Some Success))
      as (H & _ & _).
    by apply H.
  - destruct (registration_refused connected "x" CbNull 1 (Some Success))
      as (_ & H & _).
    by apply H.
  - destruct (registration_refused orphaned "x" CbNull 1 (Some Success))
      as (_ & _ & H).
    destruct (H eq_refl eq_refl OpStatusRegister registerStatus)
      as (s' & Heq & Hreg & _ & Hsent & _); [by left|by vm_compute|].
    by exists s'.
Defined.

(** X24: a registration given back.  The first registration of an [OpID],
    made while the service is [Available] and accepted by the client,
    followed by [unregister] of the [RegID] it returned: the registrations
    and the identifiers in use are what they were before, the [OpID] has no
    cached value, and two envelopes have been sent, the register envelope
    with the new request identifier and then the [Unregister] of the
    [OpID]. *)
Theorem register_then_unregister
    (s : State) (propertyID : OpID) (id : nat) (callStatus : option ActionCallStatus)
    (opCode : OpCode) (register : OpID → Callback → option ActionCallStatus →
                                   M (RegID.t * option ActionCallStatus)) :
  (opCode = OpStatusRegister ∧ register = registerStatus) ∨
  (opCode = OpSignalRegister ∧ register = registerSignal) →
  serviceStatus_ s = Available →
  registerEntriesMap_ s !! propertyID = None →
  let newID := fst (IDManager.allocateNewID (idMgr_ s)) in
  let registerEnvelope := envelope (serviceID s) propertyID opCode newID None in
  let unregisterEnvelope :=
    envelope (serviceID s) propertyID OpUnregister RequestIDInvalid None in
  clientStatus s registerEnvelope = Success →
  ∃ regID s1 s2 status,
    register propertyID (CbUser id) callStatus s
      = Ret (regID, assign_ptr callStatus Success) s1 ∧
    RegID.valid regID = true ∧
    registerEntriesMap_ s1 !! propertyID
      = Some [{| RegEntry.requestID := newID; RegEntry.callback := CbUser id |}] ∧
    unregister regID s1 = (Success, s2) ∧
    registerEntriesMap_ s2 = registerEntriesMap_ s ∧
    idMgr_ s2 = idMgr_ s ∧
    propertiesCache_ s2 = delete propertyID (propertiesCache_ s) ∧
    sentToServer s2 =
      sentToServer s ++ [(registerEnvelope, Success); (unregisterEnvelope, status)].
Proof.
  intros Hregister Hav Hnone newID registerEnvelope unregisterEnvelope Hsend.
  subst registerEnvelope unregisterEnvelope. unfold serviceID in *.
  assert (Hrun : register propertyID (CbUser id) callStatus s =
                 registerNotification propertyID opCode (CbUser id) callStatus s).
  { destruct Hregister as [[-> ->]|[-> ->]];
      unfold registerStatus, registerSignal; by rewrite serviceUnavailable_false. }
  rewrite Hrun, registerNotification_first_eq by done. fold newID.
  rewrite Hsend. rewrite decide_False by (by intros ?).
  set (s1 := set_sentToServer _ _).
  assert (Hreg1 : registerEntriesMap_ s1 !! propertyID
            = Some [{| RegEntry.requestID := newID; RegEntry.callback := CbUser id |}])
    by (subst s1; rsimpl; apply lookup_insert_eq).
  exists {| RegID.opID := propertyID; RegID.requestID := newID |}, s1.
  unfold unregister. rewrite serviceUnavailable_false by done.
  unfold RegID.valid. rsimpl.
  rewrite bool_decide_eq_true_2 by apply allocateNewID_unused.
  erewrite removeRegEntry_eq by (rsimpl; exact Hreg1).
  rsimpl. cbn [app eraseFirst]. unfold hasRequestID. rsimpl.
  rewrite bool_decide_eq_true_2 by done.
  rewrite decide_True by done. cbn [length]. rewrite decide_True by done.
  rewrite createCSMessage_eq, sendMessageToServer_eq. unfold removeCachedProperty.
  eexists _, _. split_and!; [reflexivity|done|done|reflexivity|..]; subst s1; rsimpl.
  - by rewrite delete_insert_id.
  - unfold RegID.reclaimID. rsimpl. apply filter_reclaim, allocateNewID_unused.
  - done.
  - by rewrite <- app_assoc.
Qed.

Lemma register_then_unregister_witness :
  ∃ regID s1 s2,
    registerStatus "x" (CbUser 1) (Some FailedUnknown) connected
      = Ret (regID, Some Success) s1 ∧
    unregister regID s1 = (Success, s2) ∧
    registerEntriesMap_ s2 = registerEntriesMap_ connected ∧
    idMgr_ s2 = idMgr_ connected ∧
    sentToServer s2 =
      [(envelope "svc" "x" OpStatusRegister 1%N None, Success);
       (envelope "svc" "x" OpUnregister RequestIDInvalid None, Success)].
Proof.
  destruct (register_then_unregister connected "x" 1 (Some FailedUnknown)
              OpStatusRegister registerStatus)
    as (regID & s1 & s2 & status & Hrun & _ & _ & Hun & Hreg & Hid & _ & Hsent);
    [by left|by vm_compute..|].
  exists regID, s1, s2. split_and!; [done..|].
  rewrite Hsent. assert (status = Success) as ->; [|reflexivity].
  assert (Hs1 : stateAfter (registerStatus "x" (CbUser 1) (Some FailedUnknown) connected)
                = Some s1) by (by rewrite Hrun).
  assert (Hr : regID = {| RegID.opID := "x"; RegID.requestID := 1%N |}).
  { vm_compute in Hrun. by injection Hrun as <- _. }
  subst regID. vm_compute in Hs1. injection Hs1 as <-.
  vm_compute in Hun. injection Hun as <-.
  vm_compute in Hsent. by injection Hsent.
Defined.

(** * The router *)

Section RouterInitFacts.
Context {ClientBase ServerBase : Type}.
Variable ClientBase_init : ClientBase → bool * ClientBase.
Variable ServerBase_init : ServerBase → bool * ServerBase.

(** X25: [IAMessageRouter::init] initializes the client base first and the
    server base only when that succeeded.  It returns [true] exactly when
    both did; when the client base fails the server base is left as it
    was. *)
Theorem init_initializes_in_order
    (r : @IAMessageRouter.State ClientBase ServerBase) :
  let clientResult := ClientBase_init (IAMessageRouter.clientBase r) in
  let serverResult := ServerBase_init (IAMessageRouter.serverBase r) in
  let '(ok, r') := IAMessageRouter.init ClientBase_init ServerBase_init r in
  ok = fst clientResult && fst serverResult ∧
  IAMessageRouter.clientBase r' = snd clientResult ∧
  (if fst clientResult
   then IAMessageRouter.serverBase r' = snd serverResult ∧
        IAMessageRouter.baseCalls r' =
          IAMessageRouter.baseCalls r
            ++ [IAMessageRouter.ClientBaseInit; IAMessageRouter.ServerBaseInit]
   else IAMessageRouter.serverBase r' = IAMessageRouter.serverBase r ∧
        IAMessageRouter.baseCalls r' =
          IAMessageRouter.baseCalls r ++ [IAMessageRouter.ClientBaseInit]).
Proof.
  unfold IAMessageRouter.init, IAMessageRouter.andThen,
    IAMessageRouter.callClientInit, IAMessageRouter.callServerInit. simpl.
  destruct (ClientBase_init (IAMessageRouter.clientBase r)) as [[] c1]; simpl.
  - destruct (ServerBase_init (IAMessageRouter.serverBase r)) as [ok v1]; simpl.
    split_and!; [done..|]. by rewrite <- app_assoc.
  - by destruct (ServerBase_init (IAMessageRouter.serverBase r)).
Qed.

End RouterInitFacts.

Section RouterRegistrationFacts.
Context {ClientBase ServerBase : Type}.
Variable ClientBase_registerServiceRequester :
  ClientBase → ServiceRequester.State → bool * ClientBase.
Variable ServerBase_hasServiceProvider : ServerBase → ServiceID → bool.

(** X26: [IAMessageRouter::registerServiceRequester].  When the client base
    refuses the requester the call returns [false]; when it takes it the
    call returns [true], unless an observer of the requester makes it leave
    by an exception.  The requester is told that its service has become
    [Available] only when the client base took it and the server base has
    a provider of its service: a requester that did not hold the service
    for [Available] then does so, and its observers are notified of a
    change from [Unavailable], whatever status it held; nothing is sent and
    its tables stay.  In every other case the requester is left as it
    is. *)
Theorem registerServiceRequester_spec
    (r : @IAMessageRouter.State ClientBase ServerBase) (requester : State) :
  let register :=
    IAMessageRouter.registerServiceRequester
      ClientBase_registerServiceRequester ServerBase_hasServiceProvider r in
  let registered :=
    fst (ClientBase_registerServiceRequester (IAMessageRouter.clientBase r) requester) in
  let provided :=
    ServerBase_hasServiceProvider (IAMessageRouter.serverBase r) (serviceID requester) in
  (registered = false → ∃ r', register requester = Ret (false, r') requester) ∧
  (registered = true → provided = false →
     ∃ r', register requester = Ret (true, r') requester) ∧
  (registered = true → provided = true →
     serviceStatus_ requester ≠ Available →
     ∀ requester', stateAfter (register requester) = Some requester' →
       serviceStatus_ requester' = Available ∧
       sameTables requester requester' ∧
       sentToServer requester' = sentToServer requester ∧
       ∃ n, observerCalls requester' =
              observerCalls requester ++
                ((λ o, notification o (serviceID requester) Unavailable Available true)
                   <$> take n (serviceStatusObservers_ requester)) ∧
            (∀ ok r', register requester = Ret (ok, r') requester' →
                      ok = true ∧
                      n = length (serviceStatusObservers_ requester))).
Proof.
  intros register registered provided. subst register registered provided.
  unfold IAMessageRouter.registerServiceRequester.
  destruct (ClientBase_registerServiceRequester _ _) as [ok c]. simpl.
  split_and!.
  - intros ->. by eexists.
  - intros -> ->. by eexists.
  - intros -> -> Hst requester' Hs'.
    assert (Hchange : stateAfter
              (onServiceStatusChanged (serviceID requester) Unavailable Available
                 requester) = Some requester').
    { unfold bind in Hs'.
      by destruct (onServiceStatusChanged _ _ _ requester). }
    destruct (onServiceStatusChanged_calls _ _ _ _ _ Hchange)
      as (_ & Hnew & n & Hcalls & Hn).
    pose proof (onServiceStatusChanged_within_kept
                  (serviceID requester) Unavailable Available) as Hk.
    specialize (Hk ltac:(done) requester).
    assert (Hw : within [FStatus] requester requester').
    { destruct (onServiceStatusChanged _ _ _ requester); simpl in *; by simplify_eq. }
    destruct Hw as (_&Hq&Hg&Hc&Hl&_&_&Hsent&_).
    split_and!; [by apply Hnew| |by apply Hsent|].
    + unfold sameTables. split_and!; [by apply Hq|by apply Hg|by apply Hc|by apply Hl].
    + exists n. split; [done|]. intros ok r' Hret.
      unfold bind, ret in Hret.
      destruct (onServiceStatusChanged _ _ _ requester) as [[] ?| | |] eqn:Hrun;
        simpl in *; simplify_eq.
      split; [done|]. apply Hn; [done..|]. by intros ?.
Qed.

End RouterRegistrationFacts.

Lemma registerServiceRequester_spec_witness :
  let r := {| IAMessageRouter.clientBase := tt; IAMessageRouter.serverBase := tt;
              IAMessageRouter.baseCalls := [] |} in
  let requester :=
    after (DoRegisterObserver (Some listeningObserver)) fresh in
  ∃ requester',
    stateAfter
      (IAMessageRouter.registerServiceRequester
         (λ c _, (true, c)) (λ _ _, true) r requester) = Some requester' ∧
    serviceStatus_ requester' = Available ∧
    sentToServer requester' = sentToServer requester ∧
    ∃ n, observerCalls requester' =
           observerCalls requester ++
             ((λ o, notification o "svc" Unavailable Available true)
                <$> take n [listeningObserver]).
Proof.
  intros r requester.
  assert (Hrun : ∃ requester',
            stateAfter
              (IAMessageRouter.registerServiceRequester
                 (λ c _, (true, c)) (λ _ _, true) r requester) = Some requester')
    by (eexists; vm_compute; reflexivity).
  destruct Hrun as [requester' Hs']. exists requester'. split; [exact Hs'|].
  destruct (registerServiceRequester_spec (λ c _, (true, c)) (λ _ _, true) r requester)
    as (_ & _ & H).
  destruct (H eq_refl eq_refl ltac:(by vm_compute) requester' Hs')
    as (Hst & _ & Hsent & n & Hcalls & _).
  split_and!; [done..|]. by exists n.
Defined.

(** * Decoding a payload *)

Section TranslateMessageFacts.
Context {Message ByteStream : Type}.
Variable deserialize : ByteStream → @ParamTrait.Extraction Message.

(** X27: the message that [translate] returns.  How the call ends does
    not depend on whether a status cell is given.  A null message comes
    with the status [NoSource] or [DestSrcMismatch]; a message is returned
    exactly when the payload has a stream and the extraction from it came
    to its end, and it is then the content extracted, also when the stream
    reports a failure and the status is [SourceCorrupted].  The call is left
    by an exception exactly when the payload has a stream and the
    extraction threw something that is not a [std::exception]. *)
Theorem translate_message
    (payload : option (@ParamTrait.IncomingPayload ByteStream))
    (old : ParamTrait.TranslationStatus) :
  let result := ParamTrait.translate deserialize payload (Some old) in
  fst (ParamTrait.translate deserialize payload None) = fst result ∧
  (fst result = ParamTrait.Returned None →
     snd result = Some ParamTrait.NoSource ∨
     snd result = Some ParamTrait.DestSrcMismatch) ∧
  (∀ content, fst result = ParamTrait.Returned (Some content) ↔
     ∃ ibytestream fail,
       payload = Some {| ParamTrait.stream := Some ibytestream |} ∧
       deserialize ibytestream = ParamTrait.Extracted content fail) ∧
  (∀ ibytestream content fail,
     payload = Some {| ParamTrait.stream := Some ibytestream |} →
     deserialize ibytestream = ParamTrait.Extracted content fail →
     snd result = Some (if fail then ParamTrait.SourceCorrupted
                        else ParamTrait.Success)) ∧
  (fst result = ParamTrait.Propagated ↔
     ∃ ibytestream,
       payload = Some {| ParamTrait.stream := Some ibytestream |} ∧
       deserialize ibytestream = ParamTrait.RaisedOther).
Proof.
  unfold ParamTrait.translate.
  destruct payload as [[[ibytestream|]]|]; simpl.
  2,3: split_and!; [done|by left|split; [done|by intros (?&?&?&?)]|done
                   |split; [done|by intros (?&?&?)]].
  destruct (deserialize ibytestream) as [content [|]|what|] eqn:Hd; simpl.
  - split_and!; [done|done| | |split; [done|]].
    + intros c. split.
      * intros [= <-]. by exists ibytestream, true.
      * intros (i & f & [= <-] & Hi). by rewrite Hd in Hi; simplify_eq.
    + intros i c f [= <-] Hi. by rewrite Hd in Hi; simplify_eq.
    + intros (i & [= <-] & Hi). by rewrite Hd in Hi.
  - split_and!; [done|done| | |split; [done|]].
    + intros c. split.
      * intros [= <-]. by exists ibytestream, false.
      * intros (i & f & [= <-] & Hi). by rewrite Hd in Hi; simplify_eq.
    + intros i c f [= <-] Hi. by rewrite Hd in Hi; simplify_eq.
    + intros (i & [= <-] & Hi). by rewrite Hd in Hi.
  - split_and!; [done|by right| | |split; [done|]].
    + intros c. split; [done|].
      intros (i & f & [= <-] & Hi). by rewrite Hd in Hi.
    + intros i c f [= <-] Hi. by rewrite Hd in Hi.
    + intros (i & [= <-] & Hi). by rewrite Hd in Hi.
  - split_and!; [done|done| | |split; [by exists ibytestream|done]].
    + intros c. split; [done|].
      intros (i & f & [= <-] & Hi). by rewrite Hd in Hi.
    + intros i c f [= <-] Hi. by rewrite Hd in Hi.
Qed.

End TranslateMessageFacts.

Lemma translate_message_witness :
  let deserialize (bytes : list nat) :=
    match bytes with
    | [n] => ParamTrait.Extracted n false
    | n :: _ => ParamTrait.Extracted n true
    | [] => ParamTrait.Raised "empty"
    end in
  let payload := Some {| ParamTrait.stream := Some [7; 8] |} in
  ParamTrait.translate deserialize payload (Some ParamTrait.Success)
    = (ParamTrait.Returned (Some 7), Some ParamTrait.SourceCorrupted) ∧
  ParamTrait.translate deserialize payload None = (ParamTrait.Returned (Some 7), None).
Proof.
  intros deserialize payload.
  destruct (translate_message deserialize payload ParamTrait.Success)
    as (Hsame & _ & Hmsg & Hstatus & _).
  specialize (Hstatus [7; 8] 7 true eq_refl eq_refl).
  destruct (Hmsg 7) as [_ Hcontent].
  specialize (Hcontent ltac:(by exists [7; 8], true)).
  split.
  - destruct (ParamTrait.translate deserialize payload (Some ParamTrait.Success))
      as [m st]. simpl in *. by subst.
  - reflexivity.
Defined.

(** * Timers *)

Section TimerFacts.
Variable invalidJobID : N.
Variable TimerManager_start : list (nat * Timer.ManagerCall) → nat → Z → bool → N.
Variable TimerManager_isRunning : list (nat * Timer.ManagerCall) → nat → N → bool.

(** X28: calls on a timer that do nothing.  [start] with a null callback
    only logs an error: the timer and its manager are as before.  [start]
    where the component has no timer manager makes no call on any manager
    and lets go of the manager the timer had: afterwards the timer does not
    count as running, and [stop], [restart] and the destructor make no call
    either, so that a job it had started stays with its manager.
    [setCyclic] with the value the timer has makes no call. *)
Theorem timer_calls_without_effect
    (milliseconds : Z) (callback : nat) (t : Timer.State) :
  (let t' :=
     Timer.start TimerManager_start TimerManager_isRunning milliseconds None t in
   Timer._id t' = Timer._id t ∧ Timer._myMgr t' = Timer._myMgr t ∧
   Timer.managerCalls t' = Timer.managerCalls t ∧
   Timer.logged t' ≠ Timer.logged t) ∧
  (Timer.timerManager t = None →
   let t' :=
     Timer.start TimerManager_start TimerManager_isRunning milliseconds
       (Some callback) t in
   Timer._myMgr t' = None ∧ Timer._id t' = Timer._id t ∧
   Timer.managerCalls t' = Timer.managerCalls t ∧
   Timer.running TimerManager_isRunning t' = false ∧
   Timer.stop t' = t' ∧ Timer.restart t' = t' ∧ Timer.deleteTimer t' = t') ∧
  Timer.setCyclic (Timer._cyclic t) t = t.
Proof.
  split_and!.
  - simpl. split_and!; [done..|]. intros Heq.
    apply (f_equal length) in Heq. rewrite length_app in Heq. simpl in Heq. lia.
  - intros Hnone. unfold Timer.start, Timer.running, Timer.stop, Timer.restart,
      Timer.deleteTimer, Timer.stop. simpl. rewrite Hnone. simpl. by split_and!.
  - unfold Timer.setCyclic. by rewrite bool_decide_eq_false_2 by (by intros ?).
Qed.

(** X29: [start] with a callback where the component has a timer manager.
    The timer takes that manager.  When the manager reports the job of the
    timer's identifier as running, that job is stopped first; then one job
    is started with the duration and the cyclic flag of the timer, and the
    timer takes the identifier the manager returns.  Nothing is posted. *)
Theorem start_replaces_running_job
    (milliseconds : Z) (callback : nat) (mgr : nat) (t : Timer.State) :
  Timer.timerManager t = Some mgr →
  let t' :=
    Timer.start TimerManager_start TimerManager_isRunning milliseconds
      (Some callback) t in
  let stopped :=
    if TimerManager_isRunning (Timer.managerCalls t) mgr (Timer._id t)
    then [(mgr, Timer.MgrStop (Timer._id t))] else [] in
  Timer._myMgr t' = Some mgr ∧
  Timer.managerCalls t' =
    Timer.managerCalls t ++ stopped
      ++ [(mgr, Timer.MgrStart milliseconds (Timer._cyclic t))] ∧
  Timer._id t' =
    TimerManager_start (Timer.managerCalls t ++ stopped) mgr milliseconds
      (Timer._cyclic t) ∧
  Timer._cyclic t' = Timer._cyclic t ∧
  Timer.posted t' = Timer.posted t.
Proof.
  intros Hmgr. unfold Timer.start, Timer.running, Timer.stop. simpl.
  rewrite Hmgr. simpl.
  destruct (TimerManager_isRunning (Timer.managerCalls t) mgr (Timer._id t)); simpl.
  - split_and!; try done. by rewrite <- app_assoc.
  - by rewrite app_nil_r.
Qed.

(** X30: what the time-out closure of a timer does when the manager calls
    it.  While the component is alive one [TimeoutMessage] is posted to it,
    with the identifier of the timer, priority 1000 and the callback given
    to [start], which its [execute] calls; a one-shot timer then takes the
    invalid identifier and a cyclic one keeps its own.  When the component
    is gone nothing is posted, the timer takes the invalid identifier, and
    a cyclic timer has its job stopped by its manager. *)
Theorem onTimeout_spec (callback : nat) (componentAlive : bool) (t : Timer.State) :
  let t' := Timer.onTimeout invalidJobID callback componentAlive t in
  let message := BasicMessages.makeTimeoutMessage (Timer._id t) (Some callback) in
  BasicMessages.timerID message = Timer._id t ∧
  BasicMessages.priority message = 1000%Z ∧
  BasicMessages.execute (BasicMessages.base message) = [callback] ∧
  Timer.posted t' = Timer.posted t ++ (if componentAlive then [message] else []) ∧
  Timer._id t' =
    (if componentAlive && Timer._cyclic t then Timer._id t else invalidJobID) ∧
  Timer.managerCalls t' =
    Timer.managerCalls t ++
      (if negb componentAlive && Timer._cyclic t
       then match Timer._myMgr t with
            | Some mgr => [(mgr, Timer.MgrStop (Timer._id t))]
            | None => []
            end
       else []) ∧
  Timer._myMgr t' = Timer._myMgr t ∧ Timer._cyclic t' = Timer._cyclic t.
Proof.
  unfold Timer.onTimeout.
  destruct componentAlive, (Timer._cyclic t) eqn:Hc, (Timer._myMgr t) eqn:Hm;
    simpl; rewrite ?Hc, ?Hm; simpl; rewrite ?Hc, ?Hm, ?app_nil_r; by split_and!.
Qed.

End TimerFacts.

Lemma timer_calls_without_effect_witness :
  let t := Timer.newTimer 0%N false None in
  let t' := Timer.start (λ _ _ _ _, 1%N) (λ _ _ _, true) 100%Z (Some 3) t in
  Timer._myMgr t' = None ∧ Timer.managerCalls t' = [] ∧ Timer.stop t' = t'.
Proof.
  intros t t'.
  destruct (timer_calls_without_effect (λ _ _ _ _, 1%N) (λ _ _ _, true) 100%Z 3 t)
    as (_ & H & _).
  destruct (H eq_refl) as (Hmgr & _ & Hcalls & _ & Hstop & _).
  by split_and!.
Defined.

Lemma start_replaces_running_job_witness :
  let start :=
    Timer.start (λ calls _ _ _, N.of_nat (S (length calls)))
      (λ _ _ id, bool_decide (id ≠ 0%N)) in
  let t1 := start 100%Z (Some 3) (Timer.newTimer 0%N false (Some 5)) in
  let t2 := start 200%Z (Some 4) t1 in
  Timer._id t1 = 1%N ∧
  Timer.managerCalls t1 = [(5, Timer.MgrStart 100 false)] ∧
  Timer.managerCalls t2 =
    [(5, Timer.MgrStart 100 false); (5, Timer.MgrStop 1); (5, Timer.MgrStart 200 false)] ∧
  Timer._id t2 = 3%N.
Proof.
  intros start t1 t2.
  destruct (start_replaces_running_job
              (λ calls _ _ _, N.of_nat (S (length calls)))
              (λ _ _ id, bool_decide (id ≠ 0%N)) 100%Z 3 5
              (Timer.newTimer 0%N false (Some 5)) eq_refl)
    as (_ & Hcalls1 & Hid1 & _).
  destruct (start_replaces_running_job
              (λ calls _ _ _, N.of_nat (S (length calls)))
              (λ _ _ id, bool_decide (id ≠ 0%N)) 200%Z 4 5 t1 eq_refl)
    as (_ & Hcalls2 & Hid2 & _).
  split_and!; [exact Hid1|exact Hcalls1|exact Hcalls2|exact Hid2].
Defined.
